(** * The sharded L2 embedding cache of FBGEMM (cachelib_cache.cpp)

    A shallow embedding of [l2_cache::CacheLibCache]: the engine that keeps
    embedding rows in pools of an LRU allocator, one pool per shard, and
    copies the rows the allocator evicts into buffers the caller reads back.

    The file has four layers:
    - outcomes, machine integers, raw memory and tensors;
    - the key codec (a 64-bit key seen as its eight bytes);
    - [LruAllocator], a reference model of the allocator the engine is built
      on (named pools, capacity-bounded allocation, insert-or-replace, and a
      removal notification for every item that leaves the cache);
    - the engine itself, function by function, followed by the theorems. *)

From stdpp Require Import base tactics option list list_numbers numbers strings pretty.
From Stdlib Require Import ZArith Lia.

Local Open Scope Z_scope.

(** ** Outcomes

    A C++ call either returns or does not.  The ways in which the code of
    this file can fail to return are kept apart, because the claims
    distinguish them. *)

Inductive failure : Type :=
  | NullDeref                 (* [->] on a [shared_ptr] that holds nothing *)
  | OutOfBounds               (* a raw-pointer access outside its buffer: undefined behaviour *)
  | DivisionByZero            (* integer division by zero *)
  | Throw (what : string)     (* a C++ exception *)
  | CheckFailed (a b : Z).    (* [CHECK_EQ(a, b)] with [a <> b]: the process aborts *)

Inductive res (A : Type) : Type :=
  | Ok (a : A)
  | Fail (f : failure).
Arguments Ok {A} a.
Arguments Fail {A} f.

#[global] Instance res_ret : MRet res := fun A a => Ok a.
#[global] Instance res_bind : MBind res := fun A B k m =>
  match m with
  | Ok a => k a
  | Fail f => Fail f
  end.
#[global] Instance res_fmap : FMap res := fun A B g m =>
  match m with
  | Ok a => Ok (g a)
  | Fail f => Fail f
  end.

Definition is_Ok {A} (m : res A) : bool :=
  match m with Ok _ => true | Fail _ => false end.

(** A dereference of a [shared_ptr]. *)
Definition deref {A} (p : option A) : res A :=
  match p with
  | Some a => Ok a
  | None => Fail NullDeref
  end.

(** ** Machine integers *)

(** The value an integer has after conversion to a signed type of [w] bits. *)
Definition to_signed (w : Z) (z : Z) : Z :=
  (z + 2 ^ (w - 1)) `mod` 2 ^ w - 2 ^ (w - 1).

Definition to_int (z : Z) : Z := to_signed 32 z.      (* [int] *)
Definition to_int64 (z : Z) : Z := to_signed 64 z.    (* [int64_t], [long] *)

Definition int_range (z : Z) : Prop := - 2 ^ 31 <= z < 2 ^ 31.
Definition int64_range (z : Z) : Prop := - 2 ^ 63 <= z < 2 ^ 63.

(** ** Raw memory

    A buffer is the list of its bytes, a byte being a [Z] in [0, 256).  Reads and
    writes through a raw pointer are bounds-checked here, so that a stray
    access shows up as [OutOfBounds] instead of passing unnoticed. *)

Abbreviation byte := Z (only parsing).

Definition mem_read (off : Z) (n : nat) (mem : list byte) : res (list byte) :=
  if decide (off < 0) then Fail OutOfBounds
  else match sublist_lookup (Z.to_nat off) n mem with
       | Some bs => Ok bs
       | None => Fail OutOfBounds
       end.

Definition mem_write (off : Z) (bs : list byte) (mem : list byte) : res (list byte) :=
  if decide (off < 0) then Fail OutOfBounds
  else if decide (Z.to_nat off + length bs <= length mem)%nat
       then Ok (sublist_alter (fun _ => bs) (Z.to_nat off) (length bs) mem)
       else Fail OutOfBounds.

(** ** Key codec

    [put], [get] and the removal callback all look at a key through
    [reinterpret_cast]: the key handed to the allocator is the eight bytes of
    the [int64_t], and the key read back is those eight bytes seen as an
    [int64_t] again.  The byte order is that of the host, little endian on
    the machines the library is built for. *)

Definition key_str (key : Z) : list byte := Z_to_little_endian 8 8 key.

Definition read_int64 (bs : list byte) : res Z :=
  bs8 ← mem_read 0 8 bs;
  Ok (to_int64 (little_endian_to_Z 8 bs8)).

(** ** Tensors *)

Inductive ScalarType : Type := kByte | kHalf | kFloat | kDouble | kLong.

#[global] Instance ScalarType_eq_dec : EqDecision ScalarType.
Proof. solve_decision. Defined.

Definition elementSize (t : ScalarType) : nat :=
  match t with
  | kByte => 1
  | kHalf => 2
  | kFloat => 4
  | kDouble => 8
  | kLong => 8
  end%nat.

(** A dense tensor on the host: its element type, its shape and its bytes. *)
Record Tensor : Type := mkTensor {
  scalar_type : ScalarType;
  sizes : list Z;
  storage : list byte
}.

Definition numel (t : Tensor) : Z := foldr Z.mul 1 (sizes t).

Definition nbytes (t : Tensor) : nat := (Z.to_nat (numel t) * elementSize (scalar_type t))%nat.

(** [t.size(d)]; a dimension the tensor does not have is an exception. *)
Definition size (t : Tensor) (d : nat) : res Z :=
  match sizes t !! d with
  | Some n => Ok n
  | None => Fail (Throw "Dimension out of range")
  end.

(** [t.data_ptr<T>()] checks that [T] is the element type of [t]. *)
Definition data_ptr (T : ScalarType) (t : Tensor) : res (list byte) :=
  if decide (scalar_type t = T) then Ok (storage t)
  else Fail (Throw "expected scalar type does not match").

Definition set_storage (t : Tensor) (mem : list byte) : Tensor :=
  mkTensor (scalar_type t) (sizes t) mem.

(** The bytes of the element -1 in each element type: all ones for the
    integers, and the IEEE encodings of -1.0 for the floating types. *)
Definition minus_one (t : ScalarType) : list byte :=
  match t with
  | kByte => [255]
  | kHalf => [0; 188]
  | kFloat => [0; 0; 128; 191]
  | kDouble => [0; 0; 0; 0; 0; 0; 240; 191]
  | kLong => [255; 255; 255; 255; 255; 255; 255; 255]
  end.

(** The elements of a tensor of [int64_t], in order. *)
Fixpoint int64_elems (n : nat) (mem : list byte) : list Z :=
  match n with
  | O => []
  | S n' => to_int64 (little_endian_to_Z 8 (take 8 mem)) :: int64_elems n' (drop 8 mem)
  end.

Definition int64s (t : Tensor) : list Z :=
  int64_elems (length (storage t) / 8) (storage t).

(** Row [i] of a buffer of rows of [n] bytes each. *)
Definition row_bytes (n : nat) (i : nat) (mem : list byte) : option (list byte) :=
  sublist_lookup (i * n) n mem.

(** ** The allocator

    [facebook::cachelib::LruAllocator] is a library the engine links
    against; it is not part of this repository.  The model below is the
    contract the engine relies on: memory split into named pools of fixed
    size, items kept per pool in order of last use, an allocation that makes
    room by evicting the least recently used items of its pool, an index
    with at most one item per key, and a notification for every item that
    leaves the cache, saying whether it was evicted or removed.

    The allocator calls the removal callback while it runs.  The callback of
    this engine never touches the allocator, so the model hands the
    notifications back to the caller, in the order they are raised, and the
    engine runs its callback on each of them. *)

Module LruAllocator.

Inductive RemoveContext : Type := kNormal | kEviction.

#[global] Instance RemoveContext_eq_dec : EqDecision RemoveContext.
Proof. solve_decision. Defined.

Record Item : Type := mkItem {
  getKey : list byte;
  getMemory : list byte
}.

Record RemoveCbData : Type := mkRemoveCbData {
  context : RemoveContext;
  item : Item
}.

Record Pool : Type := mkPool {
  poolName : string;
  poolSize : N;
  poolItems : list Item          (* most recently used first *)
}.

Record Cache : Type := mkCache {
  ramCacheSize : N;              (* [getCacheMemoryStats().ramCacheSize] *)
  pools : list Pool
}.

Definition PoolId : Type := nat.

(** What [allocate] returns: room for [hSize] bytes under [hKey] in pool
    [hPool], not yet visible to [find]. *)
Record Handle : Type := mkHandle {
  hPool : PoolId;
  hKey : list byte;
  hSize : nat
}.

Definition itemSize (key_len val_len : nat) : N := N.of_nat (key_len + val_len).

Definition footprint (it : Item) : N :=
  itemSize (length (getKey it)) (length (getMemory it)).

Definition usedBytes (its : list Item) : N :=
  foldr (fun it acc => (footprint it + acc)%N) 0%N its.

Definition set_items (p : Pool) (its : list Item) : Pool :=
  mkPool (poolName p) (poolSize p) its.

Definition set_pools (c : Cache) (ps : list Pool) : Cache :=
  mkCache (ramCacheSize c) ps.

Definition reserved (ps : list Pool) : N :=
  foldr (fun p acc => (poolSize p + acc)%N) 0%N ps.

(** [addPool(name, size)]: a new, empty pool; refused when the pools would
    together exceed the memory of the cache. *)
Definition addPool (name : string) (sz : N) (c : Cache) : res (PoolId * Cache) :=
  if decide (reserved (pools c) + sz <= ramCacheSize c)%N
  then Ok (length (pools c), set_pools c (pools c ++ [mkPool name sz []]))
  else Fail (Throw "not enough memory to add the pool").

(** [getPoolStats(pid)], of which the engine reads two numbers. *)
Definition getPoolStats (pid : PoolId) (c : Cache) : res Pool :=
  match pools c !! pid with
  | Some p => Ok p
  | None => Fail (Throw "invalid pool id")
  end.

Definition numItems (p : Pool) : N := N.of_nat (length (poolItems p)).

Definition freeMemoryBytes (p : Pool) : N := (poolSize p - usedBytes (poolItems p))%N.

(** Eviction: as long as the items take more than [budget] bytes, the least
    recently used one goes.  The list is given least recently used first;
    the result is the victims, in the order they are evicted, and the items
    that stay. *)
Fixpoint evict_lru (budget : N) (lru_first : list Item) : list Item * list Item :=
  match lru_first with
  | [] => ([], [])
  | it :: rest =>
      if decide (usedBytes (it :: rest) <= budget)%N then ([], it :: rest)
      else let '(victims, kept) := evict_lru budget rest in (it :: victims, kept)
  end.

(** [allocate(pid, key, size)].  An item that does not fit into the pool even
    when the pool is empty cannot be allocated: the result is an empty
    handle and nothing is evicted. *)
Definition allocate (pid : PoolId) (key : list byte) (sz : nat) (c : Cache)
  : res (list RemoveCbData * option Handle * Cache) :=
  match pools c !! pid with
  | None => Fail (Throw "invalid pool id")
  | Some p =>
      let need := itemSize (length key) sz in
      if decide (poolSize p < need)%N then Ok ([], None, c)
      else
        let '(victims, kept) := evict_lru (poolSize p - need) (reverse (poolItems p)) in
        Ok (mkRemoveCbData kEviction <$> victims,
            Some (mkHandle pid key sz),
            set_pools c (<[pid := set_items p (reverse kept)]> (pools c)))
  end.

Definition has_key (key : list byte) (it : Item) : bool :=
  bool_decide (getKey it = key).

Definition without_key (key : list byte) (p : Pool) : Pool :=
  set_items p (filter (fun it => has_key key it = false) (poolItems p)).

Definition with_key (key : list byte) (ps : list Pool) : list Item :=
  mjoin ((fun p => filter (fun it => has_key key it = true) (poolItems p)) <$> ps).

Definition push_item (it : Item) (p : Pool) : Pool :=
  set_items p (it :: poolItems p).

(** [insertOrReplace(handle)]: the item becomes the one the index holds for
    its key, most recently used in its pool; what the index held for that
    key before leaves the cache, with context [kNormal]. *)
Definition insertOrReplace (pid : PoolId) (it : Item) (c : Cache)
  : list RemoveCbData * Cache :=
  (mkRemoveCbData kNormal <$> with_key (getKey it) (pools c),
   set_pools c (alter (push_item it) pid (without_key (getKey it) <$> pools c))).

(** The first item with the given key, and the other items. *)
Fixpoint take_item (key : list byte) (its : list Item) : option (Item * list Item) :=
  match its with
  | [] => None
  | it :: rest =>
      if has_key key it then Some (it, rest)
      else match take_item key rest with
           | Some (x, rest') => Some (x, it :: rest')
           | None => None
           end
  end.

Fixpoint find_pools (key : list byte) (ps : list Pool) : option (Item * list Pool) :=
  match ps with
  | [] => None
  | p :: ps' =>
      match take_item key (poolItems p) with
      | Some (it, rest) => Some (it, set_items p (it :: rest) :: ps')
      | None =>
          match find_pools key ps' with
          | Some (it, ps'') => Some (it, p :: ps'')
          | None => None
          end
      end
  end.

(** [find(key)]: the item the index holds for the key, if any; a hit makes
    the item the most recently used of its pool. *)
Definition find (key : list byte) (c : Cache) : option Item * Cache :=
  match find_pools key (pools c) with
  | Some (it, ps) => (Some it, set_pools c ps)
  | None => (None, c)
  end.

(** The items [begin() .. end()] walks over. *)
Definition all_items (c : Cache) : list Item :=
  mjoin (poolItems <$> pools c).

End LruAllocator.

Import LruAllocator.

(** ** What the engine takes from outside this file

    The engine is compiled against three things whose definitions are not in
    the translation unit, and it leaves one thing unspecified.

    - [hash_shard] is [kv_db_utils::hash_shard] of kv_db_cpp_utils.h: the
      shard a key belongs to, given the number of shards.
    - [dispatch_case] says for which element types the macro
      [FBGEMM_DISPATCH_FLOAT_HALF_AND_BYTE] of dispatch_macros.h has a case;
      for the others the macro raises an exception.
    - [ram_cache_size] is the memory the allocator reports as usable
      ([getCacheMemoryStats().ramCacheSize]) once it has been set up with a
      given [setCacheSize]; [None] when it refuses the configuration.
    - [uninit] is what freshly allocated, uninitialised storage holds, byte
      by byte ([at::empty]). *)

Class Platform : Type := {
  hash_shard : Z -> nat -> nat;
  dispatch_case : ScalarType -> bool;
  ram_cache_size : N -> option N;
  uninit : nat -> byte
}.

(** ** The engine *)

(** Modelled from the spec: the declaration of the struct
    [CacheLibCache::CacheConfig], which is in cachelib_cache.h.  Section 3
    of the specification lists its four fields, which are the four this
    file reads.  The sizes in bytes and the number of shards are unsigned;
    [item_size_bytes] and [max_D_] are kept as integers, and the division
    of one by the other is the division of C++. *)
Record CacheConfig : Type := mkCacheConfig {
  cache_size_bytes : N;
  item_size_bytes : Z;
  num_shards : N;
  max_D_ : Z
}.

(** The data members of [CacheLibCache], as this file uses them (the class
    is declared in cachelib_cache.h).  [admin_] only serves monitoring and
    is left out; [xlog] collects what [XLOG(ERR)] writes. *)
Record CacheLibCache : Type := mkCacheLibCache {
  cache_config_ : CacheConfig;
  cache_ : Cache;
  pool_ids_ : list PoolId;
  evicted_indices_ptr_ : option Tensor;
  evicted_weights_ptr_ : option Tensor;
  eviction_row_id : Z;
  xlog : list string
}.

Definition set_cache (s : CacheLibCache) (c : Cache) : CacheLibCache :=
  mkCacheLibCache (cache_config_ s) c (pool_ids_ s) (evicted_indices_ptr_ s)
    (evicted_weights_ptr_ s) (eviction_row_id s) (xlog s).

Definition set_evicted (s : CacheLibCache) (ind wts : option Tensor) : CacheLibCache :=
  mkCacheLibCache (cache_config_ s) (cache_ s) (pool_ids_ s) ind wts
    (eviction_row_id s) (xlog s).

Definition set_eviction_row_id (s : CacheLibCache) (n : Z) : CacheLibCache :=
  mkCacheLibCache (cache_config_ s) (cache_ s) (pool_ids_ s) (evicted_indices_ptr_ s)
    (evicted_weights_ptr_ s) n (xlog s).

Definition add_xlog (s : CacheLibCache) (msg : string) : CacheLibCache :=
  mkCacheLibCache (cache_config_ s) (cache_ s) (pool_ids_ s) (evicted_indices_ptr_ s)
    (evicted_weights_ptr_ s) (eviction_row_id s) (xlog s ++ [msg]).

(** [bytes_to_dtype], lines 19-32. *)
Definition bytes_to_dtype (num_bytes : Z) : res ScalarType :=
  if decide (num_bytes = 1) then Ok kByte
  else if decide (num_bytes = 2) then Ok kHalf
  else if decide (num_bytes = 4) then Ok kFloat
  else if decide (num_bytes = 8) then Ok kDouble
  else Fail (Throw "Unsupported dtype").

(** Integer division as C++ has it. *)
Definition cdiv (a b : Z) : res Z :=
  if decide (b = 0) then Fail DivisionByZero else Ok (a ÷ b).

(** One key and one row copied out of an item into slot [slot] of a pair of
    buffers: [indices[slot] = *key_ptr] and [std::copy] of [weight_dim]
    elements of [els] bytes each to [&weights[slot * weight_dim]].  The
    removal callback (lines 59-67) and [get_all_items] (lines 139-145) do
    exactly this.  An offset whose computation would overflow is far outside
    any buffer, so the products are written without wrap-around. *)
Definition copy_item (slot weight_dim : Z) (els : nat) (it : Item)
    (indices weights : list byte) : res (list byte * list byte) :=
  key ← read_int64 (getKey it);
  indices' ← mem_write (slot * 8) (key_str key) indices;
  row ← mem_read 0 (Z.to_nat weight_dim * els) (getMemory it);
  weights' ← mem_write (slot * weight_dim * Z.of_nat els) row weights;
  Ok (indices', weights').

Section Engine.
Context {platform : Platform}.

(** [at::empty(sizes, dtype)]. *)
Definition at_empty (dims : list Z) (t : ScalarType) : res Tensor :=
  if decide (Forall (fun d => 0 <= d) dims)
  then Ok (mkTensor t dims (uninit <$> seq 0 (Z.to_nat (foldr Z.mul 1 dims) * elementSize t)))
  else Fail (Throw "Trying to create tensor with negative dimension").

(** [at::ones(n, dtype) * -1]. *)
Definition at_ones_times_minus_one (n : Z) (t : ScalarType) : res Tensor :=
  if decide (0 <= n)
  then Ok (mkTensor t [n] (mjoin (replicate (Z.to_nat n) (minus_one t))))
  else Fail (Throw "Trying to create tensor with negative dimension").

(** [at::tensor({v}, kLong)]. *)
Definition at_tensor_long (v : Z) : Tensor := mkTensor kLong [1] (key_str v).

(** [initializeCacheLib], lines 71-78: the allocator as configured, without
    pools.  The callback it installs is [eviction_cb] below. *)
Definition initializeCacheLib (config : CacheConfig) : res Cache :=
  match ram_cache_size (cache_size_bytes config) with
  | Some ram => Ok (mkCache ram [])
  | None => Fail (Throw "invalid cache configuration")
  end.

(** The loop of the constructor, lines 38-42, over the shard numbers it has
    still to visit. *)
Fixpoint add_shards (config : CacheConfig) (shards : list nat)
    (ids : list PoolId) (c : Cache) : res (list PoolId * Cache) :=
  match shards with
  | [] => Ok (ids, c)
  | i :: shards' =>
      '(pid, c') ← addPool ("shard_" +:+ pretty i)
                     (ramCacheSize c / num_shards config)%N c;
      add_shards config shards' (ids ++ [pid]) c'
  end.

(** The constructor, lines 34-43.  The members it does not mention keep
    the initial values of their declarations: no capture buffers are
    attached, which is the state [get_evicted_indices_and_weights] tests
    for, and the cursor is 0. *)
Definition CacheLibCache_new (cache_config : CacheConfig) : res CacheLibCache :=
  c ← initializeCacheLib cache_config;
  '(ids, c') ← add_shards cache_config (seq 0 (N.to_nat (num_shards cache_config))) [] c;
  Ok (mkCacheLibCache cache_config c' ids None None 0 []).

(** The removal callback, lines 47-70.  The dispatch macro reads the element
    type of the weights buffer before it runs its body, whatever the reason
    of the removal. *)
Definition eviction_cb (data : RemoveCbData) (s : CacheLibCache) : res CacheLibCache :=
  wts ← deref (evicted_weights_ptr_ s);
  if dispatch_case (scalar_type wts) then
    if decide (context data = kEviction) then
      ind ← deref (evicted_indices_ptr_ s);
      indices_data ← data_ptr kLong ind;
      weights_data ← data_ptr (scalar_type wts) wts;
      let row_id := eviction_row_id s in
      let s := set_eviction_row_id s (to_int64 (row_id + 1)) in
      weight_dim ← size wts 1;
      '(indices_data', weights_data') ←
        copy_item row_id weight_dim (elementSize (scalar_type wts)) (item data)
          indices_data weights_data;
      Ok (set_evicted s (Some (set_storage ind indices_data'))
                        (Some (set_storage wts weights_data')))
    else Ok s
  else Fail (Throw "l2_eviction_handling not implemented for the scalar type").

(** The callback on each removal the allocator reports, in order. *)
Fixpoint run_callbacks (evs : list RemoveCbData) (s : CacheLibCache) : res CacheLibCache :=
  match evs with
  | [] => Ok s
  | data :: evs' => s' ← eviction_cb data s; run_callbacks evs' s'
  end.

(** [get], lines 89-97.  The pointer it returns is a view of the bytes of
    the item. *)
Definition get (key : Z) (s : CacheLibCache) : option (list byte) * CacheLibCache :=
  let key_str := key_str key in
  let '(item, c) := find key_str (cache_ s) in
  match item with
  | None => (None, set_cache s c)
  | Some it => (Some (getMemory it), set_cache s c)
  end.

(** [get_shard_id], lines 99-101. *)
Definition get_shard_id (key : Z) (s : CacheLibCache) : nat :=
  hash_shard key (length (pool_ids_ s)).

(** [get_pool_id], lines 103-105. *)
Definition get_pool_id (key : Z) (s : CacheLibCache) : res PoolId :=
  match pool_ids_ s !! get_shard_id key s with
  | Some pid => Ok pid
  | None => Fail OutOfBounds
  end.

Definition alloc_failed_msg (key : Z) : string :=
  "Failed to allocate item " +:+ pretty key +:+ " in cache, skip".

(** [put], lines 107-118, with the removals the allocator reported on the
    way. *)
Definition put_traced (key : Z) (data : Tensor) (s : CacheLibCache)
  : res (bool * list RemoveCbData * CacheLibCache) :=
  let key_str := key_str key in
  pid ← get_pool_id key s;
  '(evs, item, c) ← allocate pid key_str (nbytes data) (cache_ s);
  s ← run_callbacks evs (set_cache s c);
  match item with
  | None => Ok (false, evs, add_xlog s (alloc_failed_msg key))
  | Some h =>
      bytes ← mem_read 0 (nbytes data) (storage data);
      let '(evs', c') := insertOrReplace (hPool h) (mkItem (hKey h) bytes) (cache_ s) in
      s ← run_callbacks evs' (set_cache s c');
      Ok (true, evs ++ evs', s)
  end.

Definition put (key : Z) (data : Tensor) (s : CacheLibCache) : res (bool * CacheLibCache) :=
  (fun r => (r.1.1, r.2)) <$> put_traced key data s.

(** A batch of [put] calls, one after the other. *)
Fixpoint put_all (batch : list (Z * Tensor)) (s : CacheLibCache)
  : res (list bool * list RemoveCbData * CacheLibCache) :=
  match batch with
  | [] => Ok ([], [], s)
  | (key, data) :: batch' =>
      '(ok, evs, s') ← put_traced key data s;
      '(oks, evs', s'') ← put_all batch' s';
      Ok (ok :: oks, evs ++ evs', s'')
  end.

(** A sequence of [get] calls, one after the other: the engine they leave. *)
Definition gets (keys : list Z) (s : CacheLibCache) : CacheLibCache :=
  foldl (fun s key => (get key s).2) s keys.

(** The first loop of [get_all_items], lines 121-124; the sum is an [int]. *)
Fixpoint count_items (ids : list PoolId) (c : Cache) (total_num_items : Z) : res Z :=
  match ids with
  | [] => Ok total_num_items
  | pool_id :: ids' =>
      p ← getPoolStats pool_id c;
      count_items ids' c (to_int (total_num_items + Z.of_N (numItems p)))
  end.

(** The loop over the items, lines 138-147. *)
Fixpoint scan_items (weight_dim : Z) (els : nat) (items : list Item) (item_idx : Z)
    (indices weights : list byte) : res (Z * list byte * list byte) :=
  match items with
  | [] => Ok (item_idx, indices, weights)
  | itr :: items' =>
      '(indices', weights') ← copy_item item_idx weight_dim els itr indices weights;
      scan_items weight_dim els items' (to_int64 (item_idx + 1)) indices' weights'
  end.

(** [get_all_items] from line 125 on, given the count the first loop arrived
    at and the items the iterator yields. *)
Definition export_items (config : CacheConfig) (total_num_items : Z) (items : list Item)
  : res (Tensor * Tensor * Tensor) :=
  let weight_dim := max_D_ config in
  width ← cdiv (item_size_bytes config) weight_dim;
  weights_dtype ← bytes_to_dtype (to_int width);
  indices ← at_empty [total_num_items] kLong;
  weights ← at_empty [total_num_items; weight_dim] weights_dtype;
  if dispatch_case (scalar_type weights) then
    indices_data ← data_ptr kLong indices;
    weights_data ← data_ptr (scalar_type weights) weights;
    '(item_idx, indices_data', weights_data') ←
      scan_items weight_dim (elementSize (scalar_type weights)) items 0
        indices_data weights_data;
    if decide (total_num_items = item_idx)
    then Ok (set_storage indices indices_data',
             set_storage weights weights_data',
             at_tensor_long total_num_items)
    else Fail (CheckFailed total_num_items item_idx)
  else Fail (Throw "get_all_items not implemented for the scalar type").

(** [get_all_items], lines 120-156. *)
Definition get_all_items (s : CacheLibCache) : res (Tensor * Tensor * Tensor) :=
  total_num_items ← count_items (pool_ids_ s) (cache_ s) 0;
  export_items (cache_config_ s) total_num_items (all_items (cache_ s)).

(** [init_tensor_for_l2_eviction], lines 158-171.  [count] is the number the
    one-element tensor [count] holds, as [count.item<long>()] reads it. *)
Definition init_tensor_for_l2_eviction (indices weights : Tensor) (count : Z)
    (s : CacheLibCache) : res CacheLibCache :=
  let num_lookups := to_int64 count in
  ind ← at_ones_times_minus_one num_lookups (scalar_type indices);
  weight_dim ← size weights 1;
  wts ← at_empty [num_lookups; weight_dim] (scalar_type weights);
  Ok (set_evicted s (Some ind) (Some wts)).

(** [reset_eviction_states], lines 173-175. *)
Definition reset_eviction_states (s : CacheLibCache) : CacheLibCache :=
  set_eviction_row_id s 0.

(** [get_evicted_indices_and_weights], lines 177-185. *)
Definition get_evicted_indices_and_weights (s : CacheLibCache)
  : res (option (Tensor * Tensor)) :=
  match evicted_indices_ptr_ s with
  | Some ind => wts ← deref (evicted_weights_ptr_ s); Ok (Some (ind, wts))
  | None => Ok None
  end.

(** [get_cache_usage], lines 187-195: free bytes and capacity. *)
Fixpoint free_bytes (ids : list PoolId) (c : Cache) (acc : Z) : res Z :=
  match ids with
  | [] => Ok acc
  | pool_id :: ids' =>
      pool_stats ← getPoolStats pool_id c;
      free_bytes ids' c (to_int64 (acc + Z.of_N (freeMemoryBytes pool_stats)))
  end.

Definition get_cache_usage (s : CacheLibCache) : res (list Z) :=
  free ← free_bytes (pool_ids_ s) (cache_ s) 0;
  Ok [free; to_int64 (Z.of_N (cache_size_bytes (cache_config_ s)))].

End Engine.

(** ** Predicates the theorems are stated with *)

(** The pool identifiers the engine holds are those of the pools of its
    allocator, in the order the constructor created them. *)
Definition wf (s : CacheLibCache) : Prop :=
  pool_ids_ s = seq 0 (length (pools (cache_ s))).

(** The items of the removals that are evictions. *)
Definition evicted_items (evs : list RemoveCbData) : list Item :=
  item <$> filter (fun d => context d = kEviction) evs.

(** The key of an item, as the callback and [get_all_items] read it. *)
Definition item_key (it : Item) : Z :=
  to_int64 (little_endian_to_Z 8 (take 8 (getKey it))).

(** An item as [put] stores it when the row has [n] bytes. *)
Definition row_item (n : nat) (it : Item) : Prop :=
  length (getKey it) = 8%nat /\ length (getMemory it) = n.

(** The bytes of a tensor, as [memcpy] reads them. *)
Definition tensor_bytes (t : Tensor) : list byte := take (nbytes t) (storage t).

(** The free bytes of a list of pools, together. *)
Definition free_total (ps : list Pool) : N :=
  foldr (fun p acc => (freeMemoryBytes p + acc)%N) 0%N ps.

(** The slots of a buffer of keys that do not hold the sentinel. *)
Definition non_sentinel (keys : list Z) : list Z :=
  filter (fun k => k ≠ -1) keys.

Definition set_config (s : CacheLibCache) (config : CacheConfig) : CacheLibCache :=
  mkCacheLibCache config (cache_ s) (pool_ids_ s) (evicted_indices_ptr_ s)
    (evicted_weights_ptr_ s) (eviction_row_id s) (xlog s).

(** What the capture buffers hold once the items [its] have been copied
    into consecutive slots: their keys, and the first [n] bytes of each row. *)
Definition captured_keys (its : list Item) : list byte :=
  mjoin ((fun it => key_str (item_key it)) <$> its).

Definition captured_rows (n : nat) (its : list Item) : list byte :=
  mjoin ((fun it => take n (getMemory it)) <$> its).

(** Two engines with the same capture buffers and the same cursor. *)
Definition same_capture (s t : CacheLibCache) : Prop :=
  evicted_indices_ptr_ s = evicted_indices_ptr_ t /\
  evicted_weights_ptr_ s = evicted_weights_ptr_ t /\
  eviction_row_id s = eviction_row_id t.

(** The engines a program can arrive at: it constructs one, and then calls
    [put] with rows of [n] bytes, [get], and the two functions that arm. *)
Inductive reachable {platform : Platform} (config : CacheConfig) (n : nat)
  : CacheLibCache -> Prop :=
  | reach_new s :
      CacheLibCache_new config = Ok s -> reachable config n s
  | reach_put s key data ok s' :
      reachable config n s -> nbytes data = n -> put key data s = Ok (ok, s') ->
      reachable config n s'
  | reach_get s key :
      reachable config n s -> reachable config n (get key s).2
  | reach_init s indices weights count s' :
      reachable config n s ->
      init_tensor_for_l2_eviction indices weights count s = Ok s' ->
      reachable config n s'
  | reach_reset s :
      reachable config n s -> reachable config n (reset_eviction_states s).

(** ** Concrete platforms, configurations and rows

    They serve to run the engine on examples. *)

(** Modelled from the spec: the shard of a key is a pure function of the key
    into the range of the shards (section 4.2); the macro has the cases its
    name lists.  The allocator reports all the memory it was configured with
    as usable, and fresh storage holds zeros. *)
Definition plain_platform : Platform := {|
  hash_shard := fun key n => Z.to_nat (key `mod` Z.of_nat n);
  dispatch_case := fun t =>
    match t with
    | kFloat | kHalf | kByte => true
    | kDouble | kLong => false
    end;
  ram_cache_size := fun sz => Some sz;
  uninit := fun _ => 0
|}.

(** As [plain_platform], with an allocator that hands out memory in whole
    slabs of 4 MiB: what is left over of the configured size is not usable. *)
Definition slab_platform : Platform := {|
  hash_shard := fun key n => Z.to_nat (key `mod` Z.of_nat n);
  dispatch_case := fun t =>
    match t with
    | kFloat | kHalf | kByte => true
    | kDouble | kLong => false
    end;
  ram_cache_size := fun sz => Some (4194304 * (sz / 4194304))%N;
  uninit := fun _ => 0
|}.

(** One shard of 24 bytes for rows of one [float]: room for two items of
    eight bytes of key and four bytes of row. *)
Definition small_config : CacheConfig := mkCacheConfig 24 4 1 1.

(** Two shards, ten MiB in all. *)
Definition two_shard_config : CacheConfig := mkCacheConfig 10485760 4 2 1.

(** Rows of three bytes each: no element type has that width. *)
Definition odd_config : CacheConfig := mkCacheConfig 24 3 1 1.

(** A row of one [float], given by its four bytes. *)
Definition float_row (b0 b1 b2 b3 : byte) : Tensor := mkTensor kFloat [1] [b0; b1; b2; b3].

(** A row of two [float]s. *)
Definition wide_row : Tensor := mkTensor kFloat [2] [1; 2; 3; 4; 5; 6; 7; 8].

(** A row too large for a shard of 24 bytes. *)
Definition huge_row : Tensor := mkTensor kByte [32] (replicate 32 7).

(** The tensors the caller passes to arm the engine: keys of [int64_t] and
    rows of one [float]. *)
Definition lookup_indices : Tensor := mkTensor kLong [0] [].
Definition lookup_weights : Tensor := mkTensor kFloat [0; 1] [].

(** The value a call returned, or [d] when it did not return. *)
Definition res_get {A} (d : A) (m : res A) : A :=
  match m with Ok a => a | Fail _ => d end.

(** The engine built from [small_config], and the same engine armed for two
    evictions. *)
Definition small_engine : CacheLibCache :=
  Eval vm_compute in
    res_get (mkCacheLibCache small_config (mkCache 0 []) [] None None 0 [])
      (@CacheLibCache_new plain_platform small_config).

Definition small_armed : CacheLibCache :=
  Eval vm_compute in
    res_get small_engine
      (@init_tensor_for_l2_eviction plain_platform lookup_indices lookup_weights 2
         (reset_eviction_states small_engine)).

(** Three rows for a shard that holds two: the third [put] evicts the row
    that was stored first. *)
Definition row_batch : list (Z * Tensor) :=
  [(1, float_row 1 2 3 4); (2, float_row 5 6 7 8); (3, float_row 9 9 9 9)].

Definition row_cycle : list bool * list RemoveCbData * CacheLibCache :=
  Eval vm_compute in
    res_get ([], [], small_armed) (@put_all plain_platform row_batch small_armed).

(** The same with -1 as the key of the first row. *)
Definition sentinel_batch : list (Z * Tensor) :=
  [(-1, float_row 1 2 3 4); (2, float_row 5 6 7 8); (3, float_row 9 9 9 9)].

Definition sentinel_cycle : list bool * list RemoveCbData * CacheLibCache :=
  Eval vm_compute in
    res_get ([], [], small_armed) (@put_all plain_platform sentinel_batch small_armed).

(** Two shards and 1024 bytes for rows of one [double], and two such rows. *)
Definition double_config : CacheConfig := mkCacheConfig 1024 8 2 1.

Definition double_row (bs : list byte) : Tensor := mkTensor kDouble [1] bs.

Definition pi_row : Tensor := double_row [31; 133; 235; 81; 184; 30; 9; 64].
Definition e_row : Tensor := double_row [174; 71; 225; 122; 20; 174; 5; 64].

(** A cache without shards. *)
Definition no_shard_config : CacheConfig := mkCacheConfig 1024 4 0 1.

Definition no_shard_engine : CacheLibCache :=
  Eval vm_compute in
    res_get (mkCacheLibCache no_shard_config (mkCache 0 []) [] None None 0 [])
      (@CacheLibCache_new plain_platform no_shard_config).

(** The engine for two shards of [double_config]. *)
Definition double_engine : CacheLibCache :=
  Eval vm_compute in
    res_get (mkCacheLibCache double_config (mkCache 0 []) [] None None 0 [])
      (@CacheLibCache_new plain_platform double_config).

(** Four rows for a shard that holds two: two evictions. *)
Definition long_batch : list (Z * Tensor) :=
  [(1, float_row 1 2 3 4); (2, float_row 5 6 7 8); (3, float_row 9 9 9 9);
   (4, float_row 7 7 7 7)].

(** [small_engine] armed for one eviction only. *)
Definition one_slot_armed : CacheLibCache :=
  Eval vm_compute in
    res_get small_engine
      (@init_tensor_for_l2_eviction plain_platform lookup_indices lookup_weights 1
         (reset_eviction_states small_engine)).

(** The removals of [long_batch]: the rows of the keys 1 and 2 are evicted. *)
Definition long_trace : list RemoveCbData :=
  [mkRemoveCbData kEviction (mkItem (key_str 1) [1; 2; 3; 4]);
   mkRemoveCbData kEviction (mkItem (key_str 2) [5; 6; 7; 8])].

(** Index tensors of another type than [int64_t]. *)
Definition byte_indices : Tensor := mkTensor kByte [0] [].

(** [small_armed] after the first two rows of [row_batch]: the shard is full. *)
Definition two_row_armed : CacheLibCache :=
  Eval vm_compute in
    res_get small_armed
      ((fun r => r.2) <$> @put_all plain_platform (take 2 row_batch) small_armed).

(** The engine for two shards on the allocator that hands out slabs. *)
Definition slab_engine : CacheLibCache :=
  Eval vm_compute in
    res_get (mkCacheLibCache two_shard_config (mkCache 0 []) [] None None 0 [])
      (@CacheLibCache_new slab_platform two_shard_config).

(** A configuration with rows of no element, and its engine. *)
Definition zero_dim_config : CacheConfig := mkCacheConfig 24 4 1 0.

Definition zero_dim_engine : CacheLibCache :=
  Eval vm_compute in
    res_get (mkCacheLibCache zero_dim_config (mkCache 0 []) [] None None 0 [])
      (@CacheLibCache_new plain_platform zero_dim_config).

(** [two_row_armed] after a [get] of key 1, the row stored first. *)
Definition two_row_read : CacheLibCache :=
  Eval vm_compute in (get 1 two_row_armed).2.

(** A second row for key 1. *)
Definition replace_batch : list (Z * Tensor) :=
  [(1, float_row 1 2 3 4); (1, float_row 5 6 7 8)].

(** [small_engine] after one [put]. *)
Definition one_row_engine : CacheLibCache :=
  Eval vm_compute in
    res_get small_engine
      ((fun r => r.2) <$> @put plain_platform 1 (float_row 1 2 3 4) small_engine).

(** A row of one half-precision element, two bytes, and the engine
    configured for rows of four bytes after that row was stored in it. *)
Definition short_row : Tensor := mkTensor kHalf [1] [1; 2].

Definition short_row_engine : CacheLibCache :=
  Eval vm_compute in
    res_get small_engine
      ((fun r => r.2) <$> @put plain_platform 5 short_row small_engine).

(** ** Theorems *)

Lemma bind_Ok {A B} (a : A) (k : A -> res B) : (Ok a ≫= k) = k a.
Proof. reflexivity. Qed.

Lemma Ok_inj {A} (a b : A) : Ok a = Ok b -> a = b.
Proof. intros [= ->]. reflexivity. Qed.

(** Inversion of a computation that returned: each step returned. *)
Ltac bind_inv H :=
  repeat match type of H with
  | (?m ≫= _) = Ok _ =>
      let E := fresh "E" in
      destruct m eqn:E; [rewrite bind_Ok in H; cbv beta in H | discriminate H]
  | (let '(_, _) := ?p in _) = _ => destruct p
  end.

(** *** Integers and memory *)

Lemma to_int64_id (z : Z) : int64_range z -> to_int64 z = z.
Proof.
  unfold int64_range, to_int64, to_signed. intros Hz.
  rewrite Z.mod_small; lia.
Qed.

Lemma to_int_id (z : Z) : int_range z -> to_int z = z.
Proof.
  unfold int_range, to_int, to_signed. intros Hz.
  rewrite Z.mod_small; lia.
Qed.

Lemma to_int64_range (z : Z) : int64_range (to_int64 z).
Proof.
  unfold int64_range, to_int64, to_signed.
  pose proof (Z.mod_pos_bound (z + 2 ^ (64 - 1)) (2 ^ 64)). lia.
Qed.

Lemma to_int64_mod (z : Z) : to_int64 (z `mod` 2 ^ 64) = to_int64 z.
Proof.
  unfold to_int64, to_signed. f_equal.
  rewrite Zplus_mod_idemp_l. reflexivity.
Qed.

Lemma mem_read_Ok (off : Z) (n : nat) (mem bs : list byte) :
  mem_read off n mem = Ok bs <->
  0 <= off /\ (Z.to_nat off + n <= length mem)%nat /\ bs = take n (drop (Z.to_nat off) mem).
Proof.
  unfold mem_read. destruct (decide (off < 0)).
  - split; [discriminate | lia].
  - destruct (sublist_lookup _ _ _) eqn:E.
    + apply sublist_lookup_Some' in E as [-> ?]. split.
      * intros [= <-]. split; [lia | split; [lia | reflexivity]].
      * intros (_ & _ & ->). reflexivity.
    + split; [discriminate |]. intros (_ & Hlen & _).
      rewrite sublist_lookup_Some in E by lia. discriminate.
Qed.

Lemma mem_read_prefix (n : nat) (mem : list byte) :
  (n <= length mem)%nat -> mem_read 0 n mem = Ok (take n mem).
Proof. intros. apply mem_read_Ok. simpl. split; [lia | split; [lia | reflexivity]]. Qed.

Lemma mem_read_short (n : nat) (mem : list byte) :
  (length mem < n)%nat -> mem_read 0 n mem = Fail OutOfBounds.
Proof.
  intros. unfold mem_read. simpl.
  rewrite sublist_lookup_None by (simpl; lia). reflexivity.
Qed.

Lemma mem_read_fail (off : Z) (n : nat) (mem : list byte) (f : failure) :
  mem_read off n mem = Fail f -> f = OutOfBounds.
Proof.
  unfold mem_read. destruct (decide _); [congruence |].
  destruct (sublist_lookup _ _ _); congruence.
Qed.

Lemma mem_write_fail (off : Z) (bs mem : list byte) (f : failure) :
  mem_write off bs mem = Fail f -> f = OutOfBounds.
Proof. unfold mem_write. repeat destruct (decide _); congruence. Qed.

Lemma mem_write_length (off : Z) (bs mem mem' : list byte) :
  mem_write off bs mem = Ok mem' ->
  length mem' = length mem /\ 0 <= off /\ (Z.to_nat off + length bs <= length mem)%nat.
Proof.
  unfold mem_write. repeat destruct (decide _); try discriminate.
  intros [= <-]. split; [| lia].
  unfold sublist_alter. rewrite !length_app, length_take, length_drop. lia.
Qed.

(** A write that replaces the bytes [old] between [pre] and [post]. *)
Lemma mem_write_middle (off : Z) (bs pre old post : list byte) :
  off = Z.of_nat (length pre) -> length old = length bs ->
  mem_write off bs (pre ++ old ++ post) = Ok (pre ++ bs ++ post).
Proof.
  intros -> Hlen. unfold mem_write.
  destruct (decide (Z.of_nat (length pre) < 0)); [lia |].
  rewrite Nat2Z.id.
  destruct (decide _) as [_ | Hno].
  - f_equal. unfold sublist_alter.
    rewrite take_app_length. f_equal. f_equal.
    rewrite drop_app_ge by lia.
    replace (length pre + length bs - length pre)%nat with (length old) by lia.
    apply drop_app_length.
  - rewrite !length_app in Hno. lia.
Qed.

(** *** Key codec *)

Lemma key_str_length (key : Z) : length (key_str key) = 8%nat.
Proof.
  unfold key_str.
  assert (H : Z.of_nat (length (Z_to_little_endian 8 8 key)) = 8)
    by (apply length_Z_to_little_endian; lia).
  lia.
Qed.

Lemma read_int64_key_str (key : Z) : read_int64 (key_str key) = Ok (to_int64 key).
Proof.
  unfold read_int64. rewrite mem_read_prefix by (rewrite key_str_length; lia).
  rewrite bind_Ok. f_equal.
  rewrite take_ge by (rewrite key_str_length; lia).
  unfold key_str. rewrite little_endian_to_Z_to_little_endian by lia.
  apply to_int64_mod.
Qed.

(** The engine reads back the key it was given. *)
Lemma read_int64_key_str_id (key : Z) :
  int64_range key -> read_int64 (key_str key) = Ok key.
Proof. intros. rewrite read_int64_key_str, to_int64_id; auto. Qed.

Lemma read_int64_item (key : list byte) :
  (8 <= length key)%nat ->
  read_int64 key = Ok (to_int64 (little_endian_to_Z 8 (take 8 key))).
Proof. intros. unfold read_int64. rewrite mem_read_prefix by lia. reflexivity. Qed.

Lemma read_int64_fail (key : list byte) (f : failure) :
  read_int64 key = Fail f -> f = OutOfBounds.
Proof.
  unfold read_int64. destruct (mem_read 0 8 key) eqn:E; simpl; [discriminate |].
  intros [= <-]. eapply mem_read_fail; eauto.
Qed.

Lemma int64_elems_app (bs rest : list byte) (n : nat) :
  length bs = 8%nat ->
  int64_elems (S n) (bs ++ rest) = to_int64 (little_endian_to_Z 8 bs) :: int64_elems n rest.
Proof.
  intros Hlen. simpl. rewrite take_app_length' by auto.
  rewrite drop_app_length' by auto. reflexivity.
Qed.

Lemma minus_one_long : to_int64 (little_endian_to_Z 8 (minus_one kLong)) = -1.
Proof. reflexivity. Qed.

Lemma int64_elems_sentinels (m : nat) (rest : list byte) :
  int64_elems m (mjoin (replicate m (minus_one kLong)) ++ rest) = replicate m (-1).
Proof.
  induction m as [| m IH]; [reflexivity |].
  change (mjoin (replicate (S m) (minus_one kLong)))
    with (minus_one kLong ++ mjoin (replicate m (minus_one kLong))).
  rewrite <- app_assoc, int64_elems_app by reflexivity.
  rewrite minus_one_long, IH. reflexivity.
Qed.

Lemma item_key_stored (it : Item) :
  to_int64 (little_endian_to_Z 8 (key_str (item_key it))) = item_key it.
Proof.
  unfold key_str. rewrite little_endian_to_Z_to_little_endian by lia.
  change (8 * 8) with 64. rewrite to_int64_mod.
  apply to_int64_id, to_int64_range.
Qed.

Lemma int64_elems_captured (its : list Item) (m : nat) (rest : list byte) :
  int64_elems (length its + m) (captured_keys its ++ rest)
  = (item_key <$> its) ++ int64_elems m rest.
Proof.
  induction its as [| it its IH]; [reflexivity |].
  change (captured_keys (it :: its)) with (key_str (item_key it) ++ captured_keys its).
  change (length (it :: its) + m)%nat with (S (length its + m)).
  rewrite <- app_assoc, int64_elems_app by apply key_str_length.
  rewrite item_key_stored, IH. reflexivity.
Qed.

Lemma captured_keys_length (its : list Item) :
  length (captured_keys its) = (8 * length its)%nat.
Proof.
  induction its as [| it its IH]; [reflexivity |].
  change (captured_keys (it :: its)) with (key_str (item_key it) ++ captured_keys its).
  rewrite length_app, key_str_length, IH. simpl. lia.
Qed.

Lemma captured_rows_length (n : nat) (its : list Item) :
  Forall (fun it => n <= length (getMemory it))%nat its ->
  length (captured_rows n its) = (length its * n)%nat.
Proof.
  induction 1 as [| it its Hit _ IH]; [reflexivity |].
  change (captured_rows n (it :: its))
    with (take n (getMemory it) ++ captured_rows n its).
  rewrite length_app, length_take, IH. simpl. lia.
Qed.

Lemma captured_rows_lookup (n : nat) (its : list Item) (i : nat) (it : Item)
    (rest : list byte) :
  Forall (fun it => n <= length (getMemory it))%nat its ->
  its !! i = Some it ->
  row_bytes n i (captured_rows n its ++ rest) = Some (take n (getMemory it)).
Proof.
  unfold row_bytes. intros Hall. revert i.
  induction Hall as [| it0 its Hit0 Hall IH]; intros i Hi; [discriminate |].
  change (captured_rows n (it0 :: its))
    with (take n (getMemory it0) ++ captured_rows n its).
  rewrite <- app_assoc.
  assert (Hlen : length (take n (getMemory it0)) = n) by (rewrite length_take; lia).
  destruct i as [| i].
  - injection Hi as ->. apply sublist_lookup_Some'. split.
    + rewrite drop_0, take_app_length'; auto.
    + rewrite length_app. lia.
  - specialize (IH i Hi). apply sublist_lookup_Some' in IH as [IH1 IH2].
    apply sublist_lookup_Some'. split.
    + replace (S i * n)%nat with (n + i * n)%nat by lia.
      rewrite <- drop_drop, drop_app_length'; auto.
    + rewrite length_app. lia.
Qed.

(** *** The removal callback *)

Section Callback.
Context {platform : Platform}.

(** The callback only touches the capture buffers and the cursor. *)
Lemma eviction_cb_frame (data : RemoveCbData) (s s' : CacheLibCache) :
  eviction_cb data s = Ok s' ->
  cache_ s' = cache_ s /\ pool_ids_ s' = pool_ids_ s /\
  cache_config_ s' = cache_config_ s /\ xlog s' = xlog s.
Proof.
  unfold eviction_cb. intros H. bind_inv H.
  destruct (dispatch_case _); [| discriminate].
  destruct (decide _); [| injection H as <-; auto].
  bind_inv H. injection H as <-. auto.
Qed.

Lemma run_callbacks_frame (evs : list RemoveCbData) (s s' : CacheLibCache) :
  run_callbacks evs s = Ok s' ->
  cache_ s' = cache_ s /\ pool_ids_ s' = pool_ids_ s /\
  cache_config_ s' = cache_config_ s /\ xlog s' = xlog s.
Proof.
  revert s. induction evs as [| d evs IH]; intros s H.
  - injection H as <-. auto.
  - cbn [run_callbacks] in H.
    destruct (eviction_cb d s) as [s1 |] eqn:E; [| discriminate].
    rewrite bind_Ok in H. apply IH in H. apply eviction_cb_frame in E.
    intuition congruence.
Qed.

End Callback.

Lemma evicted_items_nil : evicted_items [] = [].
Proof. reflexivity. Qed.

Lemma evicted_items_eviction (it : Item) (evs : list RemoveCbData) :
  evicted_items (mkRemoveCbData kEviction it :: evs) = it :: evicted_items evs.
Proof. unfold evicted_items. rewrite filter_cons_True by reflexivity. reflexivity. Qed.

Lemma evicted_items_normal (it : Item) (evs : list RemoveCbData) :
  evicted_items (mkRemoveCbData kNormal it :: evs) = evicted_items evs.
Proof. unfold evicted_items. rewrite filter_cons_False by discriminate. reflexivity. Qed.

Lemma evicted_items_app (evs evs' : list RemoveCbData) :
  evicted_items (evs ++ evs') = evicted_items evs ++ evicted_items evs'.
Proof. unfold evicted_items. rewrite filter_app, fmap_app. reflexivity. Qed.

Lemma evicted_items_none (its : list Item) :
  evicted_items (mkRemoveCbData kNormal <$> its) = [].
Proof.
  induction its as [| it its IH]; [reflexivity |].
  cbn [fmap list_fmap]. rewrite evicted_items_normal. apply IH.
Qed.

(** One item copied into slot [r] of buffers whose slots are [8] and [n]
    bytes wide. *)
Lemma copy_item_slot (r : nat) (D : Z) (els : nat) (it : Item)
    (pre_i old_i post_i pre_w old_w post_w : list byte) :
  0 <= D ->
  length pre_i = (8 * r)%nat -> length old_i = 8%nat ->
  length pre_w = (r * (Z.to_nat D * els))%nat -> length old_w = (Z.to_nat D * els)%nat ->
  (8 <= length (getKey it))%nat -> (Z.to_nat D * els <= length (getMemory it))%nat ->
  copy_item (Z.of_nat r) D els it (pre_i ++ old_i ++ post_i) (pre_w ++ old_w ++ post_w)
  = Ok (pre_i ++ key_str (item_key it) ++ post_i,
        pre_w ++ take (Z.to_nat D * els) (getMemory it) ++ post_w).
Proof.
  intros HD Hpi Hoi Hpw How Hkey Hmem. unfold copy_item.
  rewrite read_int64_item, bind_Ok by assumption.
  rewrite (mem_write_middle _ _ pre_i old_i post_i), bind_Ok;
    [| lia | rewrite key_str_length; assumption].
  rewrite mem_read_prefix, bind_Ok by assumption.
  rewrite (mem_write_middle _ _ pre_w old_w post_w), bind_Ok;
    [reflexivity | | rewrite length_take; lia].
  rewrite Hpw, !Nat2Z.inj_mul, Z2Nat.id by assumption. ring.
Qed.

Section Capture.
Context {platform : Platform}.

(** A removal that is not an eviction leaves an armed engine as it is. *)
Lemma eviction_cb_normal (it : Item) (s : CacheLibCache) (wts : Tensor) :
  evicted_weights_ptr_ s = Some wts -> dispatch_case (scalar_type wts) = true ->
  eviction_cb (mkRemoveCbData kNormal it) s = Ok s.
Proof.
  intros Hw Hd. unfold eviction_cb. rewrite Hw. cbn [deref]. rewrite bind_Ok, Hd.
  reflexivity.
Qed.

(** An eviction, once the copy into the slot under the cursor is known. *)
Lemma eviction_cb_eviction (it : Item) (s : CacheLibCache) (ind wts : Tensor) (D : Z)
    (ind' wts' : list byte) :
  evicted_indices_ptr_ s = Some ind -> evicted_weights_ptr_ s = Some wts ->
  scalar_type ind = kLong -> dispatch_case (scalar_type wts) = true ->
  sizes wts !! 1%nat = Some D ->
  copy_item (eviction_row_id s) D (elementSize (scalar_type wts)) it
    (storage ind) (storage wts) = Ok (ind', wts') ->
  eviction_cb (mkRemoveCbData kEviction it) s
  = Ok (set_evicted (set_eviction_row_id s (to_int64 (eviction_row_id s + 1)))
          (Some (set_storage ind ind')) (Some (set_storage wts wts'))).
Proof.
  intros Hi Hw Hl Hd HD Hcopy. unfold eviction_cb.
  rewrite Hw. cbn [deref]. rewrite bind_Ok, Hd.
  cbn [context item]. rewrite decide_True by reflexivity.
  rewrite Hi. cbn [deref]. rewrite bind_Ok.
  unfold data_ptr, size. rewrite !decide_True by auto. rewrite !bind_Ok.
  rewrite HD, bind_Ok, Hcopy, bind_Ok. reflexivity.
Qed.

(** The callback run over the removals of a cycle: the evicted items fill
    the slots from the cursor on, in the order of their eviction, and the
    other removals leave no trace. *)
Lemma run_callbacks_capture (evs : list RemoveCbData) :
  forall (cfg : CacheConfig) (c : Cache) (ids : list PoolId) (szi szw : list Z)
         (dt : ScalarType) (lg : list string) (r : nat)
         (done_i rest_i done_w rest_w : list byte) (D : Z),
    dispatch_case dt = true -> szw !! 1%nat = Some D -> 0 <= D ->
    length done_i = (8 * r)%nat ->
    length done_w = (r * (Z.to_nat D * elementSize dt))%nat ->
    (8 * length (evicted_items evs) <= length rest_i)%nat ->
    (length (evicted_items evs) * (Z.to_nat D * elementSize dt) <= length rest_w)%nat ->
    Forall (fun it => (8 <= length (getKey it))%nat /\
                      (Z.to_nat D * elementSize dt <= length (getMemory it))%nat)
           (evicted_items evs) ->
    Z.of_nat (r + length (evicted_items evs)) < 2 ^ 63 ->
    run_callbacks evs
      (mkCacheLibCache cfg c ids (Some (mkTensor kLong szi (done_i ++ rest_i)))
         (Some (mkTensor dt szw (done_w ++ rest_w))) (Z.of_nat r) lg)
    = Ok (mkCacheLibCache cfg c ids
            (Some (mkTensor kLong szi
               (done_i ++ captured_keys (evicted_items evs)
                       ++ drop (8 * length (evicted_items evs)) rest_i)))
            (Some (mkTensor dt szw
               (done_w ++ captured_rows (Z.to_nat D * elementSize dt) (evicted_items evs)
                       ++ drop (length (evicted_items evs) * (Z.to_nat D * elementSize dt))
                            rest_w)))
            (Z.of_nat (r + length (evicted_items evs))) lg).
Proof.
  induction evs as [| [ctx it] evs IH];
    intros cfg c ids szi szw dt lg r done_i rest_i done_w rest_w D Hd HD HD0 Hdi Hdw Hri Hrw Hall Hr.
  - rewrite evicted_items_nil. cbn [run_callbacks length captured_keys captured_rows
      fmap list_fmap mjoin list_join app].
    rewrite Nat.mul_0_r, Nat.mul_0_l, !drop_0, Nat.add_0_r. reflexivity.
  - destruct ctx.
    + rewrite evicted_items_normal in *. cbn [run_callbacks].
      erewrite eviction_cb_normal, bind_Ok by (cbn; eauto).
      apply IH; assumption.
    + rewrite evicted_items_eviction in *.
      apply Forall_cons in Hall as [[Hkey Hmem] Hall].
      cbn [length] in *. set (n := (Z.to_nat D * elementSize dt)%nat) in *.
      cbn [run_callbacks].
      rewrite <- (take_drop 8 rest_i), <- (take_drop n rest_w).
      erewrite eviction_cb_eviction;
        [| reflexivity | reflexivity | reflexivity | exact Hd | exact HD
         | cbn [eviction_row_id scalar_type storage]; apply copy_item_slot;
           [assumption | assumption | rewrite length_take; lia | assumption
           | rewrite length_take; lia | assumption | assumption]].
      rewrite bind_Ok.
      unfold set_evicted, set_eviction_row_id, set_storage.
      cbn [cache_config_ cache_ pool_ids_ xlog eviction_row_id scalar_type sizes].
      rewrite to_int64_id by (unfold int64_range; lia).
      replace (Z.of_nat r + 1) with (Z.of_nat (S r)) by lia.
      rewrite !(app_assoc done_i), !(app_assoc done_w).
      rewrite (IH _ _ _ _ _ _ _ _ _ _ _ _ D); try assumption.
      * rewrite !take_drop.
        change (captured_keys (it :: evicted_items evs))
          with (key_str (item_key it) ++ captured_keys (evicted_items evs)).
        change (captured_rows n (it :: evicted_items evs))
          with (take n (getMemory it) ++ captured_rows n (evicted_items evs)).
        rewrite <- !app_assoc, !drop_drop. fold n.
        repeat (f_equal; try lia).
      * rewrite length_app, key_str_length. lia.
      * rewrite length_app, length_take. fold n. lia.
      * rewrite length_drop. lia.
      * rewrite length_drop. fold n. lia.
      * lia.
Qed.

End Capture.

Section Batch.
Context {platform : Platform}.

Lemma same_capture_refl (s : CacheLibCache) : same_capture s s.
Proof. unfold same_capture. auto. Qed.

Lemma same_capture_trans (s t u : CacheLibCache) :
  same_capture s t -> same_capture t u -> same_capture s u.
Proof. unfold same_capture. intuition congruence. Qed.

Lemma same_capture_sym (s t : CacheLibCache) : same_capture s t -> same_capture t s.
Proof. unfold same_capture. intuition congruence. Qed.

Lemma eviction_cb_same_capture (data : RemoveCbData) (s t s' : CacheLibCache) :
  same_capture s t -> eviction_cb data s = Ok s' ->
  exists t', eviction_cb data t = Ok t' /\ same_capture s' t'.
Proof.
  intros (Hi & Hw & Hr) H. unfold eviction_cb in *.
  rewrite <- Hi, <- Hw, <- Hr.
  destruct (deref (evicted_weights_ptr_ s)) as [wts |]; [| discriminate].
  cbn [mbind res_bind] in *.
  destruct (dispatch_case _); [| discriminate].
  destruct (decide _).
  - repeat match type of H with
    | (?m ≫= _) = Ok _ => destruct m; [cbn [mbind res_bind] in * | discriminate H]
    | (let '(_, _) := ?p in _) = _ => destruct p
    end.
    injection H as <-. eexists. split; [reflexivity |].
    unfold same_capture. cbn. auto.
  - injection H as <-. eexists. split; [reflexivity |].
    unfold same_capture. auto.
Qed.

Lemma run_callbacks_same_capture (evs : list RemoveCbData) (s t s' : CacheLibCache) :
  same_capture s t -> run_callbacks evs s = Ok s' ->
  exists t', run_callbacks evs t = Ok t' /\ same_capture s' t'.
Proof.
  revert s t. induction evs as [| d evs IH]; intros s t Hst H.
  - injection H as <-. exists t. split; [reflexivity | assumption].
  - cbn [run_callbacks] in *. bind_inv H.
    destruct (eviction_cb_same_capture _ _ _ _ Hst E) as (t1 & -> & H1).
    rewrite bind_Ok. eapply IH; eauto.
Qed.

Lemma run_callbacks_app (evs evs' : list RemoveCbData) (s : CacheLibCache) :
  run_callbacks (evs ++ evs') s = (run_callbacks evs s ≫= run_callbacks evs').
Proof.
  revert s. induction evs as [| d evs IH]; intros s; [reflexivity |].
  cbn [app run_callbacks]. destruct (eviction_cb d s) as [s1 |]; [| reflexivity].
  rewrite !bind_Ok. apply IH.
Qed.

(** The steps of a [put] that returned. *)
Lemma put_traced_inv (key : Z) (data : Tensor) (s : CacheLibCache)
    (r : bool * list RemoveCbData * CacheLibCache) :
  put_traced key data s = Ok r ->
  exists (pid : PoolId) (evs : list RemoveCbData) (h : option Handle) (c : Cache)
         (s1 : CacheLibCache),
    get_pool_id key s = Ok pid /\
    allocate pid (key_str key) (nbytes data) (cache_ s) = Ok (evs, h, c) /\
    run_callbacks evs (set_cache s c) = Ok s1 /\
    match h with
    | None => r = (false, evs, add_xlog s1 (alloc_failed_msg key))
    | Some h =>
        exists (bytes : list byte) (s2 : CacheLibCache),
          mem_read 0 (nbytes data) (storage data) = Ok bytes /\
          let ins := insertOrReplace (hPool h) (mkItem (hKey h) bytes) (cache_ s1) in
          run_callbacks ins.1 (set_cache s1 ins.2) = Ok s2 /\
          r = (true, evs ++ ins.1, s2)
    end.
Proof.
  unfold put_traced. intros H.
  destruct (get_pool_id key s) as [pid |] eqn:Epid; [rewrite bind_Ok in H | discriminate].
  destruct (allocate _ _ _ _) as [[[evs h] c] |] eqn:Ealloc;
    [rewrite bind_Ok in H | discriminate].
  destruct (run_callbacks evs _) as [s1 |] eqn:E1; [rewrite bind_Ok in H | discriminate].
  exists pid, evs, h, c, s1.
  split; [reflexivity |]. split; [assumption |]. split; [assumption |].
  destruct h as [h |].
  - destruct (mem_read _ _ _) as [bytes |]; [rewrite bind_Ok in H | discriminate].
    destruct (insertOrReplace _ _ _) as [evs2 c2] eqn:Eins.
    destruct (run_callbacks evs2 _) as [s2 |] eqn:E2; [rewrite bind_Ok in H | discriminate].
    injection H as <-. exists bytes, s2. rewrite Eins. cbn [fst snd]. auto.
  - injection H as <-. reflexivity.
Qed.

(** What [put] does to the capture buffers is what the callback does on the
    removals of that [put]. *)
Lemma put_traced_callbacks (key : Z) (data : Tensor) (s s' : CacheLibCache)
    (ok : bool) (evs : list RemoveCbData) :
  put_traced key data s = Ok (ok, evs, s') ->
  exists t, run_callbacks evs s = Ok t /\ same_capture t s'.
Proof.
  intros H. apply put_traced_inv in H as (pid & evs1 & h & c & s1 & _ & _ & Hcb1 & H).
  destruct (run_callbacks_same_capture evs1 (set_cache s c) s s1) as (t1 & Ht1 & Hc1);
    [unfold same_capture; auto | assumption |].
  destruct h as [h |].
  - destruct H as (bytes & s2 & _ & Hcb2 & [= -> -> ->]).
    destruct (run_callbacks_same_capture _ (set_cache s1 _) t1 _ Hc1 Hcb2)
      as (t2 & Ht2 & Hc2).
    exists t2. split; [| apply same_capture_sym; assumption].
    rewrite run_callbacks_app, Ht1, bind_Ok. assumption.
  - injection H as -> -> ->. exists t1. split; [assumption |].
    apply same_capture_sym. apply Hc1.
Qed.

Lemma put_all_callbacks (batch : list (Z * Tensor)) (s s' : CacheLibCache)
    (oks : list bool) (evs : list RemoveCbData) :
  put_all batch s = Ok (oks, evs, s') ->
  exists t, run_callbacks evs s = Ok t /\ same_capture t s'.
Proof.
  revert s oks evs. induction batch as [| [key data] batch IH]; intros s oks evs H.
  - injection H as <- <- <-. exists s. split; [reflexivity | apply same_capture_refl].
  - cbn [put_all] in H.
    destruct (put_traced key data s) as [[[ok evs1] s1] |] eqn:E1;
      [rewrite bind_Ok in H | discriminate].
    destruct (put_all batch s1) as [[[oks2 evs2] s2] |] eqn:E2;
      [rewrite bind_Ok in H | discriminate].
    injection H as <- <- <-.
    destruct (put_traced_callbacks _ _ _ _ _ _ E1) as (t1 & Ht1 & Hc1).
    destruct (IH _ _ _ E2) as (t2 & Ht2 & Hc2).
    destruct (run_callbacks_same_capture _ _ _ _ (same_capture_sym _ _ Hc1) Ht2)
      as (t3 & Ht3 & Hc3).
    exists t3. split.
    + rewrite run_callbacks_app, Ht1, bind_Ok. assumption.
    + eapply same_capture_trans; [apply same_capture_sym; eassumption | assumption].
Qed.

End Batch.

(** *** The allocator *)

Lemma elem_of_insert_inv {A} (l : list A) (i : nat) (x y : A) :
  y ∈ <[i := x]> l -> y = x \/ y ∈ l.
Proof.
  intros [j Hj]%list_elem_of_lookup.
  apply list_lookup_insert_Some in Hj as [(-> & -> & _) | (_ & Hj)]; [auto |].
  right. eapply list_elem_of_lookup_2; eauto.
Qed.

Lemma elem_of_alter_inv {A} (f : A -> A) (l : list A) (i : nat) (y : A) :
  y ∈ alter f i l -> (exists z, z ∈ l /\ y = f z) \/ y ∈ l.
Proof.
  intros [j Hj]%list_elem_of_lookup.
  destruct (decide (i = j)) as [-> | Hne].
  - rewrite list_lookup_alter_eq in Hj.
    destruct (l !! j) as [z |] eqn:Hz; [| discriminate].
    injection Hj as <-. left. exists z. split; [| reflexivity].
    eapply list_elem_of_lookup_2; eauto.
  - rewrite list_lookup_alter_ne in Hj by assumption.
    right. eapply list_elem_of_lookup_2; eauto.
Qed.

Lemma in_all_items (x : Item) (c : Cache) :
  x ∈ all_items c <-> exists p, p ∈ pools c /\ x ∈ poolItems p.
Proof.
  unfold all_items. rewrite list_elem_of_join. split.
  - intros (l & Hx & Hl). apply list_elem_of_fmap in Hl as (p & -> & Hp). eauto.
  - intros (p & Hp & Hx). exists (poolItems p). split; [assumption |].
    apply list_elem_of_fmap. eauto.
Qed.

Lemma evict_lru_split (budget : N) (l victims kept : list Item) :
  evict_lru budget l = (victims, kept) -> l = victims ++ kept.
Proof.
  revert victims kept. induction l as [| it l IH]; intros victims kept H.
  - injection H as <- <-. reflexivity.
  - cbn [evict_lru] in H. destruct (decide _).
    + injection H as <- <-. reflexivity.
    + destruct (evict_lru budget l) as [v k]. injection H as <- <-.
      cbn [app]. f_equal. apply IH. reflexivity.
Qed.

(** What [allocate] returns: nothing at all when the item is larger than the
    pool, and else a handle, after the eviction of the least recently used
    items of the pool. *)
Lemma allocate_inv (pid : PoolId) (key : list byte) (sz : nat) (c c' : Cache)
    (evs : list RemoveCbData) (h : option Handle) :
  allocate pid key sz c = Ok (evs, h, c') ->
  exists p, pools c !! pid = Some p /\
    ((poolSize p < itemSize (length key) sz)%N /\ evs = [] /\ h = None /\ c' = c \/
     exists victims kept,
       reverse (poolItems p) = victims ++ kept /\
       evs = mkRemoveCbData kEviction <$> victims /\
       h = Some (mkHandle pid key sz) /\
       c' = set_pools c (<[pid := set_items p (reverse kept)]> (pools c))).
Proof.
  unfold allocate. intros H.
  destruct (pools c !! pid) as [p |] eqn:Hp; [| discriminate].
  exists p. split; [reflexivity |].
  destruct (decide _).
  - injection H as <- <- <-. left. auto.
  - destruct (evict_lru _ _) as [victims kept] eqn:Ev.
    injection H as <- <- <-. right. exists victims, kept.
    apply evict_lru_split in Ev. auto.
Qed.

Lemma allocate_pools_length (pid : PoolId) (key : list byte) (sz : nat) (c c' : Cache)
    (evs : list RemoveCbData) (h : option Handle) :
  allocate pid key sz c = Ok (evs, h, c') -> length (pools c') = length (pools c).
Proof.
  intros H. apply allocate_inv in H as (p & Hp & [(_ & _ & _ & ->) | (v & k & _ & _ & _ & ->)]).
  - reflexivity.
  - cbn [pools set_pools]. apply length_insert.
Qed.

Lemma allocate_handle (pid : PoolId) (key : list byte) (sz : nat) (c c' : Cache)
    (evs : list RemoveCbData) (h : Handle) :
  allocate pid key sz c = Ok (evs, Some h, c') ->
  h = mkHandle pid key sz /\ (pid < length (pools c'))%nat.
Proof.
  intros H. pose proof (allocate_pools_length _ _ _ _ _ _ _ H) as Hlen.
  apply allocate_inv in H as (p & Hp & [(_ & _ & [=] & _) | (v & k & _ & _ & [= ->] & _)]).
  split; [reflexivity |]. rewrite Hlen. eapply lookup_lt_Some; eauto.
Qed.

(** [allocate] brings no item into the cache, and reports only items that
    were in it. *)
Lemma allocate_items (pid : PoolId) (key : list byte) (sz : nat) (c c' : Cache)
    (evs : list RemoveCbData) (h : option Handle) :
  allocate pid key sz c = Ok (evs, h, c') ->
  (forall x, x ∈ item <$> evs -> x ∈ all_items c) /\
  (forall x, x ∈ all_items c' -> x ∈ all_items c).
Proof.
  intros H.
  apply allocate_inv in H as (p & Hp & [(_ & -> & _ & ->) | (v & k & Hvk & -> & _ & ->)]).
  - split; [| auto]. intros x Hx. cbn in Hx. inversion Hx.
  - assert (Hsub : forall x, x ∈ v ++ k -> x ∈ all_items c).
    { intros x Hx. rewrite <- Hvk in Hx. rewrite elem_of_reverse in Hx.
      apply in_all_items. exists p. split; [| assumption].
      eapply list_elem_of_lookup_2; eauto. }
    split.
    + intros x Hx. apply Hsub, elem_of_app. left.
      rewrite <- list_fmap_compose in Hx.
      apply list_elem_of_fmap in Hx as (y & -> & Hy). exact Hy.
    + intros x Hx. apply in_all_items in Hx as (q & Hq & Hx).
      cbn [pools set_pools] in Hq. apply elem_of_insert_inv in Hq as [-> | Hq].
      * cbn [poolItems set_items] in Hx. rewrite elem_of_reverse in Hx.
        apply Hsub, elem_of_app. auto.
      * apply in_all_items. eauto.
Qed.

Lemma insertOrReplace_pools_length (pid : PoolId) (it : Item) (c : Cache) :
  length (pools (insertOrReplace pid it c).2) = length (pools c).
Proof.
  unfold insertOrReplace. cbn [snd pools set_pools].
  rewrite length_alter, length_fmap. reflexivity.
Qed.

(** [insertOrReplace] brings in the one item it is given, and reports only
    items that were in the cache, none of them as evicted. *)
Lemma insertOrReplace_items (pid : PoolId) (it : Item) (c : Cache) :
  evicted_items (insertOrReplace pid it c).1 = [] /\
  (forall x, x ∈ item <$> (insertOrReplace pid it c).1 -> x ∈ all_items c) /\
  (forall x, x ∈ all_items (insertOrReplace pid it c).2 -> x = it \/ x ∈ all_items c).
Proof.
  unfold insertOrReplace. cbn [fst snd]. split; [apply evicted_items_none |]. split.
  - intros x Hx. rewrite <- list_fmap_compose in Hx.
    apply list_elem_of_fmap in Hx as (y & -> & Hy). cbn.
    unfold with_key in Hy. apply list_elem_of_join in Hy as (l & Hy & Hl).
    apply list_elem_of_fmap in Hl as (p & -> & Hp).
    apply list_elem_of_filter in Hy as [_ Hy]. apply in_all_items. eauto.
  - intros x Hx. apply in_all_items in Hx as (q & Hq & Hx).
    cbn [pools set_pools] in Hq.
    assert (Hwk : forall p, p ∈ without_key (getKey it) <$> pools c ->
                  forall y, y ∈ poolItems p -> y ∈ all_items c).
    { intros p Hp y Hy. apply list_elem_of_fmap in Hp as (p0 & -> & Hp0).
      cbn [without_key poolItems set_items] in Hy.
      apply list_elem_of_filter in Hy as [_ Hy]. apply in_all_items. eauto. }
    apply elem_of_alter_inv in Hq as [(z & Hz & ->) | Hq].
    + cbn [push_item poolItems set_items] in Hx.
      apply elem_of_cons in Hx as [-> | Hx]; [auto |]. right. eapply Hwk; eauto.
    + right. eapply Hwk; eauto.
Qed.

Lemma take_item_without (key : list byte) (l : list Item) :
  take_item key (filter (fun it => has_key key it = false) l) = None.
Proof.
  induction l as [| it l IH]; [reflexivity |].
  destruct (has_key key it) eqn:Hk.
  - rewrite filter_cons_False by (rewrite Hk; discriminate). apply IH.
  - rewrite filter_cons_True by assumption.
    cbn [take_item]. rewrite Hk, IH. reflexivity.
Qed.

(** After [insertOrReplace], [find] returns the item that was inserted. *)
Lemma find_pools_inserted (it : Item) (ps : list Pool) (pid : PoolId) :
  (pid < length ps)%nat ->
  find_pools (getKey it) (alter (push_item it) pid (without_key (getKey it) <$> ps))
  = Some (it, alter (push_item it) pid (without_key (getKey it) <$> ps)).
Proof.
  revert pid. induction ps as [| p ps IH]; intros pid Hpid; [cbn in Hpid; lia |].
  destruct pid as [| pid].
  - cbn [fmap list_fmap alter list_alter find_pools push_item poolItems set_items take_item].
    unfold has_key. rewrite bool_decide_eq_true_2 by reflexivity. reflexivity.
  - cbn [fmap list_fmap alter list_alter find_pools].
    cbn [without_key poolItems set_items]. rewrite take_item_without.
    cbn [length] in Hpid.
    change (list_alter (push_item it) pid (list_fmap _ _ (without_key (getKey it)) ps))
      with (alter (push_item it) pid (without_key (getKey it) <$> ps)).
    rewrite IH by lia. reflexivity.
Qed.

Lemma find_insertOrReplace (pid : PoolId) (it : Item) (c : Cache) :
  (pid < length (pools c))%nat ->
  find (getKey it) (insertOrReplace pid it c).2
  = (Some it, (insertOrReplace pid it c).2).
Proof.
  intros Hpid. unfold find, insertOrReplace. cbn [snd pools set_pools].
  rewrite find_pools_inserted by assumption. reflexivity.
Qed.

Lemma take_item_length (key : list byte) (l rest : list Item) (it : Item) :
  take_item key l = Some (it, rest) -> has_key key it = true /\ Permutation l (it :: rest).
Proof.
  revert rest. induction l as [| x l IH]; intros rest H; [discriminate |].
  cbn [take_item] in H. destruct (has_key key x) eqn:Hk.
  - injection H as <- <-. auto.
  - destruct (take_item key l) as [[y r] |]; [| discriminate].
    injection H as <- <-. destruct (IH r eq_refl) as [Hy Hperm]. split; [assumption |].
    rewrite Hperm. apply perm_swap.
Qed.

(** [find] keeps the items and the pools; it only changes their order. *)
Lemma find_pools_shape (key : list byte) (ps ps' : list Pool) (it : Item) :
  find_pools key ps = Some (it, ps') ->
  length ps' = length ps /\
  Forall2 (fun p p' => Permutation (poolItems p) (poolItems p')) ps ps'.
Proof.
  revert ps'. induction ps as [| p ps IH]; intros ps' H; [discriminate |].
  cbn [find_pools] in H. destruct (take_item key (poolItems p)) as [[x rest] |] eqn:Ht.
  - injection H as <- <-. apply take_item_length in Ht as [_ Hperm].
    split; [reflexivity |]. constructor; [exact Hperm |].
    apply Forall2_same_length_lookup_2; [reflexivity |]. intros i a b Ha Hb.
    rewrite Ha in Hb. injection Hb as <-. reflexivity.
  - destruct (find_pools key ps) as [[x ps''] |]; [| discriminate].
    injection H as <- <-. destruct (IH ps'' eq_refl) as [Hlen Hall].
    split; [cbn; lia |]. constructor; [reflexivity | assumption].
Qed.

Lemma find_pools_length (key : list byte) (c : Cache) :
  length (pools (find key c).2) = length (pools c).
Proof.
  unfold find. destruct (find_pools key (pools c)) as [[it ps] |] eqn:H; [| reflexivity].
  apply find_pools_shape in H as [H _]. exact H.
Qed.

(** *** The engine *)

(** Case analysis on the first step of a computation, in the goal. *)
Ltac bind_case :=
  match goal with
  | |- context [(?m ≫= _)] =>
      lazymatch m with
      | Ok _ => fail
      | Fail _ => fail
      | _ => destruct m
      end
  | |- context [let '(_, _) := ?p in _] => destruct p
  end; cbn [mbind res_bind fmap res_fmap].

Section EngineFacts.
Context {platform : Platform}.

Lemma put_inv (key : Z) (data : Tensor) (s s' : CacheLibCache) (ok : bool) :
  put key data s = Ok (ok, s') <-> exists evs, put_traced key data s = Ok (ok, evs, s').
Proof.
  unfold put. destruct (put_traced key data s) as [[[ok' evs] s''] |]; cbn.
  - split.
    + intros [= -> ->]. eauto.
    + intros (evs' & [= -> -> ->]). reflexivity.
  - split; [discriminate | intros (? & [=])].
Qed.

(** The engine keeps the identifiers of its pools. *)
Lemma put_traced_wf (key : Z) (data : Tensor) (s s' : CacheLibCache)
    (ok : bool) (evs : list RemoveCbData) :
  put_traced key data s = Ok (ok, evs, s') -> wf s -> wf s'.
Proof.
  intros H Hwf. unfold wf in *.
  apply put_traced_inv in H as (pid & evs1 & h & c & s1 & _ & Halloc & Hcb1 & H).
  apply allocate_pools_length in Halloc.
  apply run_callbacks_frame in Hcb1 as (Hc1 & Hi1 & _ & _).
  cbn [cache_ pool_ids_ set_cache] in Hc1, Hi1.
  destruct h as [h |].
  - destruct H as (bytes & s2 & _ & Hcb2 & [= -> -> ->]).
    apply run_callbacks_frame in Hcb2 as (Hc2 & Hi2 & _ & _).
    cbn [cache_ pool_ids_ set_cache] in Hc2, Hi2.
    rewrite Hi2, Hc2, insertOrReplace_pools_length, Hi1, Hc1, Halloc. exact Hwf.
  - injection H as -> -> ->. cbn [cache_ pool_ids_ add_xlog].
    rewrite Hi1, Hc1, Halloc. exact Hwf.
Qed.

Lemma put_all_wf (batch : list (Z * Tensor)) (s s' : CacheLibCache)
    (oks : list bool) (evs : list RemoveCbData) :
  put_all batch s = Ok (oks, evs, s') -> wf s -> wf s'.
Proof.
  revert s oks evs. induction batch as [| [key data] batch IH]; intros s oks evs H Hwf.
  - injection H as <- <- <-. exact Hwf.
  - cbn [put_all] in H.
    destruct (put_traced key data s) as [[[ok evs1] s1] |] eqn:E1;
      [rewrite bind_Ok in H | discriminate].
    destruct (put_all batch s1) as [[[oks2 evs2] s2] |] eqn:E2;
      [rewrite bind_Ok in H | discriminate].
    injection H as <- <- <-. eapply IH; [eassumption |].
    eapply put_traced_wf; eauto.
Qed.

Lemma get_wf (key : Z) (s : CacheLibCache) : wf s -> wf (get key s).2.
Proof.
  unfold wf, get. intros Hwf.
  pose proof (find_pools_length (key_str key) (cache_ s)) as Hlen.
  destruct (find (key_str key) (cache_ s)) as [[it |] c]; cbn [snd] in *;
    cbn [cache_ pool_ids_ set_cache]; rewrite Hlen; exact Hwf.
Qed.

(** What holds of the items in the cache and of the item a [put] stores
    holds of the items the [put] leaves in the cache, and of the items whose
    removal it reports. *)
Lemma put_traced_items (P : Item -> Prop) (key : Z) (data : Tensor)
    (s s' : CacheLibCache) (ok : bool) (evs : list RemoveCbData) :
  put_traced key data s = Ok (ok, evs, s') ->
  Forall P (all_items (cache_ s)) ->
  (forall bytes, length bytes = nbytes data -> P (mkItem (key_str key) bytes)) ->
  Forall P (item <$> evs) /\ Forall P (all_items (cache_ s')).
Proof.
  intros H Hall Hnew. rewrite !Forall_forall in *.
  apply put_traced_inv in H as (pid & evs1 & h & c & s1 & _ & Halloc & Hcb1 & H).
  pose proof (allocate_handle pid (key_str key) (nbytes data) (cache_ s) c evs1) as Hh.
  pose proof Halloc as Halloc'.
  apply allocate_items in Halloc as [Hev1 Hit1].
  apply run_callbacks_frame in Hcb1 as (Hc1 & _).
  cbn [cache_ set_cache] in Hc1.
  destruct h as [h |].
  - destruct H as (bytes & s2 & Hread & Hcb2 & [= -> -> ->]).
    apply run_callbacks_frame in Hcb2 as (Hc2 & _).
    cbn [cache_ set_cache] in Hc2. rewrite Hc1 in *.
    apply mem_read_Ok in Hread as (_ & Hlen & ->).
    destruct (insertOrReplace_items (hPool h)
      (mkItem (hKey h) (take (nbytes data) (drop (Z.to_nat 0) (storage data)))) c)
      as (_ & Hev2 & Hit2).
    assert (Hitem : P (mkItem (hKey h) (take (nbytes data) (drop (Z.to_nat 0) (storage data))))).
    { destruct (Hh h Halloc') as [-> _]. cbn [hKey].
      apply Hnew. rewrite length_take, length_drop. lia. }
    split.
    + intros x Hx. rewrite fmap_app in Hx. apply elem_of_app in Hx as [Hx | Hx]; auto.
    + intros x Hx. rewrite Hc2 in Hx. apply Hit2 in Hx as [-> | Hx]; auto.
  - injection H as -> -> ->. cbn [cache_ add_xlog]. rewrite Hc1. split; auto.
Qed.

End EngineFacts.

Lemma evicted_items_sub (evs : list RemoveCbData) (x : Item) :
  x ∈ evicted_items evs -> x ∈ item <$> evs.
Proof.
  unfold evicted_items. intros (d & -> & Hd)%list_elem_of_fmap.
  apply list_elem_of_filter in Hd as [_ Hd]. apply list_elem_of_fmap. eauto.
Qed.

Lemma sentinels_length (b : nat) :
  length (mjoin (replicate b (minus_one kLong))) = (8 * b)%nat.
Proof.
  induction b as [| b IH]; [reflexivity |].
  change (mjoin (replicate (S b) (minus_one kLong)))
    with (minus_one kLong ++ mjoin (replicate b (minus_one kLong))).
  rewrite length_app, IH. cbn [minus_one length]. lia.
Qed.

Lemma sentinels_drop (e b : nat) :
  drop (8 * e) (mjoin (replicate b (minus_one kLong)))
  = mjoin (replicate (b - e) (minus_one kLong)).
Proof.
  revert b. induction e as [| e IH]; intros b.
  - rewrite Nat.mul_0_r, drop_0, Nat.sub_0_r. reflexivity.
  - destruct b as [| b].
    + cbn [replicate mjoin list_join Nat.sub]. apply drop_nil.
    + change (mjoin (replicate (S b) (minus_one kLong)))
        with (minus_one kLong ++ mjoin (replicate b (minus_one kLong))).
      replace (8 * S e)%nat with (8 + 8 * e)%nat by lia.
      rewrite <- drop_drop, drop_app_length' by reflexivity.
      rewrite IH. reflexivity.
Qed.

Lemma non_sentinel_sentinels (keys : list Z) (m : nat) :
  Forall (fun k => k ≠ -1) keys ->
  non_sentinel (keys ++ replicate m (-1)) = keys.
Proof.
  intros Hall. unfold non_sentinel. rewrite filter_app.
  assert (Hrep : filter (fun k : Z => k ≠ -1) (replicate m (-1)) = []).
  { induction m as [| m IH]; [reflexivity |].
    cbn [replicate]. rewrite filter_cons_False by (intros Hne; apply Hne; reflexivity).
    exact IH. }
  rewrite Hrep, app_nil_r.
  induction Hall as [| k keys Hk _ IH]; [reflexivity |].
  rewrite filter_cons_True by assumption. f_equal. exact IH.
Qed.

Section Arming.
Context {platform : Platform}.

(** What arming attaches to the engine. *)
Lemma init_tensor_spec (indices weights : Tensor) (count D : Z) (s : CacheLibCache) :
  0 <= count < 2 ^ 63 -> sizes weights !! 1%nat = Some D -> 0 <= D ->
  init_tensor_for_l2_eviction indices weights count s
  = Ok (set_evicted s
          (Some (mkTensor (scalar_type indices) [count]
                   (mjoin (replicate (Z.to_nat count) (minus_one (scalar_type indices))))))
          (Some (mkTensor (scalar_type weights) [count; D]
                   (uninit <$> seq 0 (Z.to_nat count * Z.to_nat D
                                      * elementSize (scalar_type weights)))))).
Proof.
  intros Hc HD HD0. unfold init_tensor_for_l2_eviction.
  rewrite to_int64_id by (unfold int64_range; lia).
  unfold at_ones_times_minus_one. rewrite decide_True by lia. rewrite bind_Ok.
  unfold size. rewrite HD, bind_Ok.
  unfold at_empty. rewrite decide_True by (repeat constructor; lia).
  rewrite bind_Ok. cbn [foldr]. rewrite Z.mul_1_r, Z2Nat.inj_mul by lia. reflexivity.
Qed.

Lemma put_all_items (P : Item -> Prop) (batch : list (Z * Tensor))
    (s s' : CacheLibCache) (oks : list bool) (evs : list RemoveCbData) :
  put_all batch s = Ok (oks, evs, s') ->
  Forall P (all_items (cache_ s)) ->
  Forall (fun kd => forall bytes, length bytes = nbytes kd.2 ->
                    P (mkItem (key_str kd.1) bytes)) batch ->
  Forall P (item <$> evs) /\ Forall P (all_items (cache_ s')).
Proof.
  revert s oks evs. induction batch as [| [key data] batch IH]; intros s oks evs H Hs Hb.
  - injection H as <- <- <-. split; [constructor | assumption].
  - cbn [put_all] in H.
    destruct (put_traced key data s) as [[[ok evs1] s1] |] eqn:E1;
      [rewrite bind_Ok in H | discriminate].
    destruct (put_all batch s1) as [[[oks2 evs2] s2] |] eqn:E2;
      [rewrite bind_Ok in H | discriminate].
    injection H as <- <- <-. apply Forall_cons in Hb as [Hkd Hb].
    destruct (put_traced_items P _ _ _ _ _ _ E1 Hs Hkd) as [He1 Hs1].
    destruct (IH _ _ _ E2 Hs1 Hb) as [He2 Hs2].
    split; [| assumption]. rewrite fmap_app. apply Forall_app. auto.
Qed.

End Arming.

(** *** Eviction capture *)

Section EvictionCapture.
Context {platform : Platform}.

(** C1.  A cycle is armed with room for [count] evictions, with buffers of
    64-bit keys and of rows of [D] elements, of a type the dispatch has a
    case for; the rows in the cache and those of the batch have that size.
    If the batch of [put] calls evicts no more than [count] items, the engine
    then hands out buffers in which slot [i] holds the key and the row of the
    [i]-th evicted item, and every later slot of the keys holds -1.  Items
    removed for another reason than eviction are in no slot.  Exactly as many
    slots as there were evictions differ from -1, provided no evicted key is
    -1 itself. *)
Theorem eviction_capture_in_order
    (s0 armed s' : CacheLibCache) (indices weights : Tensor) (count D : Z)
    (batch : list (Z * Tensor)) (oks : list bool) (evs : list RemoveCbData) :
  scalar_type indices = kLong ->
  dispatch_case (scalar_type weights) = true ->
  sizes weights !! 1%nat = Some D -> 0 <= D -> 0 <= count < 2 ^ 63 ->
  Forall (row_item (Z.to_nat D * elementSize (scalar_type weights))) (all_items (cache_ s0)) ->
  Forall (fun kd => nbytes kd.2 = (Z.to_nat D * elementSize (scalar_type weights))%nat) batch ->
  init_tensor_for_l2_eviction indices weights count (reset_eviction_states s0) = Ok armed ->
  put_all batch armed = Ok (oks, evs, s') ->
  Z.of_nat (length (evicted_items evs)) <= count ->
  exists ind wts,
    get_evicted_indices_and_weights s' = Ok (Some (ind, wts)) /\
    eviction_row_id s' = Z.of_nat (length (evicted_items evs)) /\
    int64s ind = (item_key <$> evicted_items evs)
                 ++ replicate (Z.to_nat count - length (evicted_items evs)) (-1) /\
    (forall i it, evicted_items evs !! i = Some it ->
       row_bytes (Z.to_nat D * elementSize (scalar_type weights)) i (storage wts)
       = Some (getMemory it)) /\
    (Forall (fun it => item_key it ≠ -1) (evicted_items evs) ->
       length (non_sentinel (int64s ind)) = length (evicted_items evs)).
Proof.
  intros Hlong Hdisp HD HD0 Hcount Hcache Hbatch Harm Hput HE.
  set (n := (Z.to_nat D * elementSize (scalar_type weights))%nat) in *.
  set (its := evicted_items evs) in *.
  rewrite init_tensor_spec with (D := D) in Harm by assumption.
  injection Harm as <-. rewrite Hlong in Hput.
  (* the rows that are evicted have the size of the slots *)
  assert (Hits : Forall (row_item n) its).
  { destruct (put_all_items (row_item n) _ _ _ _ _ Hput) as [Hev _].
    - exact Hcache.
    - eapply Forall_impl; [exact Hbatch |]. intros [k d] Hd bytes Hb.
      cbn [fst snd] in *. unfold row_item. cbn [getKey getMemory].
      split; [apply key_str_length | lia].
    - rewrite Forall_forall in *. intros x Hx. apply Hev, evicted_items_sub, Hx. }
  assert (Hits' : Forall (fun it => (8 <= length (getKey it))%nat /\
                                    (n <= length (getMemory it))%nat) its).
  { eapply Forall_impl; [exact Hits |]. intros it [Hk Hm]. lia. }
  (* the buffers, once the callback has run on the removals of the batch *)
  destruct (put_all_callbacks _ _ _ _ _ Hput) as (t & Ht & Hi & Hw & Hr).
  destruct s0 as [cfg c ids ind0 wts0 r0 lg].
  unfold set_evicted, reset_eviction_states, set_eviction_row_id in Ht.
  cbn [cache_config_ cache_ pool_ids_ xlog evicted_indices_ptr_ evicted_weights_ptr_
       eviction_row_id] in Ht.
  change 0 with (Z.of_nat 0) in Ht.
  rewrite <- (app_nil_l (mjoin _)), <- (app_nil_l (uninit <$> _)) in Ht.
  rewrite (run_callbacks_capture evs) with (D := D) in Ht;
    [| assumption | reflexivity | assumption | reflexivity | reflexivity
     | rewrite sentinels_length; fold its; lia
     | rewrite length_fmap, length_seq; fold its n; unfold n; nia
     | assumption | fold its; lia].
  apply Ok_inj in Ht. subst t.
  cbn [evicted_indices_ptr_ evicted_weights_ptr_ eviction_row_id] in Hi, Hw, Hr.
  fold its n in Hi, Hw, Hr |- *.
  eexists _, _. split; [| split; [| split; [| split]]].
  - unfold get_evicted_indices_and_weights. rewrite <- Hi, <- Hw. reflexivity.
  - rewrite <- Hr. reflexivity.
  - unfold int64s. cbn [storage app].
    rewrite sentinels_drop, length_app, captured_keys_length, sentinels_length.
    replace ((8 * length its + 8 * (Z.to_nat count - length its)) / 8)%nat
      with (length its + (Z.to_nat count - length its))%nat
      by (rewrite <- Nat.mul_add_distr_l, Nat.mul_comm, Nat.div_mul; lia).
    rewrite int64_elems_captured.
    rewrite <- (app_nil_r (mjoin _)), int64_elems_sentinels. reflexivity.
  - intros i it Hit. cbn [storage app].
    rewrite (captured_rows_lookup n its i it);
      [| eapply Forall_impl; [exact Hits' |]; intros ? [_ ?]; assumption | assumption].
    f_equal. apply take_ge.
    rewrite Forall_forall in Hits.
    destruct (Hits it) as [_ Hm]; [eapply list_elem_of_lookup_2; eauto | lia].
  - intros Hne. unfold int64s. cbn [storage app].
    rewrite sentinels_drop, length_app, captured_keys_length, sentinels_length.
    replace ((8 * length its + 8 * (Z.to_nat count - length its)) / 8)%nat
      with (length its + (Z.to_nat count - length its))%nat
      by (rewrite <- Nat.mul_add_distr_l, Nat.mul_comm, Nat.div_mul; lia).
    rewrite int64_elems_captured.
    rewrite <- (app_nil_r (mjoin _)), int64_elems_sentinels.
    rewrite non_sentinel_sentinels, length_fmap; [reflexivity |].
    apply Forall_fmap. exact Hne.
Qed.

End EvictionCapture.

Lemma eviction_capture_in_order_witness :
  exists ind wts,
    get_evicted_indices_and_weights row_cycle.2 = Ok (Some (ind, wts)) /\
    eviction_row_id row_cycle.2 = 1 /\
    int64s ind = [1; -1] /\
    (forall i it, evicted_items row_cycle.1.2 !! i = Some it ->
       row_bytes 4 i (storage wts) = Some (getMemory it)) /\
    (Forall (fun it => item_key it ≠ -1) (evicted_items row_cycle.1.2) ->
       length (non_sentinel (int64s ind)) = 1%nat).
Proof.
  apply (@eviction_capture_in_order plain_platform small_engine small_armed row_cycle.2
           lookup_indices lookup_weights 2 1 row_batch row_cycle.1.1 row_cycle.1.2).
  - reflexivity.
  - reflexivity.
  - reflexivity.
  - lia.
  - lia.
  - vm_compute. constructor.
  - vm_compute. repeat constructor.
  - reflexivity.
  - reflexivity.
  - vm_compute. discriminate.
Defined.

(** C1, as stated, fails when the key -1 is evicted: the cycle is armed for
    two evictions, exactly one eviction occurs, and no slot of the keys
    differs from the sentinel. *)
Lemma sentinel_key_eviction_unseen :
  @put_all plain_platform sentinel_batch small_armed = Ok sentinel_cycle /\
  evicted_items sentinel_cycle.1.2 = [mkItem (key_str (-1)) [1; 2; 3; 4]] /\
  Z.of_nat (length (evicted_items sentinel_cycle.1.2)) <= 2 /\
  exists ind wts,
    get_evicted_indices_and_weights sentinel_cycle.2 = Ok (Some (ind, wts)) /\
    int64s ind = [-1; -1] /\
    length (non_sentinel (int64s ind)) ≠ length (evicted_items sentinel_cycle.1.2).
Proof.
  split; [reflexivity |]. split; [reflexivity |]. split; [vm_compute; discriminate |].
  eexists _, _. split; [reflexivity |]. split; [reflexivity |].
  vm_compute. discriminate.
Qed.

(** A [put] that replaces the row of its key makes the allocator report the
    old row as removed, not as evicted: the buffers of an armed engine stay
    as they were. *)
Example replaced_row_not_captured :
  exists oks evs s',
    @put_all plain_platform replace_batch small_armed = Ok (oks, evs, s') /\
    context <$> evs = [kNormal] /\
    int64s <$> evicted_indices_ptr_ s' = Some [-1; -1] /\
    eviction_row_id s' = 0.
Proof. eexists _, _, _. split; [reflexivity |]. vm_compute. auto. Qed.

(** *** Arming *)

Section ArmedState.
Context {platform : Platform}.

(** C9.  Arming an engine is attaching fresh buffers with
    [init_tensor_for_l2_eviction] and putting the cursor back with
    [reset_eviction_states], in either order.  For [count] lookups and rows
    of [D] elements, the engine then holds a buffer of [count] keys, each of
    them the element -1 of the type of the indices, which for 64-bit keys is
    the integer -1, and a buffer of rows of shape [count, D], and its cursor
    is 0; the cache itself is as before.  [init_tensor_for_l2_eviction] alone
    leaves the cursor where it was, which is at 0 in a new engine and after
    every [reset_eviction_states]. *)
Theorem arming_establishes_armed_state
    (s : CacheLibCache) (indices weights : Tensor) (count D : Z) :
  0 <= count < 2 ^ 63 ->
  sizes weights !! 1%nat = Some D -> 0 <= D ->
  exists armed ind wts,
    init_tensor_for_l2_eviction indices weights count (reset_eviction_states s) = Ok armed /\
    reset_eviction_states <$> init_tensor_for_l2_eviction indices weights count s = Ok armed /\
    get_evicted_indices_and_weights armed = Ok (Some (ind, wts)) /\
    sizes ind = [count] /\
    scalar_type ind = scalar_type indices /\
    storage ind = mjoin (replicate (Z.to_nat count) (minus_one (scalar_type indices))) /\
    (scalar_type indices = kLong -> int64s ind = replicate (Z.to_nat count) (-1)) /\
    sizes wts = [count; D] /\
    scalar_type wts = scalar_type weights /\
    length (storage wts)
      = (Z.to_nat count * Z.to_nat D * elementSize (scalar_type weights))%nat /\
    eviction_row_id armed = 0 /\
    cache_ armed = cache_ s /\ pool_ids_ armed = pool_ids_ s /\
    (forall s1, init_tensor_for_l2_eviction indices weights count s = Ok s1 ->
                eviction_row_id s1 = eviction_row_id s).
Proof.
  intros Hcount HD HD0.
  eexists _, _, _. split; [apply init_tensor_spec; eassumption |].
  split; [rewrite (init_tensor_spec _ _ _ D) by assumption; reflexivity |].
  split; [reflexivity |]. split; [reflexivity |].
  split; [reflexivity |]. split; [reflexivity |].
  split.
  { intros Hlong. unfold int64s. cbn [storage]. rewrite Hlong, sentinels_length.
    rewrite Nat.mul_comm, Nat.div_mul by lia.
    rewrite <- (app_nil_r (mjoin _)). apply int64_elems_sentinels. }
  split; [reflexivity |]. split; [reflexivity |].
  split; [cbn [storage]; rewrite length_fmap, length_seq; reflexivity |].
  split; [reflexivity |]. split; [reflexivity |]. split; [reflexivity |].
  intros s1 Hs1. rewrite (init_tensor_spec _ _ _ D) in Hs1 by assumption.
  apply Ok_inj in Hs1. subst s1. reflexivity.
Qed.

End ArmedState.

Lemma arming_establishes_armed_state_witness :
  exists armed ind wts,
    @init_tensor_for_l2_eviction plain_platform lookup_indices lookup_weights 2
      (reset_eviction_states small_engine) = Ok armed /\
    reset_eviction_states <$>
      @init_tensor_for_l2_eviction plain_platform lookup_indices lookup_weights 2 small_engine
      = Ok armed /\
    get_evicted_indices_and_weights armed = Ok (Some (ind, wts)) /\
    sizes ind = [2] /\
    scalar_type ind = kLong /\
    int64s ind = [-1; -1] /\
    sizes wts = [2; 1] /\
    scalar_type wts = kFloat /\
    length (storage wts) = 8%nat /\
    eviction_row_id armed = 0 /\
    cache_ armed = cache_ small_engine /\ pool_ids_ armed = pool_ids_ small_engine.
Proof.
  destruct (@arming_establishes_armed_state plain_platform small_engine
              lookup_indices lookup_weights 2 1)
    as (armed & ind & wts & H1 & H2 & H3 & H4 & H5 & _ & H7 & H8 & H9 & H10 & H11 & H12 & H13 & _).
  - lia.
  - reflexivity.
  - lia.
  - exists armed, ind, wts.
    split; [exact H1 |]. split; [exact H2 |]. split; [exact H3 |]. split; [exact H4 |].
    split; [exact H5 |]. split; [apply H7; reflexivity |]. split; [exact H8 |].
    split; [exact H9 |]. split; [exact H10 |]. split; [exact H11 |].
    split; [exact H12 | exact H13].
Defined.

(** *** An eviction without buffers *)

Section Unarmed.
Context {platform : Platform}.

(** Without a weights buffer the callback stops at its first step, for an
    eviction as for any other removal. *)
Lemma eviction_cb_unarmed (data : RemoveCbData) (s : CacheLibCache) :
  evicted_weights_ptr_ s = None -> eviction_cb data s = Fail NullDeref.
Proof. intros H. unfold eviction_cb. rewrite H. reflexivity. Qed.

(** So a [put] on an engine without buffers does not return as soon as the
    allocator reports a removal, whatever its reason. *)
Lemma put_unarmed_removal (key : Z) (data : Tensor) (s : CacheLibCache) (pid : PoolId)
    (d : RemoveCbData) (evs : list RemoveCbData) (h : option Handle) (c : Cache) :
  evicted_weights_ptr_ s = None ->
  get_pool_id key s = Ok pid ->
  allocate pid (key_str key) (nbytes data) (cache_ s) = Ok (d :: evs, h, c) ->
  put key data s = Fail NullDeref.
Proof.
  intros Hnone Hpid Halloc. unfold put, put_traced.
  rewrite Hpid, bind_Ok, Halloc, bind_Ok. cbn [run_callbacks].
  rewrite eviction_cb_unarmed by exact Hnone. reflexivity.
Qed.

End Unarmed.

(** C2.  An engine that was never armed holds no buffers.  The third [put]
    into a shard with room for two rows evicts a row; the callback then
    dereferences the empty pointer to the weights buffer, and the [put] does
    not return.  The same happens when a [put] replaces the row of its key,
    although that removal is not an eviction.  Two rows, which fit, are
    stored without removal and without failure. *)
Theorem unarmed_eviction_dereferences_null :
  evicted_weights_ptr_ small_engine = None /\
  is_Ok (@put_all plain_platform (take 2 row_batch) small_engine) = true /\
  @put_all plain_platform row_batch small_engine = Fail NullDeref /\
  @put_all plain_platform replace_batch small_engine = Fail NullDeref.
Proof. vm_compute. auto. Qed.

(** *** [put] and [get] *)

Section PutGet.
Context {platform : Platform}.

(** What a [put] that returned [true] leaves in the cache: an item with the
    bytes of the tensor, which is the one [find] returns for the key. *)
Lemma put_stores_row (key : Z) (data : Tensor) (s s' : CacheLibCache) :
  put key data s = Ok (true, s') ->
  find (key_str key) (cache_ s')
    = (Some (mkItem (key_str key) (tensor_bytes data)), cache_ s') /\
  length (tensor_bytes data) = nbytes data.
Proof.
  intros H. apply put_inv in H as (evs & H).
  apply put_traced_inv in H as (pid & evs1 & h & c & s1 & _ & Halloc & Hcb1 & H).
  destruct h as [h |]; [| discriminate].
  destruct H as (bytes & s2 & Hread & Hcb2 & [= -> ->]).
  apply allocate_handle in Halloc as [-> Hpid].
  apply run_callbacks_frame in Hcb1 as (Hc1 & _).
  apply run_callbacks_frame in Hcb2 as (Hc2 & _).
  cbn [cache_ set_cache hPool hKey] in *.
  rewrite Hc2, Hc1.
  apply mem_read_Ok in Hread as (_ & Hlen & ->). cbn [Z.to_nat] in *.
  rewrite drop_0 in *. fold (tensor_bytes data). split.
  - apply (find_insertOrReplace pid (mkItem (key_str key) (tensor_bytes data)) c Hpid).
  - unfold tensor_bytes. rewrite length_take. lia.
Qed.

(** C3.  After a [put] that returned [true], a [get] of the same key finds
    the row: the view it returns holds the bytes of the tensor that was
    stored. *)
Theorem put_get_round_trip (key : Z) (data : Tensor) (s s' : CacheLibCache) :
  put key data s = Ok (true, s') ->
  (get key s').1 = Some (tensor_bytes data).
Proof.
  intros H. apply put_stores_row in H as [Hfind _].
  unfold get. rewrite Hfind. reflexivity.
Qed.

(** C7.  When the allocator has no room for the row, that is when
    [allocate] returns an empty handle, [put] returns [false].  The engine is
    then as it was before the call, but for the message in its log: the
    cache holds the same items in the same order, and every [get] gives what
    it gave before. *)
Theorem put_allocation_failure
    (key : Z) (data : Tensor) (s : CacheLibCache) (pid : PoolId)
    (evs : list RemoveCbData) (c : Cache) :
  get_pool_id key s = Ok pid ->
  allocate pid (key_str key) (nbytes data) (cache_ s) = Ok (evs, None, c) ->
  put key data s = Ok (false, add_xlog s (alloc_failed_msg key)) /\
  cache_ (add_xlog s (alloc_failed_msg key)) = cache_ s /\
  xlog (add_xlog s (alloc_failed_msg key)) = xlog s ++ [alloc_failed_msg key] /\
  forall k, (get k (add_xlog s (alloc_failed_msg key))).1 = (get k s).1.
Proof.
  intros Hpid Halloc.
  pose proof (allocate_inv _ _ _ _ _ _ _ Halloc) as (p & Hp & Hcase).
  destruct Hcase as [(_ & -> & _ & ->) | (? & ? & _ & _ & [=] & _)].
  split; [| split; [reflexivity | split; [reflexivity |]]].
  - unfold put, put_traced. rewrite Hpid, bind_Ok, Halloc, bind_Ok.
    cbn [run_callbacks]. rewrite bind_Ok. cbn [fmap res_fmap fst snd].
    destruct s. reflexivity.
  - intros k. unfold get. cbn [cache_ add_xlog].
    destruct (find (key_str k) (cache_ s)) as [[it |] c']; reflexivity.
Qed.

End PutGet.

(** The first scenario of the specification: two rows stored under the keys
    1 and 2; the row of key 1 is found, and nothing is found for key 3. *)
Example scenario_put_get :
  exists s0 oks evs s,
    @CacheLibCache_new plain_platform double_config = Ok s0 /\
    @put_all plain_platform [(1, pi_row); (2, e_row)] s0 = Ok (oks, evs, s) /\
    oks = [true; true] /\ evs = [] /\
    (get 1 s).1 = Some [31; 133; 235; 81; 184; 30; 9; 64] /\
    (get 3 s).1 = None.
Proof. eexists _, _, _, _. split; [reflexivity |]. split; [reflexivity |]. vm_compute. auto. Qed.

Lemma put_get_round_trip_witness :
  (get 1 one_row_engine).1 = Some (tensor_bytes (float_row 1 2 3 4)).
Proof.
  apply (@put_get_round_trip plain_platform 1 (float_row 1 2 3 4) small_engine one_row_engine).
  reflexivity.
Defined.

Lemma put_allocation_failure_witness :
  @put plain_platform 7 huge_row one_row_engine
    = Ok (false, add_xlog one_row_engine (@alloc_failed_msg 7)) /\
  cache_ (add_xlog one_row_engine (alloc_failed_msg 7)) = cache_ one_row_engine /\
  xlog (add_xlog one_row_engine (alloc_failed_msg 7))
    = xlog one_row_engine ++ [alloc_failed_msg 7] /\
  forall k, (get k (add_xlog one_row_engine (alloc_failed_msg 7))).1
            = (get k one_row_engine).1.
Proof.
  apply (@put_allocation_failure plain_platform 7 huge_row one_row_engine 0%nat []
           (cache_ one_row_engine)).
  - reflexivity.
  - reflexivity.
Defined.

(** *** Construction *)

Lemma reserved_app (ps qs : list Pool) :
  reserved (ps ++ qs) = (reserved ps + reserved qs)%N.
Proof.
  induction ps as [| p ps IH]; [reflexivity |].
  change (reserved ((p :: ps) ++ qs)) with (poolSize p + reserved (ps ++ qs))%N.
  change (reserved (p :: ps)) with (poolSize p + reserved ps)%N.
  rewrite IH. lia.
Qed.

Section Construction.
Context {platform : Platform}.

(** The loop of the constructor adds the pools it is asked for, all of the
    same size, as long as they fit together into the memory of the cache. *)
Lemma add_shards_spec (config : CacheConfig) (k : nat) :
  forall (i : nat) (ids : list PoolId) (c : Cache),
    (reserved (pools c) + N.of_nat k * (ramCacheSize c / num_shards config)
       <= ramCacheSize c)%N ->
    add_shards config (seq i k) ids c
    = Ok (ids ++ seq (length (pools c)) k,
          set_pools c
            (pools c ++
             ((fun j => mkPool ("shard_" +:+ pretty j)
                          (ramCacheSize c / num_shards config)%N []) <$> seq i k))).
Proof.
  induction k as [| k IH]; intros i ids c Hfit.
  - cbn [seq add_shards fmap list_fmap]. rewrite !app_nil_r. destruct c. reflexivity.
  - cbn [seq add_shards]. unfold addPool.
    rewrite Nat2N.inj_succ, N.mul_succ_l in Hfit.
    assert (Hq : (reserved (pools c) + ramCacheSize c / num_shards config
                  <= ramCacheSize c)%N)
      by (revert Hfit; generalize (ramCacheSize c / num_shards config)%N; intros q;
          generalize (N.of_nat k * q)%N; intros; lia).
    rewrite decide_True by exact Hq. rewrite bind_Ok.
    rewrite IH; cbn [pools set_pools ramCacheSize].
    + rewrite length_app. cbn [length fmap list_fmap].
      rewrite <- !app_assoc. cbn [app].
      replace (length (pools c) + 1)%nat with (S (length (pools c))) by lia.
      reflexivity.
    + rewrite reserved_app. cbn [reserved foldr poolSize].
      revert Hfit. generalize (ramCacheSize c / num_shards config)%N. intros q.
      generalize (N.of_nat k * q)%N. intros. lia.
Qed.

(** The engine the constructor builds when the allocator accepts the
    configured size and reports [ram] bytes of memory. *)
Lemma CacheLibCache_new_spec (config : CacheConfig) (ram : N) :
  ram_cache_size (cache_size_bytes config) = Some ram ->
  CacheLibCache_new config
  = Ok (mkCacheLibCache config
          (mkCache ram
             ((fun j => mkPool ("shard_" +:+ pretty j) (ram / num_shards config)%N [])
                <$> seq 0 (N.to_nat (num_shards config))))
          (seq 0 (N.to_nat (num_shards config))) None None 0 []).
Proof.
  intros Hram. unfold CacheLibCache_new, initializeCacheLib. rewrite Hram, bind_Ok.
  rewrite add_shards_spec; [rewrite bind_Ok; reflexivity |].
  cbn [pools ramCacheSize reserved foldr].
  destruct (decide (num_shards config = 0%N)) as [-> | Hn]; [cbn; lia |].
  rewrite N2Nat.id. pose proof (N.Div0.mul_div_le ram (num_shards config)). lia.
Qed.

Lemma CacheLibCache_new_wf (config : CacheConfig) (ram : N) :
  ram_cache_size (cache_size_bytes config) = Some ram ->
  exists s, CacheLibCache_new config = Ok s /\ wf s /\ cache_config_ s = config /\
            all_items (cache_ s) = [].
Proof.
  intros Hram. eexists. split; [apply CacheLibCache_new_spec; eassumption |].
  split; [| split; [reflexivity |]].
  - unfold wf. cbn [pool_ids_ cache_ pools]. rewrite length_fmap, length_seq. reflexivity.
  - unfold all_items. cbn [cache_ pools]. rewrite <- list_fmap_compose.
    induction (seq 0 _) as [| j l IH]; [reflexivity | exact IH].
Qed.

(** C4.  The constructor asks the allocator how much memory it has
    ([ramCacheSize]) and gives every shard a pool of that amount divided by
    the number of shards, rounded down.  There is one empty pool per shard;
    together the pools take no more than the memory of the allocator, and
    what is left over is less than one byte per shard.  When the allocator
    reports all the memory it was configured with, the size of a pool is
    [cache_size_bytes / num_shards]. *)
Theorem pools_split_usable_memory (config : CacheConfig) (ram : N) :
  ram_cache_size (cache_size_bytes config) = Some ram ->
  exists s,
    CacheLibCache_new config = Ok s /\
    pool_ids_ s = seq 0 (N.to_nat (num_shards config)) /\
    length (pools (cache_ s)) = N.to_nat (num_shards config) /\
    Forall (fun p => poolSize p = (ram / num_shards config)%N /\ poolItems p = [])
           (pools (cache_ s)) /\
    reserved (pools (cache_ s)) = (num_shards config * (ram / num_shards config))%N /\
    (reserved (pools (cache_ s)) <= ram)%N /\
    (0 < num_shards config -> ram - reserved (pools (cache_ s)) < num_shards config)%N /\
    (ram = cache_size_bytes config ->
     Forall (fun p => poolSize p = (cache_size_bytes config / num_shards config)%N)
            (pools (cache_ s))).
Proof.
  intros Hram. set (n := num_shards config). set (q := (ram / n)%N).
  assert (Hle : (n * q <= ram)%N).
  { destruct (decide (n = 0%N)) as [-> | Hn]; [lia |]. apply N.Div0.mul_div_le. }
  eexists. split; [apply CacheLibCache_new_spec; exact Hram |].
  cbn [pool_ids_ cache_ pools set_pools ramCacheSize app length]. fold n q.
  assert (Hall : Forall (fun p => poolSize p = q /\ poolItems p = [])
            ((fun j => mkPool ("shard_" +:+ pretty j) q []) <$> seq 0 (N.to_nat n))).
  { apply Forall_fmap, Forall_forall. intros j _. cbn. auto. }
  assert (Hres : reserved ((fun j => mkPool ("shard_" +:+ pretty j) q [])
                           <$> seq 0 (N.to_nat n)) = (n * q)%N).
  { rewrite <- (N2Nat.id n) at 2. generalize (N.to_nat n) as k. generalize 0%nat as i.
    intros i k. revert i. induction k as [| k IH]; intros i; [reflexivity |].
    cbn [seq fmap list_fmap reserved foldr poolSize].
    change (foldr _ _ (list_fmap _ _ _ (seq (S i) k)))
      with (reserved ((fun j => mkPool ("shard_" +:+ pretty j) q []) <$> seq (S i) k)).
    rewrite IH. lia. }
  split; [reflexivity |].
  split; [rewrite length_fmap, length_seq; reflexivity |].
  split; [exact Hall |]. split; [exact Hres |]. split; [rewrite Hres; exact Hle |].
  split.
  - intros Hn. rewrite Hres. unfold q.
    pose proof (N.Div0.div_mod ram n) as Hdm.
    pose proof (N.mod_upper_bound ram n) as Hmod. lia.
  - intros <-. eapply Forall_impl; [exact Hall |]. intros p [Hp _]. exact Hp.
Qed.

End Construction.

Lemma pools_split_usable_memory_witness :
  exists s,
    @CacheLibCache_new slab_platform two_shard_config = Ok s /\
    pool_ids_ s = seq 0 (N.to_nat 2) /\
    length (pools (cache_ s)) = N.to_nat 2 /\
    Forall (fun p => poolSize p = (8388608 / 2)%N /\ poolItems p = []) (pools (cache_ s)) /\
    reserved (pools (cache_ s)) = (2 * (8388608 / 2))%N /\
    (reserved (pools (cache_ s)) <= 8388608)%N /\
    (0 < 2 -> 8388608 - reserved (pools (cache_ s)) < 2)%N /\
    (8388608%N = cache_size_bytes two_shard_config ->
     Forall (fun p => poolSize p = (cache_size_bytes two_shard_config / 2)%N)
            (pools (cache_ s))).
Proof.
  apply (@pools_split_usable_memory slab_platform two_shard_config 8388608).
  reflexivity.
Defined.

(** C4, as stated, fails for an allocator that does not report all the
    configured memory as usable: of ten MiB it reports eight, and the two
    pools get four MiB each, not five. *)
Lemma pool_size_from_reported_memory :
  exists s,
    @CacheLibCache_new slab_platform two_shard_config = Ok s /\
    poolSize <$> pools (cache_ s) = [4194304; 4194304]%N /\
    (cache_size_bytes two_shard_config / num_shards two_shard_config = 5242880)%N /\
    Forall (fun p => poolSize p
                     ≠ (cache_size_bytes two_shard_config / num_shards two_shard_config)%N)
           (pools (cache_ s)).
Proof.
  eexists. split; [reflexivity |]. split; [reflexivity |]. split; [reflexivity |].
  repeat constructor; discriminate.
Qed.

(** *** The export of all items *)

Lemma count_items_pools (c : Cache) (rest : list Pool) :
  forall (done : list Pool) (acc : Z),
    pools c = done ++ rest -> 0 <= acc ->
    acc + Z.of_nat (length (mjoin (poolItems <$> rest))) < 2 ^ 31 ->
    count_items (seq (length done) (length rest)) c acc
    = Ok (acc + Z.of_nat (length (mjoin (poolItems <$> rest)))).
Proof.
  induction rest as [| p rest IH]; intros done acc Hc Hacc Hlt.
  - cbn. f_equal. lia.
  - cbn [length seq count_items]. unfold getPoolStats.
    rewrite Hc, list_lookup_middle by reflexivity. rewrite bind_Ok.
    change (mjoin (poolItems <$> p :: rest))
      with (poolItems p ++ mjoin (poolItems <$> rest)) in *.
    rewrite length_app in *. unfold numItems.
    rewrite to_int_id by (unfold int_range; lia).
    replace (S (length done)) with (length (done ++ [p]))
      by (rewrite length_app; cbn; lia).
    rewrite IH; [f_equal; lia | rewrite Hc, <- app_assoc; reflexivity | lia | lia].
Qed.

(** On an engine that holds the identifiers of its pools, the first loop of
    [get_all_items] counts the items of the cache. *)
Lemma count_items_wf (s : CacheLibCache) :
  wf s -> Z.of_nat (length (all_items (cache_ s))) < 2 ^ 31 ->
  count_items (pool_ids_ s) (cache_ s) 0 = Ok (Z.of_nat (length (all_items (cache_ s)))).
Proof.
  intros Hwf Hlt. rewrite Hwf.
  apply (count_items_pools (cache_ s) (pools (cache_ s)) [] 0); [reflexivity | lia | exact Hlt].
Qed.

Lemma count_items_some (c : Cache) (ids : list PoolId) :
  forall acc, Forall (fun pid => (pid < length (pools c))%nat) ids ->
    exists total, count_items ids c acc = Ok total.
Proof.
  induction ids as [| pid ids IH]; intros acc Hall.
  - exists acc. reflexivity.
  - apply Forall_cons in Hall as [Hpid Hall]. cbn [count_items]. unfold getPoolStats.
    destruct (pools c !! pid) as [p |] eqn:Hp; [| apply lookup_ge_None in Hp; lia].
    rewrite bind_Ok. apply IH, Hall.
Qed.

Lemma wf_pool_ids (s : CacheLibCache) :
  wf s -> Forall (fun pid => (pid < length (pools (cache_ s)))%nat) (pool_ids_ s).
Proof.
  intros ->. apply Forall_forall. intros pid Hpid. apply elem_of_seq in Hpid. lia.
Qed.

(** Whatever makes the copy of an item fail, it is an access out of bounds. *)
Lemma copy_item_fail (slot D : Z) (els : nat) (it : Item) (ind wts : list byte) (f : failure) :
  copy_item slot D els it ind wts = Fail f -> f = OutOfBounds.
Proof.
  unfold copy_item. intros H.
  destruct (read_int64 _) eqn:E1; [rewrite bind_Ok in H | injection H as <-; eapply read_int64_fail; eauto].
  destruct (mem_write _ _ ind) eqn:E2; [rewrite bind_Ok in H | injection H as <-; eapply mem_write_fail; eauto].
  destruct (mem_read _ _ _) eqn:E3; [rewrite bind_Ok in H | injection H as <-; eapply mem_read_fail; eauto].
  destruct (mem_write _ _ wts) eqn:E4; [discriminate | injection H as <-; eapply mem_write_fail; eauto].
Qed.

(** A copy that succeeds stays inside the buffers and read a whole row. *)
Lemma copy_item_Ok (slot D : Z) (els : nat) (it : Item) (ind wts ind' wts' : list byte) :
  copy_item slot D els it ind wts = Ok (ind', wts') ->
  length ind' = length ind /\ length wts' = length wts /\
  0 <= slot /\ slot * 8 + 8 <= Z.of_nat (length ind) /\
  (8 <= length (getKey it))%nat /\ (Z.to_nat D * els <= length (getMemory it))%nat.
Proof.
  unfold copy_item. intros H.
  destruct (read_int64 _) as [key |] eqn:E1; [rewrite bind_Ok in H | discriminate].
  destruct (mem_write _ _ ind) as [ind1 |] eqn:E2; [rewrite bind_Ok in H | discriminate].
  destruct (mem_read _ _ _) as [row |] eqn:E3; [rewrite bind_Ok in H | discriminate].
  destruct (mem_write _ _ wts) as [wts1 |] eqn:E4; [| discriminate].
  injection H as <- <-.
  apply mem_write_length in E2 as (Hl2 & Hs & Hb2). rewrite key_str_length in Hb2.
  apply mem_write_length in E4 as (Hl4 & _ & _).
  apply mem_read_Ok in E3 as (_ & Hb3 & _).
  unfold read_int64 in E1.
  destruct (mem_read 0 8 (getKey it)) eqn:E5; [| discriminate].
  apply mem_read_Ok in E5 as (_ & Hb5 & _).
  repeat split; try assumption; lia.
Qed.

Lemma scan_items_fail (D : Z) (els : nat) (items : list Item) :
  forall (idx : Z) (ind wts : list byte) (f : failure),
    scan_items D els items idx ind wts = Fail f -> f = OutOfBounds.
Proof.
  induction items as [| it items IH]; intros idx ind wts f H; [discriminate |].
  cbn [scan_items] in H.
  destruct (copy_item _ _ _ _ _ _) as [[ind1 wts1] |] eqn:E.
  - rewrite bind_Ok in H. eapply IH; eauto.
  - injection H as <-. eapply copy_item_fail; eauto.
Qed.

(** A scan that succeeds has visited every item, found room for each in the
    buffers, and read a whole row from each. *)
Lemma scan_items_Ok (D : Z) (els : nat) (items : list Item) :
  forall (idx idx' : Z) (ind wts ind' wts' : list byte),
    scan_items D els items idx ind wts = Ok (idx', ind', wts') ->
    0 <= idx -> Z.of_nat (length ind) < 2 ^ 63 ->
    idx' = idx + Z.of_nat (length items) /\
    length ind' = length ind /\ length wts' = length wts /\
    (idx + Z.of_nat (length items)) * 8 <= Z.max (idx * 8) (Z.of_nat (length ind)) /\
    Forall (fun it => (8 <= length (getKey it))%nat /\
                      (Z.to_nat D * els <= length (getMemory it))%nat) items.
Proof.
  induction items as [| it items IH]; intros idx idx' ind wts ind' wts' H Hidx Hlen.
  - injection H as <- <- <-. cbn [length]. repeat split; try lia. constructor.
  - cbn [scan_items] in H.
    destruct (copy_item _ _ _ _ _ _) as [[ind1 wts1] |] eqn:E; [| discriminate].
    rewrite bind_Ok in H.
    apply copy_item_Ok in E as (Hl1 & Hl2 & _ & Hb & Hk & Hm).
    rewrite to_int64_id in H by (unfold int64_range; lia).
    apply IH in H as (-> & Hl3 & Hl4 & Hb' & Hall); [| lia | lia].
    cbn [length]. repeat split; try lia. constructor; auto.
Qed.

(** The scan, when every item has a key and a row of the expected size:
    the items fill the slots from [r] on, in the order of the scan. *)
Lemma scan_items_capture (D : Z) (els : nat) (items : list Item) :
  forall (r : nat) (done_i rest_i done_w rest_w : list byte),
    0 <= D ->
    length done_i = (8 * r)%nat -> length done_w = (r * (Z.to_nat D * els))%nat ->
    (8 * length items <= length rest_i)%nat ->
    (length items * (Z.to_nat D * els) <= length rest_w)%nat ->
    Forall (fun it => (8 <= length (getKey it))%nat /\
                      (Z.to_nat D * els <= length (getMemory it))%nat) items ->
    Z.of_nat (r + length items) < 2 ^ 63 ->
    scan_items D els items (Z.of_nat r) (done_i ++ rest_i) (done_w ++ rest_w)
    = Ok (Z.of_nat (r + length items),
          done_i ++ captured_keys items ++ drop (8 * length items) rest_i,
          done_w ++ captured_rows (Z.to_nat D * els) items
                 ++ drop (length items * (Z.to_nat D * els)) rest_w).
Proof.
  induction items as [| it items IH];
    intros r done_i rest_i done_w rest_w HD Hdi Hdw Hri Hrw Hall Hr.
  - cbn [scan_items length captured_keys captured_rows fmap list_fmap mjoin list_join app].
    rewrite Nat.mul_0_r, Nat.mul_0_l, !drop_0, Nat.add_0_r. reflexivity.
  - apply Forall_cons in Hall as [[Hkey Hmem] Hall].
    cbn [length] in *. set (n := (Z.to_nat D * els)%nat) in *.
    cbn [scan_items].
    rewrite <- (take_drop 8 rest_i), <- (take_drop n rest_w).
    rewrite copy_item_slot;
      [| assumption | assumption | rewrite length_take; lia | assumption
       | rewrite length_take; lia | assumption | assumption].
    rewrite bind_Ok. rewrite to_int64_id by (unfold int64_range; lia).
    replace (Z.of_nat r + 1) with (Z.of_nat (S r)) by lia.
    rewrite !(app_assoc done_i), !(app_assoc done_w).
    rewrite IH; try assumption.
    + rewrite !take_drop.
      change (captured_keys (it :: items)) with (key_str (item_key it) ++ captured_keys items).
      change (captured_rows n (it :: items))
        with (take n (getMemory it) ++ captured_rows n items).
      rewrite <- !app_assoc, !drop_drop. fold n.
      repeat (f_equal; try lia).
    + rewrite length_app, key_str_length. lia.
    + rewrite length_app, length_take. fold n. lia.
    + rewrite length_drop. lia.
    + rewrite length_drop. fold n. lia.
    + lia.
Qed.

Lemma copy_item_short (slot D : Z) (els : nat) (it : Item) (ind wts : list byte) :
  (length (getMemory it) < Z.to_nat D * els)%nat ->
  copy_item slot D els it ind wts = Fail OutOfBounds.
Proof.
  intros Hshort. destruct (copy_item slot D els it ind wts) as [[ind' wts'] | f] eqn:E.
  - apply copy_item_Ok in E. lia.
  - f_equal. eapply copy_item_fail; eauto.
Qed.

Lemma scan_items_short (D : Z) (els : nat) (items : list Item) (ind wts : list byte) :
  Z.of_nat (length ind) < 2 ^ 63 ->
  Exists (fun it => (length (getMemory it) < Z.to_nat D * els)%nat) items ->
  scan_items D els items 0 ind wts = Fail OutOfBounds.
Proof.
  intros Hlen Hex.
  destruct (scan_items D els items 0 ind wts) as [[[idx' ind'] wts'] | f] eqn:E.
  - apply scan_items_Ok in E as (_ & _ & _ & _ & Hall); [| lia | assumption].
    apply Exists_exists in Hex as (it & Hit & Hshort).
    rewrite Forall_forall in Hall. specialize (Hall it Hit). lia.
  - f_equal. eapply scan_items_fail; eauto.
Qed.

Lemma take_item_elem (key : list byte) (l rest : list Item) (it : Item) :
  take_item key l = Some (it, rest) -> it ∈ l.
Proof.
  intros H. apply take_item_length in H as [_ Hperm].
  rewrite Hperm. apply list_elem_of_here.
Qed.

(** What [find] returns is an item of the cache, before and after. *)
Lemma find_elem (key : list byte) (c : Cache) (it : Item) :
  (find key c).1 = Some it -> it ∈ all_items (find key c).2.
Proof.
  unfold find. destruct (find_pools key (pools c)) as [[x ps] |] eqn:H; [| discriminate].
  cbn [fst snd]. intros [= ->]. apply in_all_items. cbn [pools set_pools].
  revert ps H. induction (pools c) as [| p qs IH]; intros ps H; [discriminate |].
  cbn [find_pools] in H. destruct (take_item key (poolItems p)) as [[x rest] |] eqn:Ht.
  - injection H as -> <-. eexists. split; [apply list_elem_of_here |].
    cbn [poolItems set_items]. apply list_elem_of_here.
  - destruct (find_pools key qs) as [[x ps'] |]; [| discriminate].
    injection H as -> <-. destruct (IH ps' eq_refl) as (q & Hq & Hx).
    exists q. split; [apply list_elem_of_further; exact Hq | exact Hx].
Qed.

Section AllItems.
Context {platform : Platform}.

(** The export when the count is the number of items and every item has a
    key and a row of the configured size. *)
Lemma export_items_spec (config : CacheConfig) (items : list Item) (dt : ScalarType) :
  0 < max_D_ config ->
  bytes_to_dtype (to_int (item_size_bytes config ÷ max_D_ config)) = Ok dt ->
  dispatch_case dt = true ->
  Forall (fun it => (8 <= length (getKey it))%nat /\
                    (Z.to_nat (max_D_ config) * elementSize dt <= length (getMemory it))%nat)
         items ->
  Z.of_nat (length items) < 2 ^ 31 ->
  export_items config (Z.of_nat (length items)) items
  = Ok (mkTensor kLong [Z.of_nat (length items)] (captured_keys items),
        mkTensor dt [Z.of_nat (length items); max_D_ config]
          (captured_rows (Z.to_nat (max_D_ config) * elementSize dt) items),
        at_tensor_long (Z.of_nat (length items))).
Proof.
  intros HD Hdt Hdisp Hall Hlen. unfold export_items, cdiv.
  rewrite decide_False by lia. rewrite bind_Ok, Hdt, bind_Ok.
  unfold at_empty. rewrite !decide_True by (repeat constructor; lia).
  rewrite !bind_Ok. cbn [scalar_type]. rewrite Hdisp.
  unfold data_ptr. cbn [scalar_type storage]. rewrite !decide_True by reflexivity.
  rewrite !bind_Ok. cbn [foldr elementSize].
  set (n := (Z.to_nat (max_D_ config) * elementSize dt)%nat).
  set (Ui := uninit <$> seq 0 _). set (Uw := uninit <$> seq 0 _).
  assert (HUi : length Ui = (8 * length items)%nat).
  { unfold Ui. rewrite length_fmap, length_seq. lia. }
  assert (HUw : length Uw = (length items * n)%nat).
  { unfold Uw. rewrite length_fmap, length_seq, Z.mul_1_r, Z2Nat.inj_mul by lia.
    unfold n. lia. }
  rewrite <- (app_nil_l Ui), <- (app_nil_l Uw).
  change 0 with (Z.of_nat 0).
  rewrite (scan_items_capture (max_D_ config) (elementSize dt) items 0 [] Ui [] Uw);
    [| lia | reflexivity | reflexivity | lia | fold n; lia | exact Hall | lia].
  rewrite bind_Ok. cbn [Nat.add app]. rewrite decide_True by reflexivity.
  fold n. rewrite !drop_ge, !app_nil_r by lia. reflexivity.
Qed.

(** C8.  [get_all_items] first counts the items, pool by pool, and then
    visits them.  On an engine that holds the identifiers of its pools, with
    a configured row of [max_D_] elements of a supported type, and items
    that have such rows, the two numbers agree: the call returns the keys and
    the rows of all items, and their number.  For an empty cache these are
    arrays of length zero and the number 0.  Whenever the number of items
    visited is not the number counted before, the call does not return: the
    check after the scan fails, unless the scan has already left the
    buffers. *)
Theorem get_all_items_count_check (s : CacheLibCache) (dt : ScalarType) :
  wf s -> 0 < max_D_ (cache_config_ s) ->
  bytes_to_dtype (to_int (item_size_bytes (cache_config_ s) ÷ max_D_ (cache_config_ s)))
    = Ok dt ->
  dispatch_case dt = true ->
  Forall (fun it => (8 <= length (getKey it))%nat /\
                    (Z.to_nat (max_D_ (cache_config_ s)) * elementSize dt
                     <= length (getMemory it))%nat)
         (all_items (cache_ s)) ->
  Z.of_nat (length (all_items (cache_ s))) < 2 ^ 31 ->
  (exists ind wts cnt,
     get_all_items s = Ok (ind, wts, cnt) /\
     int64s cnt = [Z.of_nat (length (all_items (cache_ s)))] /\
     sizes ind = [Z.of_nat (length (all_items (cache_ s)))] /\
     sizes wts = [Z.of_nat (length (all_items (cache_ s))); max_D_ (cache_config_ s)] /\
     int64s ind = item_key <$> all_items (cache_ s) /\
     (forall i it, all_items (cache_ s) !! i = Some it ->
        row_bytes (Z.to_nat (max_D_ (cache_config_ s)) * elementSize dt) i (storage wts)
        = Some (take (Z.to_nat (max_D_ (cache_config_ s)) * elementSize dt) (getMemory it))) /\
     (all_items (cache_ s) = [] ->
        storage ind = [] /\ storage wts = [] /\ int64s cnt = [0])) /\
  (forall total items,
     int_range total -> total ≠ Z.of_nat (length items) ->
     exists f, export_items (cache_config_ s) total items = Fail f) /\
  (forall total items,
     int_range total -> Z.of_nat (length items) < total ->
     Forall (fun it => (8 <= length (getKey it))%nat /\
                       (Z.to_nat (max_D_ (cache_config_ s)) * elementSize dt
                        <= length (getMemory it))%nat) items ->
     export_items (cache_config_ s) total items
     = Fail (CheckFailed total (Z.of_nat (length items)))).
Proof.
  intros Hwf HD Hdt Hdisp Hall Hlen. split; [| split].
  - unfold get_all_items. rewrite count_items_wf, bind_Ok by assumption.
    rewrite (export_items_spec _ _ dt) by assumption.
    eexists _, _, _. split; [reflexivity |].
    set (items := all_items (cache_ s)) in *.
    assert (Hcnt : int64s (at_tensor_long (Z.of_nat (length items)))
                   = [Z.of_nat (length items)]).
    { unfold int64s, at_tensor_long. cbn [storage]. rewrite key_str_length.
      change (8 / 8)%nat with 1%nat. cbn [int64_elems]. f_equal.
      rewrite take_ge by (rewrite key_str_length; lia).
      unfold key_str. rewrite little_endian_to_Z_to_little_endian by lia.
      change (8 * 8) with 64. rewrite to_int64_mod.
      apply to_int64_id. unfold int64_range. lia. }
    split; [exact Hcnt |]. split; [reflexivity |]. split; [reflexivity |].
    split; [| split].
    + unfold int64s. cbn [storage]. rewrite captured_keys_length.
      rewrite Nat.mul_comm, Nat.div_mul by lia.
      rewrite <- (Nat.add_0_r (length items)), <- (app_nil_r (captured_keys items)).
      rewrite int64_elems_captured. cbn [int64_elems]. apply app_nil_r.
    + intros i it Hit. cbn [storage].
      rewrite <- (app_nil_r (captured_rows _ _)).
      apply captured_rows_lookup; [| exact Hit].
      eapply Forall_impl; [exact Hall |]. intros ? [_ ?]. assumption.
    + intros Hnil. rewrite Hnil in *. cbn [storage]. auto.
  - intros total items Hrange Hne.
    destruct (export_items (cache_config_ s) total items) as [[[ind wts] cnt] | f] eqn:E;
      [| eauto].
    exfalso. unfold export_items in E.
    destruct (cdiv _ _) as [width |]; [rewrite bind_Ok in E | discriminate].
    destruct (bytes_to_dtype (to_int width)) as [dt' |];
      [rewrite bind_Ok in E | discriminate].
    unfold at_empty in E.
    destruct (decide (Forall _ [total])) as [Ht |]; [rewrite bind_Ok in E | discriminate].
    destruct (decide (Forall _ [total; _])); [rewrite bind_Ok in E | discriminate].
    cbn [scalar_type storage] in E.
    destruct (dispatch_case dt'); [| discriminate].
    unfold data_ptr in E. cbn [scalar_type storage] in E.
    rewrite !decide_True, !bind_Ok in E by reflexivity.
    destruct (scan_items _ _ _ _ _ _) as [[[idx' ind'] wts'] |] eqn:Escan;
      [rewrite bind_Ok in E | discriminate].
    destruct (decide (total = idx')) as [-> |]; [| discriminate].
    apply Forall_singleton in Ht.
    apply scan_items_Ok in Escan as (Hidx & _); [lia | lia |].
    rewrite length_fmap, length_seq. cbn [foldr elementSize].
    unfold int_range in Hrange. lia.
  - intros total items Hrange Hlt Hitems. unfold export_items, cdiv.
    rewrite decide_False by lia. rewrite bind_Ok, Hdt, bind_Ok.
    unfold at_empty. rewrite !decide_True by (repeat constructor; lia).
    rewrite !bind_Ok. cbn [scalar_type]. rewrite Hdisp.
    unfold data_ptr. cbn [scalar_type storage]. rewrite !decide_True by reflexivity.
    rewrite !bind_Ok. cbn [foldr elementSize].
    set (n := (Z.to_nat (max_D_ (cache_config_ s)) * elementSize dt)%nat).
    set (Ui := uninit <$> seq 0 _). set (Uw := uninit <$> seq 0 _).
    assert (HUi : length Ui = (8 * Z.to_nat total)%nat).
    { unfold Ui. rewrite length_fmap, length_seq. lia. }
    assert (HUw : length Uw = (Z.to_nat total * n)%nat).
    { unfold Uw. rewrite length_fmap, length_seq, Z.mul_1_r, Z2Nat.inj_mul by lia.
      unfold n. lia. }
    rewrite <- (app_nil_l Ui), <- (app_nil_l Uw).
    change 0 with (Z.of_nat 0).
    rewrite (scan_items_capture (max_D_ (cache_config_ s)) (elementSize dt) items 0 [] Ui [] Uw);
      [| lia | reflexivity | reflexivity | lia | fold n; nia | exact Hitems
       | unfold int_range in Hrange; lia].
    rewrite bind_Ok. cbn [Nat.add]. rewrite decide_False by lia. reflexivity.
Qed.

End AllItems.

Lemma get_all_items_count_check_witness :
  (exists ind wts cnt,
     @get_all_items plain_platform row_cycle.2 = Ok (ind, wts, cnt) /\
     int64s cnt = [2] /\ int64s ind = [3; 2]) /\
  (exists ind wts cnt,
     @get_all_items plain_platform small_engine = Ok (ind, wts, cnt) /\
     storage ind = [] /\ storage wts = [] /\ int64s cnt = [0]).
Proof.
  split.
  - destruct (@get_all_items_count_check plain_platform row_cycle.2 kFloat)
      as [(ind & wts & cnt & H1 & H2 & _ & _ & H5 & _) _].
    + reflexivity.
    + reflexivity.
    + reflexivity.
    + reflexivity.
    + vm_compute. repeat constructor.
    + reflexivity.
    + exists ind, wts, cnt. split; [exact H1 |]. split; [exact H2 |].
      rewrite H5. reflexivity.
  - destruct (@get_all_items_count_check plain_platform small_engine kFloat)
      as [(ind & wts & cnt & H1 & _ & _ & _ & _ & _ & H7) _].
    + reflexivity.
    + reflexivity.
    + reflexivity.
    + reflexivity.
    + vm_compute. constructor.
    + reflexivity.
    + exists ind, wts, cnt. split; [exact H1 |]. apply H7. reflexivity.
Defined.

(** *** The element type of the rows *)

Section ElementType.
Context {platform : Platform}.

(** The type [bytes_to_dtype] gives for a width has elements of that width. *)
Lemma bytes_to_dtype_width (w : Z) (dt : ScalarType) :
  bytes_to_dtype w = Ok dt -> Z.of_nat (elementSize dt) = w.
Proof.
  unfold bytes_to_dtype. repeat destruct (decide _); intros [= <-]; subst; reflexivity.
Qed.

(** C6.  [bytes_to_dtype] maps the widths 1, 2, 4 and 8 to the types of a
    byte, a half, a float and a double.  The constructor does not look at
    the width of the rows: it succeeds whenever the allocator accepts the
    size of the cache.  [get_all_items] computes the width as
    [item_size_bytes / max_D_] and passes it on as an [int], which leaves
    every width an [int] can hold as it is.  For a width of the table the
    call returns rows of the type the table gives, which has elements of
    that width, when the dispatch macro has a case for the type; when the
    macro has none, the call throws the error of the macro.  For any other
    width the call raises "Unsupported dtype".  An engine the constructor
    has just built exports arrays of length zero, of the inferred type. *)
Theorem dtype_inferred_at_call_time (config : CacheConfig) (ram : N) :
  ram_cache_size (cache_size_bytes config) = Some ram ->
  max_D_ config ≠ 0 ->
  (bytes_to_dtype 1 = Ok kByte /\ bytes_to_dtype 2 = Ok kHalf /\
   bytes_to_dtype 4 = Ok kFloat /\ bytes_to_dtype 8 = Ok kDouble) /\
  (exists s, CacheLibCache_new config = Ok s /\ wf s /\ cache_config_ s = config /\
             all_items (cache_ s) = []) /\
  (int_range (item_size_bytes config ÷ max_D_ config) ->
   to_int (item_size_bytes config ÷ max_D_ config) = item_size_bytes config ÷ max_D_ config) /\
  (forall s, wf s -> cache_config_ s = config ->
     (forall ind wts cnt, get_all_items s = Ok (ind, wts, cnt) ->
        bytes_to_dtype (to_int (item_size_bytes config ÷ max_D_ config))
        = Ok (scalar_type wts)) /\
     (to_int (item_size_bytes config ÷ max_D_ config) ≠ 1 ->
      to_int (item_size_bytes config ÷ max_D_ config) ≠ 2 ->
      to_int (item_size_bytes config ÷ max_D_ config) ≠ 4 ->
      to_int (item_size_bytes config ÷ max_D_ config) ≠ 8 ->
      get_all_items s = Fail (Throw "Unsupported dtype"))) /\
  (forall s dt, wf s -> cache_config_ s = config ->
     bytes_to_dtype (to_int (item_size_bytes config ÷ max_D_ config)) = Ok dt ->
     0 < max_D_ config ->
     Z.of_nat (length (all_items (cache_ s))) < 2 ^ 31 ->
     Z.of_nat (elementSize dt) = to_int (item_size_bytes config ÷ max_D_ config) /\
     (dispatch_case dt = true ->
      Forall (fun it => (8 <= length (getKey it))%nat /\
                        (Z.to_nat (max_D_ config) * elementSize dt
                         <= length (getMemory it))%nat)
             (all_items (cache_ s)) ->
      exists ind wts cnt,
        get_all_items s = Ok (ind, wts, cnt) /\
        scalar_type wts = dt /\
        sizes wts = [Z.of_nat (length (all_items (cache_ s))); max_D_ config] /\
        length (storage wts)
        = (length (all_items (cache_ s)) * (Z.to_nat (max_D_ config) * elementSize dt))%nat) /\
     (dispatch_case dt = false ->
      get_all_items s
      = Fail (Throw "get_all_items not implemented for the scalar type"))).
Proof.
  intros Hram HD. split; [repeat split; reflexivity |]. split.
  { destruct (CacheLibCache_new_wf config ram Hram) as (s & Hs & Hwf & Hcfg & Hnil). eauto. }
  split; [apply to_int_id |]. split.
  - intros s Hwf Hcfg.
    destruct (count_items_some (cache_ s) (pool_ids_ s) 0 (wf_pool_ids s Hwf)) as [total Htotal].
    unfold get_all_items. rewrite Htotal, bind_Ok, Hcfg. unfold export_items, cdiv.
    rewrite decide_False by exact HD. rewrite bind_Ok.
    split.
    + intros ind wts cnt E.
      destruct (bytes_to_dtype (to_int (item_size_bytes config ÷ max_D_ config))) as [dt |];
        [rewrite bind_Ok in E | discriminate].
      unfold at_empty in E.
      destruct (decide (Forall _ [total])); [rewrite bind_Ok in E | discriminate].
      destruct (decide (Forall _ [total; _])); [rewrite bind_Ok in E | discriminate].
      cbn [scalar_type storage] in E.
      destruct (dispatch_case dt); [| discriminate].
      unfold data_ptr in E. cbn [scalar_type storage] in E.
      rewrite !decide_True, !bind_Ok in E by reflexivity.
      destruct (scan_items _ _ _ _ _ _) as [[[idx' ind'] wts'] |];
        [rewrite bind_Ok in E | discriminate].
      destruct (decide (total = idx')); [| discriminate].
      injection E as <- <- <-. reflexivity.
    + intros H1 H2 H4 H8. unfold bytes_to_dtype.
      rewrite !decide_False by assumption. reflexivity.
  - intros s dt Hwf Hcfg Hdt Hpos Hlen.
    split; [apply bytes_to_dtype_width; exact Hdt |].
    unfold get_all_items. rewrite (count_items_wf s Hwf Hlen), bind_Ok, Hcfg. split.
    + intros Hdisp Hall.
      rewrite (export_items_spec config _ dt Hpos Hdt Hdisp Hall Hlen).
      eexists _, _, _. split; [reflexivity |]. cbn [scalar_type sizes storage].
      split; [reflexivity |]. split; [reflexivity |].
      apply captured_rows_length.
      eapply Forall_impl; [exact Hall |]. intros it [_ Hm]. exact Hm.
    + intros Hdisp. unfold export_items, cdiv.
      rewrite decide_False by exact HD. rewrite bind_Ok, Hdt, bind_Ok.
      unfold at_empty. rewrite !decide_True by (repeat constructor; lia).
      rewrite !bind_Ok. cbn [scalar_type]. rewrite Hdisp. reflexivity.
Qed.

End ElementType.

Lemma dtype_inferred_at_call_time_witness :
  (exists ind wts cnt,
     @get_all_items plain_platform row_cycle.2 = Ok (ind, wts, cnt) /\
     scalar_type wts = kFloat /\ sizes wts = [2; 1] /\ length (storage wts) = 8%nat) /\
  (exists s, @CacheLibCache_new plain_platform odd_config = Ok s /\ wf s /\
             cache_config_ s = odd_config /\ all_items (cache_ s) = []) /\
  (forall s, wf s -> cache_config_ s = odd_config ->
     @get_all_items plain_platform s = Fail (Throw "Unsupported dtype")).
Proof.
  split.
  - destruct (@dtype_inferred_at_call_time plain_platform small_config 24)
      as (_ & _ & _ & _ & Hrows).
    + reflexivity.
    + discriminate.
    + destruct (Hrows row_cycle.2 kFloat) as (_ & Hret & _).
      * reflexivity.
      * reflexivity.
      * reflexivity.
      * reflexivity.
      * vm_compute. reflexivity.
      * apply Hret; [reflexivity |]. repeat constructor.
  - destruct (@dtype_inferred_at_call_time plain_platform odd_config 24)
      as (_ & Hnew & _ & Hget & _).
    + reflexivity.
    + discriminate.
    + split; [exact Hnew |]. intros s Hwf Hcfg.
      destruct (Hget s Hwf Hcfg) as [_ Hfail]. apply Hfail; discriminate.
Defined.

(** *** Rows of another size than the configured one *)

Section RowSize.
Context {platform : Platform}.

Lemma eviction_cb_set_config (data : RemoveCbData) (s : CacheLibCache)
    (config : CacheConfig) :
  eviction_cb data (set_config s config)
  = (fun s' => set_config s' config) <$> eviction_cb data s.
Proof.
  unfold eviction_cb.
  cbn [set_config evicted_weights_ptr_ evicted_indices_ptr_ eviction_row_id].
  destruct (deref (evicted_weights_ptr_ s)) as [wts |]; [| reflexivity].
  cbn [mbind res_bind]. destruct (dispatch_case _); [| reflexivity].
  destruct (decide _); [| reflexivity].
  repeat (bind_case; try reflexivity).
Qed.

Lemma run_callbacks_set_config (evs : list RemoveCbData) (s : CacheLibCache)
    (config : CacheConfig) :
  run_callbacks evs (set_config s config)
  = (fun s' => set_config s' config) <$> run_callbacks evs s.
Proof.
  revert s. induction evs as [| d evs IH]; intros s; [reflexivity |].
  cbn [run_callbacks]. rewrite eviction_cb_set_config.
  destruct (eviction_cb d s) as [s1 |]; [| reflexivity].
  cbn [fmap res_fmap mbind res_bind]. apply IH.
Qed.

(** [put] does the same whatever the configuration says about the rows. *)
Lemma put_set_config (key : Z) (data : Tensor) (s : CacheLibCache) (config : CacheConfig) :
  put key data (set_config s config)
  = (fun r => (r.1, set_config r.2 config)) <$> put key data s.
Proof.
  unfold put, put_traced.
  change (get_pool_id key (set_config s config)) with (get_pool_id key s).
  destruct (get_pool_id key s) as [pid |]; [| reflexivity].
  cbn [mbind res_bind cache_ set_config].
  destruct (allocate _ _ _ _) as [[[evs h] c] |]; [| reflexivity].
  cbn [mbind res_bind].
  change (set_cache (set_config s config) c) with (set_config (set_cache s c) config).
  rewrite run_callbacks_set_config.
  destruct (run_callbacks evs (set_cache s c)) as [s1 |]; [| reflexivity].
  cbn [fmap res_fmap mbind res_bind]. destruct h as [h |]; [| reflexivity].
  destruct (mem_read _ _ _) as [bytes |]; [| reflexivity].
  cbn [mbind res_bind cache_ set_config].
  destruct (insertOrReplace _ _ _) as [evs' c'].
  change (set_cache (set_config s1 config) c') with (set_config (set_cache s1 c') config).
  rewrite run_callbacks_set_config.
  destruct (run_callbacks evs' (set_cache s1 c')) as [s2 |]; reflexivity.
Qed.

(** The export leaves the buffers when an item has a shorter row than the
    configuration says. *)
Lemma get_all_items_short (s : CacheLibCache) (dt : ScalarType) :
  wf s -> 0 < max_D_ (cache_config_ s) ->
  bytes_to_dtype (to_int (item_size_bytes (cache_config_ s) ÷ max_D_ (cache_config_ s)))
    = Ok dt ->
  dispatch_case dt = true ->
  Z.of_nat (length (all_items (cache_ s))) < 2 ^ 31 ->
  Exists (fun it => (length (getMemory it)
                     < Z.to_nat (max_D_ (cache_config_ s)) * elementSize dt)%nat)
         (all_items (cache_ s)) ->
  get_all_items s = Fail OutOfBounds.
Proof.
  intros Hwf HD Hdt Hdisp Hlen Hex. unfold get_all_items.
  rewrite count_items_wf, bind_Ok by assumption. unfold export_items, cdiv.
  rewrite decide_False by lia. rewrite bind_Ok, Hdt, bind_Ok.
  unfold at_empty. rewrite !decide_True by (repeat constructor; lia).
  rewrite !bind_Ok. cbn [scalar_type]. rewrite Hdisp.
  unfold data_ptr. cbn [scalar_type storage]. rewrite !decide_True by reflexivity.
  rewrite !bind_Ok. rewrite scan_items_short; [reflexivity | | exact Hex].
  rewrite length_fmap, length_seq. cbn [foldr elementSize]. lia.
Qed.

(** C10.  A [put] that returned [true] returns [true] as well, and leaves the
    same cache, under any other configuration of the size of the rows: it
    checks the row against nothing.  The item it stores has the bytes of the
    tensor, as many as the tensor has.  If these are fewer than the
    configured row, [get_all_items] reads past the end of the item, and so
    does the removal callback when the item is evicted into buffers of wider
    rows.  If they are more, no row that [get_all_items] returns is the row
    that was stored. *)
Theorem put_does_not_validate_row_size
    (key : Z) (data : Tensor) (s s' : CacheLibCache) :
  put key data s = Ok (true, s') ->
  (forall config, put key data (set_config s config) = Ok (true, set_config s' config)) /\
  (exists it, it ∈ all_items (cache_ s') /\ getKey it = key_str key /\
              getMemory it = tensor_bytes data /\ length (getMemory it) = nbytes data) /\
  (forall dt,
     wf s' -> 0 < max_D_ (cache_config_ s') ->
     bytes_to_dtype (to_int (item_size_bytes (cache_config_ s') ÷ max_D_ (cache_config_ s')))
       = Ok dt ->
     dispatch_case dt = true ->
     Z.of_nat (length (all_items (cache_ s'))) < 2 ^ 31 ->
     ((nbytes data < Z.to_nat (max_D_ (cache_config_ s')) * elementSize dt)%nat ->
      get_all_items s' = Fail OutOfBounds) /\
     ((Z.to_nat (max_D_ (cache_config_ s')) * elementSize dt < nbytes data)%nat ->
      forall ind wts cnt i, get_all_items s' = Ok (ind, wts, cnt) ->
        row_bytes (Z.to_nat (max_D_ (cache_config_ s')) * elementSize dt) i (storage wts)
        ≠ Some (tensor_bytes data))) /\
  (forall t ind wts D,
     evicted_indices_ptr_ t = Some ind -> scalar_type ind = kLong ->
     evicted_weights_ptr_ t = Some wts -> dispatch_case (scalar_type wts) = true ->
     sizes wts !! 1%nat = Some D ->
     (nbytes data < Z.to_nat D * elementSize (scalar_type wts))%nat ->
     eviction_cb (mkRemoveCbData kEviction (mkItem (key_str key) (tensor_bytes data))) t
     = Fail OutOfBounds).
Proof.
  intros Hput. pose proof (put_stores_row _ _ _ _ Hput) as [Hfind Hlen].
  assert (Hin : mkItem (key_str key) (tensor_bytes data) ∈ all_items (cache_ s')).
  { pose proof (find_elem (key_str key) (cache_ s')
                  (mkItem (key_str key) (tensor_bytes data))) as H.
    rewrite Hfind in H. apply H. reflexivity. }
  split; [| split; [| split]].
  - intros config. rewrite put_set_config, Hput. reflexivity.
  - eexists. split; [exact Hin |]. cbn [getKey getMemory]. auto.
  - intros dt Hwf HD Hdt Hdisp Hcount. split.
    + intros Hshort. apply (get_all_items_short s' dt); try assumption.
      apply Exists_exists. eexists. split; [exact Hin |].
      cbn [getMemory]. lia.
    + intros Hlong ind wts cnt i Hget Hrow.
      apply sublist_lookup_length in Hrow. lia.
  - intros t ind wts D Hi Hl Hw Hd HD Hshort. unfold eviction_cb.
    rewrite Hw. cbn [deref]. rewrite bind_Ok, Hd.
    cbn [context item]. rewrite decide_True by reflexivity.
    rewrite Hi. cbn [deref]. rewrite bind_Ok.
    unfold data_ptr, size. rewrite !decide_True by auto. rewrite !bind_Ok.
    rewrite HD, bind_Ok, copy_item_short; [reflexivity |].
    cbn [getMemory]. lia.
Qed.

End RowSize.

Lemma put_does_not_validate_row_size_witness :
  @put plain_platform 5 short_row (set_config small_engine odd_config)
    = Ok (true, set_config short_row_engine odd_config) /\
  @get_all_items plain_platform short_row_engine = Fail OutOfBounds /\
  @eviction_cb plain_platform
     (mkRemoveCbData kEviction (mkItem (key_str 5) (tensor_bytes short_row))) small_armed
    = Fail OutOfBounds.
Proof.
  destruct (@put_does_not_validate_row_size plain_platform 5 short_row small_engine
              short_row_engine) as (Hcfg & _ & Hget & Hcb).
  - reflexivity.
  - split; [apply Hcfg |]. split.
    + destruct (Hget kFloat) as [Hshort _].
      * reflexivity.
      * reflexivity.
      * reflexivity.
      * reflexivity.
      * reflexivity.
      * apply Hshort. vm_compute. lia.
    + eapply (Hcb small_armed).
      * reflexivity.
      * reflexivity.
      * reflexivity.
      * reflexivity.
      * reflexivity.
      * vm_compute. lia.
Defined.

(** *** What holds of every engine a program arrives at *)

Lemma find_all_items (key : list byte) (c : Cache) :
  Permutation (all_items (find key c).2) (all_items c).
Proof.
  unfold find. destruct (find_pools key (pools c)) as [[it ps] |] eqn:H; [| reflexivity].
  apply find_pools_shape in H as [_ Hall]. cbn [snd]. unfold all_items.
  cbn [pools set_pools]. induction Hall as [| p p' ps0 ps' Hp _ IH]; [reflexivity |].
  cbn [fmap list_fmap mjoin list_join]. rewrite Hp.
  apply Permutation_app_head. symmetry. symmetry in IH. exact IH.
Qed.

Section Reachable.
Context {platform : Platform}.

(** The engine holds the identifiers of its pools and the configuration it
    was built with, and every item in its cache has a key of eight bytes
    and a row of [n] bytes. *)
Lemma reachable_invariant (config : CacheConfig) (n : nat) (s : CacheLibCache) :
  reachable config n s ->
  wf s /\ cache_config_ s = config /\ Forall (row_item n) (all_items (cache_ s)).
Proof.
  induction 1 as [s Hnew | s key data ok s' _ IH Hn Hput | s key _ IH
                  | s indices weights count s' _ IH Hinit | s _ IH].
  - unfold CacheLibCache_new, initializeCacheLib in Hnew.
    destruct (ram_cache_size (cache_size_bytes config)) as [ram |] eqn:Hram;
      [| discriminate].
    destruct (CacheLibCache_new_wf config ram Hram) as (s0 & Hs0 & Hwf & Hcfg & Hnil).
    unfold CacheLibCache_new, initializeCacheLib in Hs0. rewrite Hram in Hs0.
    rewrite Hs0 in Hnew. apply Ok_inj in Hnew. subst s0.
    split; [exact Hwf |]. split; [exact Hcfg |]. rewrite Hnil. constructor.
  - destruct IH as (Hwf & Hcfg & Hall).
    apply put_inv in Hput as (evs & Hput).
    split; [eapply put_traced_wf; eauto |]. split.
    + apply put_traced_inv in Hput as (pid & evs1 & h & c & s1 & _ & _ & Hcb1 & H).
      apply run_callbacks_frame in Hcb1 as (_ & _ & Hc1 & _).
      destruct h as [h |].
      * destruct H as (bytes & s2 & _ & Hcb2 & [= _ _ ->]).
        apply run_callbacks_frame in Hcb2 as (_ & _ & Hc2 & _).
        rewrite Hc2. cbn [cache_config_ set_cache]. rewrite Hc1. exact Hcfg.
      * injection H as _ _ ->. cbn [cache_config_ add_xlog]. rewrite Hc1. exact Hcfg.
    + eapply (put_traced_items (row_item n)); [exact Hput | exact Hall |].
      intros bytes Hb. split; [apply key_str_length | cbn [getMemory]; lia].
  - destruct IH as (Hwf & Hcfg & Hall).
    split; [apply get_wf; exact Hwf |]. split.
    + unfold get. destruct (find _ _) as [[it |] c]; exact Hcfg.
    + assert (Hc : cache_ (get key s).2 = (find (key_str key) (cache_ s)).2).
      { unfold get. destruct (find _ _) as [[it |] c]; reflexivity. }
      rewrite Hc. eapply Permutation_Forall; [| exact Hall].
      symmetry. apply find_all_items.
  - destruct IH as (Hwf & Hcfg & Hall).
    unfold init_tensor_for_l2_eviction in Hinit.
    destruct (at_ones_times_minus_one _ _) as [ind |]; [rewrite bind_Ok in Hinit | discriminate].
    destruct (size weights 1) as [D |]; [rewrite bind_Ok in Hinit | discriminate].
    destruct (at_empty _ _) as [wts |]; [rewrite bind_Ok in Hinit | discriminate].
    apply Ok_inj in Hinit. subst s'. auto.
  - exact IH.
Qed.

(** On every such engine, when the configured row is [n] bytes of a
    supported type, [get_all_items] returns, and returns the number of the
    items in the cache. *)
Corollary get_all_items_reachable (config : CacheConfig) (dt : ScalarType) (s : CacheLibCache) :
  reachable config (Z.to_nat (max_D_ config) * elementSize dt) s ->
  0 < max_D_ config ->
  bytes_to_dtype (to_int (item_size_bytes config ÷ max_D_ config)) = Ok dt ->
  dispatch_case dt = true ->
  Z.of_nat (length (all_items (cache_ s))) < 2 ^ 31 ->
  get_all_items s
  = Ok (mkTensor kLong [Z.of_nat (length (all_items (cache_ s)))]
          (captured_keys (all_items (cache_ s))),
        mkTensor dt [Z.of_nat (length (all_items (cache_ s))); max_D_ config]
          (captured_rows (Z.to_nat (max_D_ config) * elementSize dt) (all_items (cache_ s))),
        at_tensor_long (Z.of_nat (length (all_items (cache_ s))))).
Proof.
  intros Hreach HD Hdt Hdisp Hlen.
  apply reachable_invariant in Hreach as (Hwf & Hcfg & Hall).
  unfold get_all_items. rewrite count_items_wf, bind_Ok, Hcfg by assumption.
  apply export_items_spec; try assumption.
  eapply Forall_impl; [exact Hall |]. intros it [Hk Hm]. lia.
Qed.

End Reachable.

(** ** Further properties of the engine *)

(** *** Keys *)

(** X1.  A key of 64 bits goes to the allocator as eight bytes ([put],
    [get]) and comes back from them as the same key (the removal callback,
    [get_all_items]); two different keys never have the same bytes. *)
Theorem key_bytes_round_trip (key key' : Z) (mem : list byte) :
  int64_range key ->
  length (key_str key) = 8%nat /\
  read_int64 (key_str key) = Ok key /\
  item_key (mkItem (key_str key) mem) = key /\
  (int64_range key' -> key_str key = key_str key' -> key = key').
Proof.
  intros Hk. split; [apply key_str_length |].
  split; [apply read_int64_key_str_id; exact Hk |]. split.
  - unfold item_key. cbn [getKey].
    rewrite take_ge by (rewrite key_str_length; lia).
    unfold key_str. rewrite little_endian_to_Z_to_little_endian by lia.
    change (8 * 8) with 64. rewrite to_int64_mod. apply to_int64_id, Hk.
  - intros Hk' Heq.
    pose proof (read_int64_key_str_id key Hk) as H1.
    pose proof (read_int64_key_str_id key' Hk') as H2.
    rewrite Heq, H2 in H1. apply Ok_inj in H1. symmetry. exact H1.
Qed.

Lemma key_bytes_round_trip_witness :
  length (key_str (-5)) = 8%nat /\
  read_int64 (key_str (-5)) = Ok (-5) /\
  item_key (mkItem (key_str (-5)) [1; 2; 3; 4]) = -5 /\
  (int64_range 9 -> key_str (-5) = key_str 9 -> -5 = 9).
Proof.
  apply (key_bytes_round_trip (-5) 9 [1; 2; 3; 4]).
  unfold int64_range. lia.
Defined.

(** *** [get] *)

Lemma take_item_None (key : list byte) (l : list Item) :
  take_item key l = None <-> Forall (fun it => getKey it ≠ key) l.
Proof.
  induction l as [| it l IH].
  - split; [constructor | reflexivity].
  - cbn [take_item]. unfold has_key at 1.
    destruct (decide (getKey it = key)) as [Heq | Hne].
    + rewrite bool_decide_eq_true_2 by exact Heq. split; [discriminate |].
      intros H. apply Forall_cons in H as [H _]. contradiction.
    + rewrite bool_decide_eq_false_2 by exact Hne.
      destruct (take_item key l) as [[x rest] |].
      * split; [discriminate |]. intros H. apply Forall_cons in H as [_ H].
        apply IH in H. discriminate.
      * split; [| reflexivity]. intros _. constructor; [exact Hne | apply IH; reflexivity].
Qed.

Lemma find_pools_None (key : list byte) (ps : list Pool) :
  find_pools key ps = None <-> Forall (fun it => getKey it ≠ key) (mjoin (poolItems <$> ps)).
Proof.
  induction ps as [| p ps IH].
  - split; [constructor | reflexivity].
  - cbn [find_pools fmap list_fmap mjoin list_join]. rewrite Forall_app.
    destruct (take_item key (poolItems p)) as [[x rest] |] eqn:Ht.
    + split; [discriminate |]. intros [H _]. apply take_item_None in H. congruence.
    + apply take_item_None in Ht.
      destruct (find_pools key ps) as [[x ps'] |].
      * split; [discriminate |]. intros [_ H]. apply IH in H. discriminate.
      * split; [| reflexivity]. intros _. split; [exact Ht | apply IH; reflexivity].
Qed.

Lemma take_item_key (key : list byte) (l rest : list Item) (it : Item) :
  take_item key l = Some (it, rest) -> getKey it = key.
Proof.
  intros H. apply take_item_length in H as [Hk _].
  unfold has_key in Hk. apply bool_decide_eq_true in Hk. exact Hk.
Qed.

Lemma find_pools_key (key : list byte) (ps ps' : list Pool) (it : Item) :
  find_pools key ps = Some (it, ps') ->
  getKey it = key /\ it ∈ mjoin (poolItems <$> ps).
Proof.
  revert ps'. induction ps as [| p ps IH]; intros ps' H; [discriminate |].
  cbn [find_pools] in H. cbn [fmap list_fmap mjoin list_join]. rewrite elem_of_app.
  destruct (take_item key (poolItems p)) as [[x rest] |] eqn:Ht.
  - injection H as -> <-. split; [eapply take_item_key; eauto |].
    left. eapply take_item_elem; eauto.
  - destruct (find_pools key ps) as [[x ps''] |]; [| discriminate].
    injection H as -> <-. destruct (IH ps'' eq_refl) as [Hk Hin]. auto.
Qed.

(** X2.  [get] returns nothing exactly when no item of the cache has the
    bytes of the key as its key, and then it leaves the engine as it is.
    What a hit returns is the row of an item of the cache with that key. *)
Theorem get_miss_and_hit (key : Z) (s : CacheLibCache) :
  ((get key s).1 = None <->
   Forall (fun it => getKey it ≠ key_str key) (all_items (cache_ s))) /\
  ((get key s).1 = None -> (get key s).2 = s) /\
  (forall row, (get key s).1 = Some row ->
     exists it, it ∈ all_items (cache_ s) /\ getKey it = key_str key /\ getMemory it = row).
Proof.
  unfold get, find, all_items.
  pose proof (find_pools_None (key_str key) (pools (cache_ s))) as Hnone.
  destruct (find_pools (key_str key) (pools (cache_ s))) as [[it ps] |] eqn:Hf.
  - cbn [fst snd]. split; [| split].
    + split; [discriminate |]. intros H. apply Hnone in H. discriminate.
    + discriminate.
    + intros row [= <-]. apply find_pools_key in Hf as [Hk Hin]. eauto.
  - cbn [fst snd]. split; [| split].
    + split; [intros _; apply Hnone; reflexivity | reflexivity].
    + intros _. destruct s. reflexivity.
    + discriminate.
Qed.

(** The first item with a key is the same before and after another item
    was moved to the front. *)
Lemma take_item_promoted (key key' : list byte) (l rest : list Item) (it : Item) :
  take_item key l = Some (it, rest) ->
  fst <$> take_item key' (it :: rest) = fst <$> take_item key' l.
Proof.
  revert rest. induction l as [| x l IH]; intros rest H; [discriminate |].
  cbn [take_item] in H. destruct (has_key key x) eqn:Hkx.
  - injection H as <- <-. reflexivity.
  - destruct (take_item key l) as [[y r] |] eqn:Hl; [| discriminate].
    injection H as <- <-. specialize (IH r eq_refl).
    pose proof (take_item_key _ _ _ _ Hl) as Hy.
    cbn [take_item] in *. destruct (has_key key' y) eqn:Hky.
    + unfold has_key in Hky, Hkx. apply bool_decide_eq_true in Hky.
      assert (key' = key) as -> by congruence.
      unfold has_key. rewrite Hkx, Hl. reflexivity.
    + destruct (has_key key' x); [reflexivity |].
      destruct (take_item key' r) as [[z r'] |], (take_item key' l) as [[z' r''] |];
        cbn in *; congruence.
Qed.

Lemma find_pools_promoted (key key' : list byte) (ps ps' : list Pool) (it : Item) :
  find_pools key ps = Some (it, ps') ->
  fst <$> find_pools key' ps' = fst <$> find_pools key' ps.
Proof.
  revert ps'. induction ps as [| p ps IH]; intros ps' H; [discriminate |].
  cbn [find_pools] in H.
  destruct (take_item key (poolItems p)) as [[x rest] |] eqn:Ht.
  - injection H as -> <-. cbn [find_pools poolItems set_items].
    pose proof (take_item_promoted key key' _ _ _ Ht) as Hp.
    destruct (take_item key' (it :: rest)) as [[y r] |],
             (take_item key' (poolItems p)) as [[y' r'] |]; cbn in Hp;
      try discriminate.
    + injection Hp as ->. reflexivity.
    + destruct (find_pools key' ps) as [[z qs] |]; reflexivity.
  - destruct (find_pools key ps) as [[x ps''] |] eqn:Hf; [| discriminate].
    injection H as -> <-. specialize (IH ps'' eq_refl). cbn [find_pools].
    destruct (take_item key' (poolItems p)) as [[y r] |]; [reflexivity |].
    destruct (find_pools key' ps'') as [[z qs] |], (find_pools key' ps) as [[z' qs'] |];
      cbn in *; congruence.
Qed.

Lemma get_fst (key : Z) (s : CacheLibCache) :
  (get key s).1 = getMemory <$> (find (key_str key) (cache_ s)).1.
Proof. unfold get. destruct (find _ _) as [[it |] c]; reflexivity. Qed.

(** One [get]: the next [get] returns what it would have returned, and the
    items, the pool identifiers, the capture buffers and the log are as
    before. *)
Lemma get_step_same (key key' : Z) (s : CacheLibCache) :
  (get key' (get key s).2).1 = (get key' s).1 /\
  Permutation (all_items (cache_ (get key s).2)) (all_items (cache_ s)) /\
  pool_ids_ (get key s).2 = pool_ids_ s /\
  same_capture (get key s).2 s /\
  xlog (get key s).2 = xlog s.
Proof.
  assert (Hc : cache_ (get key s).2 = (find (key_str key) (cache_ s)).2).
  { unfold get. destruct (find _ _) as [[it |] c]; reflexivity. }
  split; [| split; [| split; [| split]]].
  - rewrite !get_fst, Hc. f_equal. unfold find.
    destruct (find_pools (key_str key) (pools (cache_ s))) as [[it ps] |] eqn:Hf;
      [| reflexivity].
    cbn [snd pools set_pools].
    pose proof (find_pools_promoted _ (key_str key') _ _ _ Hf) as Hp.
    destruct (find_pools (key_str key') ps) as [[y qs] |],
             (find_pools (key_str key') (pools (cache_ s))) as [[y' qs'] |];
      cbn in Hp; try discriminate; [injection Hp as -> |]; reflexivity.
  - rewrite Hc. apply find_all_items.
  - unfold get. destruct (find _ _) as [[it |] c]; reflexivity.
  - unfold get, same_capture. destruct (find _ _) as [[it |] c]; cbn; auto.
  - unfold get. destruct (find _ _) as [[it |] c]; reflexivity.
Qed.

Lemma gets_snoc (keys : list Z) (key : Z) (s : CacheLibCache) :
  gets (keys ++ [key]) s = (get key (gets keys s)).2.
Proof. unfold gets. rewrite foldl_app. reflexivity. Qed.

(** X3.  Calls of [get] alone change no answer: after any sequence of [get]
    calls, a [get] returns what it would have returned before them.  The
    cache holds the same items, and the pool identifiers, the capture
    buffers, the cursor and the log are untouched; only the order of last
    use changes. *)
Theorem gets_change_no_answer (keys : list Z) (key' : Z) (s : CacheLibCache) :
  (get key' (gets keys s)).1 = (get key' s).1 /\
  Permutation (all_items (cache_ (gets keys s))) (all_items (cache_ s)) /\
  pool_ids_ (gets keys s) = pool_ids_ s /\
  same_capture (gets keys s) s /\
  xlog (gets keys s) = xlog s.
Proof.
  induction keys as [| key keys IH] using rev_ind.
  - split; [reflexivity |]. split; [reflexivity |]. split; [reflexivity |].
    split; [apply same_capture_refl | reflexivity].
  - destruct IH as (Hget & Hperm & Hids & Hcap & Hlog).
    destruct (get_step_same key key' (gets keys s)) as (Hget1 & Hperm1 & Hids1 & Hcap1 & Hlog1).
    rewrite gets_snoc. split; [| split; [| split; [| split]]].
    + rewrite Hget1. exact Hget.
    + rewrite Hperm1. exact Hperm.
    + rewrite Hids1. exact Hids.
    + eapply same_capture_trans; eauto.
    + rewrite Hlog1. exact Hlog.
Qed.

(** The order of last use is what a later [put] goes by: in a full shard
    that holds the keys 1 and 2, a [put] of key 3 evicts key 1, and evicts
    key 2 if key 1 was read before. *)
Example get_changes_later_eviction :
  (fun r => (get 2 r.2).1) <$> @put plain_platform 3 (float_row 9 9 9 9) two_row_armed
    = Ok (Some [5; 6; 7; 8]) /\
  (fun r => (get 2 r.2).1) <$> @put plain_platform 3 (float_row 9 9 9 9) two_row_read
    = Ok None.
Proof. vm_compute. split; reflexivity. Qed.

(** *** Shards *)

Section Shards.
Context {platform : Platform}.

Lemma put_pool_ids (key : Z) (data : Tensor) (s s' : CacheLibCache) (ok : bool) :
  put key data s = Ok (ok, s') -> pool_ids_ s' = pool_ids_ s.
Proof.
  intros H. apply put_inv in H as (evs & H).
  apply put_traced_inv in H as (pid & evs1 & h & c & s1 & _ & _ & Hcb1 & H).
  apply run_callbacks_frame in Hcb1 as (_ & Hi1 & _).
  destruct h as [h |].
  - destruct H as (bytes & s2 & _ & Hcb2 & [= _ _ ->]).
    apply run_callbacks_frame in Hcb2 as (_ & Hi2 & _).
    rewrite Hi2. cbn [pool_ids_ set_cache]. exact Hi1.
  - injection H as _ _ ->. exact Hi1.
Qed.

(** The identifiers of the pools are those the constructor was given, one
    per shard, whatever was called since. *)
Lemma reachable_pool_ids (config : CacheConfig) (n : nat) (s : CacheLibCache) :
  reachable config n s -> pool_ids_ s = seq 0 (N.to_nat (num_shards config)).
Proof.
  induction 1 as [s Hnew | s key data ok s' _ IH Hn Hput | s key _ IH
                  | s indices weights count s' _ IH Hinit | s _ IH].
  - unfold CacheLibCache_new, initializeCacheLib in Hnew.
    destruct (ram_cache_size (cache_size_bytes config)) as [ram |] eqn:Hram;
      [| discriminate].
    pose proof (CacheLibCache_new_spec config ram Hram) as Hs0.
    unfold CacheLibCache_new, initializeCacheLib in Hs0. rewrite Hram in Hs0.
    rewrite Hs0 in Hnew. apply Ok_inj in Hnew. subst s. reflexivity.
  - rewrite (put_pool_ids _ _ _ _ _ Hput). exact IH.
  - unfold get. destruct (find _ _) as [[it |] c]; exact IH.
  - unfold init_tensor_for_l2_eviction in Hinit.
    destruct (at_ones_times_minus_one _ _) as [ind |]; [rewrite bind_Ok in Hinit | discriminate].
    destruct (size weights 1) as [D |]; [rewrite bind_Ok in Hinit | discriminate].
    destruct (at_empty _ _) as [wts |]; [rewrite bind_Ok in Hinit | discriminate].
    apply Ok_inj in Hinit. subst s'. exact IH.
  - exact IH.
Qed.

(** X4.  In every engine a program arrives at, a key belongs to the shard
    [hash_shard] gives it among the configured number of shards, and the
    pool of that shard has the number of the shard as its identifier: the
    same pool for the same key at every call.  A shard number outside the
    range of the shards is an index outside [pool_ids_]. *)
Theorem key_always_in_same_pool
    (config : CacheConfig) (n : nat) (s : CacheLibCache) (key : Z) :
  reachable config n s ->
  get_shard_id key s = hash_shard key (N.to_nat (num_shards config)) /\
  ((hash_shard key (N.to_nat (num_shards config)) < N.to_nat (num_shards config))%nat ->
   get_pool_id key s = Ok (hash_shard key (N.to_nat (num_shards config)))) /\
  ((N.to_nat (num_shards config) <= hash_shard key (N.to_nat (num_shards config)))%nat ->
   get_pool_id key s = Fail OutOfBounds).
Proof.
  intros Hreach. apply reachable_pool_ids in Hreach as Hids.
  unfold get_pool_id, get_shard_id. rewrite Hids, length_seq.
  split; [reflexivity |]. split.
  - intros Hlt. rewrite lookup_seq_lt by exact Hlt. reflexivity.
  - intros Hge. rewrite lookup_seq_ge by exact Hge. reflexivity.
Qed.

(** X5.  With zero shards the constructor still builds an engine, without
    pools.  Every [put] on it, at any later time, indexes the empty list of
    pool identifiers; every [get] finds nothing. *)
Theorem no_shards_no_rows (config : CacheConfig) (n : nat) (s : CacheLibCache) :
  num_shards config = 0%N ->
  reachable config n s ->
  pool_ids_ s = [] /\ pools (cache_ s) = [] /\
  (forall key data, put key data s = Fail OutOfBounds) /\
  (forall key, (get key s).1 = None).
Proof.
  intros Hzero Hreach.
  pose proof (reachable_pool_ids _ _ _ Hreach) as Hids. rewrite Hzero in Hids.
  cbn [N.to_nat seq] in Hids.
  apply reachable_invariant in Hreach as (Hwf & _ & _).
  assert (Hps : pools (cache_ s) = []).
  { unfold wf in Hwf. rewrite Hids in Hwf.
    destruct (pools (cache_ s)); [reflexivity | discriminate]. }
  split; [exact Hids |]. split; [exact Hps |]. split.
  - intros key data. unfold put, put_traced, get_pool_id. rewrite Hids. reflexivity.
  - intros key. unfold get, find. rewrite Hps. reflexivity.
Qed.

End Shards.

Lemma key_always_in_same_pool_witness :
  @get_shard_id plain_platform 5 double_engine = 1%nat /\
  @get_pool_id plain_platform 5 double_engine = Ok 1%nat.
Proof.
  destruct (@key_always_in_same_pool plain_platform double_config 8 double_engine 5)
    as (H1 & H2 & _).
  - apply reach_new. reflexivity.
  - split; [exact H1 |]. apply H2. vm_compute. lia.
Defined.

Lemma no_shards_no_rows_witness :
  pool_ids_ no_shard_engine = [] /\ pools (cache_ no_shard_engine) = [] /\
  (forall key data, @put plain_platform key data no_shard_engine = Fail OutOfBounds) /\
  (forall key, (get key no_shard_engine).1 = None).
Proof.
  apply (@no_shards_no_rows plain_platform no_shard_config 4 no_shard_engine).
  - reflexivity.
  - apply reach_new. reflexivity.
Defined.

(** *** The capture buffers over the life of an engine *)

Section BuffersAttached.
Context {platform : Platform}.

(** The callback neither attaches nor detaches a buffer. *)
Lemma eviction_cb_attached (data : RemoveCbData) (s s' : CacheLibCache) :
  eviction_cb data s = Ok s' ->
  (evicted_indices_ptr_ s' = None <-> evicted_indices_ptr_ s = None) /\
  (evicted_weights_ptr_ s' = None <-> evicted_weights_ptr_ s = None).
Proof.
  unfold eviction_cb. intros H.
  destruct (evicted_weights_ptr_ s) as [wts |] eqn:Hw; [| discriminate].
  cbn [deref] in H. rewrite bind_Ok in H.
  destruct (dispatch_case _); [| discriminate].
  destruct (decide _).
  - destruct (evicted_indices_ptr_ s) as [ind |] eqn:Hi; [| discriminate].
    cbn [deref] in H. rewrite bind_Ok in H. bind_inv H.
    apply Ok_inj in H. subst s'. cbn. split; split; discriminate.
  - apply Ok_inj in H. subst s'. rewrite Hw. split; reflexivity.
Qed.

Lemma run_callbacks_attached (evs : list RemoveCbData) (s s' : CacheLibCache) :
  run_callbacks evs s = Ok s' ->
  (evicted_indices_ptr_ s' = None <-> evicted_indices_ptr_ s = None) /\
  (evicted_weights_ptr_ s' = None <-> evicted_weights_ptr_ s = None).
Proof.
  revert s. induction evs as [| d evs IH]; intros s H.
  - apply Ok_inj in H. subst s'. split; reflexivity.
  - cbn [run_callbacks] in H.
    destruct (eviction_cb d s) as [s1 |] eqn:E; [rewrite bind_Ok in H | discriminate].
    apply IH in H as [H1 H2]. apply eviction_cb_attached in E as [E1 E2].
    split; [rewrite H1; exact E1 | rewrite H2; exact E2].
Qed.

Lemma put_attached (key : Z) (data : Tensor) (s s' : CacheLibCache) (ok : bool) :
  put key data s = Ok (ok, s') ->
  (evicted_indices_ptr_ s' = None <-> evicted_indices_ptr_ s = None) /\
  (evicted_weights_ptr_ s' = None <-> evicted_weights_ptr_ s = None).
Proof.
  intros H. apply put_inv in H as (evs & H).
  apply put_traced_inv in H as (pid & evs1 & h & c & s1 & _ & _ & Hcb1 & H).
  apply run_callbacks_attached in Hcb1 as [Hi1 Hw1].
  cbn [evicted_indices_ptr_ evicted_weights_ptr_ set_cache] in Hi1, Hw1.
  destruct h as [h |].
  - destruct H as (bytes & s2 & _ & Hcb2 & [= _ _ ->]).
    apply run_callbacks_attached in Hcb2 as [Hi2 Hw2].
    cbn [evicted_indices_ptr_ evicted_weights_ptr_ set_cache] in Hi2, Hw2.
    split; [rewrite Hi2; exact Hi1 | rewrite Hw2; exact Hw1].
  - injection H as _ _ ->. cbn [evicted_indices_ptr_ evicted_weights_ptr_ add_xlog].
    split; assumption.
Qed.

Lemma reachable_paired (config : CacheConfig) (n : nat) (s : CacheLibCache) :
  reachable config n s ->
  evicted_indices_ptr_ s = None <-> evicted_weights_ptr_ s = None.
Proof.
  induction 1 as [s Hnew | s key data ok s' _ IH Hn Hput | s key _ IH
                  | s indices weights count s' _ IH Hinit | s _ IH].
  - unfold CacheLibCache_new in Hnew.
    destruct (initializeCacheLib config) as [c |]; [rewrite bind_Ok in Hnew | discriminate].
    destruct (add_shards _ _ _ _) as [[ids c'] |]; [rewrite bind_Ok in Hnew | discriminate].
    apply Ok_inj in Hnew. subst s. split; reflexivity.
  - apply put_attached in Hput as [Hi Hw]. rewrite Hi, Hw. exact IH.
  - unfold get. destruct (find _ _) as [[it |] c]; exact IH.
  - unfold init_tensor_for_l2_eviction in Hinit.
    destruct (at_ones_times_minus_one _ _) as [ind |]; [rewrite bind_Ok in Hinit | discriminate].
    destruct (size weights 1) as [D |]; [rewrite bind_Ok in Hinit | discriminate].
    destruct (at_empty _ _) as [wts |]; [rewrite bind_Ok in Hinit | discriminate].
    apply Ok_inj in Hinit. subst s'. cbn. split; discriminate.
  - exact IH.
Qed.

(** X6.  In every engine a program arrives at through calls that returned,
    the two capture buffers are attached together or not at all, so
    [get_evicted_indices_and_weights] never meets the case its assertion
    excludes: it hands out nothing for an engine without buffers and both
    buffers otherwise.  No [put] and no [get] attaches or detaches the
    buffers, and [reset_eviction_states] does not detach them either: after
    it the engine still hands out the buffers of the last cycle. *)
Theorem capture_buffers_attached_together
    (config : CacheConfig) (n : nat) (s : CacheLibCache) :
  reachable config n s ->
  (evicted_indices_ptr_ s = None /\ evicted_weights_ptr_ s = None /\
   get_evicted_indices_and_weights s = Ok None
   \/
   exists ind wts,
     evicted_indices_ptr_ s = Some ind /\ evicted_weights_ptr_ s = Some wts /\
     get_evicted_indices_and_weights s = Ok (Some (ind, wts))) /\
  (forall key data ok s', put key data s = Ok (ok, s') ->
     (evicted_indices_ptr_ s' = None <-> evicted_indices_ptr_ s = None) /\
     (evicted_weights_ptr_ s' = None <-> evicted_weights_ptr_ s = None)) /\
  (forall key, get_evicted_indices_and_weights (get key s).2
               = get_evicted_indices_and_weights s) /\
  get_evicted_indices_and_weights (reset_eviction_states s)
  = get_evicted_indices_and_weights s.
Proof.
  intros Hreach. apply reachable_paired in Hreach as Hpair.
  split; [| split; [| split]].
  - unfold get_evicted_indices_and_weights.
    destruct (evicted_indices_ptr_ s) as [ind |] eqn:Hi,
             (evicted_weights_ptr_ s) as [wts |] eqn:Hw.
    + right. exists ind, wts. auto.
    + destruct Hpair as [_ Hp]. specialize (Hp eq_refl). discriminate.
    + destruct Hpair as [Hp _]. specialize (Hp eq_refl). discriminate.
    + left. auto.
  - intros key data ok s' Hput. eapply put_attached; eauto.
  - intros key. unfold get. destruct (find _ _) as [[it |] c]; reflexivity.
  - reflexivity.
Qed.

End BuffersAttached.

Lemma capture_buffers_attached_together_witness :
  (evicted_indices_ptr_ one_row_engine = None /\
   evicted_weights_ptr_ one_row_engine = None /\
   get_evicted_indices_and_weights one_row_engine = Ok None
   \/
   exists ind wts,
     evicted_indices_ptr_ one_row_engine = Some ind /\
     evicted_weights_ptr_ one_row_engine = Some wts /\
     get_evicted_indices_and_weights one_row_engine = Ok (Some (ind, wts))) /\
  get_evicted_indices_and_weights (reset_eviction_states one_row_engine)
  = get_evicted_indices_and_weights one_row_engine.
Proof.
  destruct (@capture_buffers_attached_together plain_platform small_config 4 one_row_engine)
    as (H1 & _ & _ & H4).
  - apply (@reach_put plain_platform small_config 4 small_engine 1 (float_row 1 2 3 4)
             true one_row_engine).
    + apply reach_new. reflexivity.
    + reflexivity.
    + reflexivity.
  - split; [exact H1 | exact H4].
Defined.

(** *** More evictions than slots, and cycles without reset *)

Lemma copy_item_no_slot (slot D : Z) (els : nat) (it : Item) (ind wts : list byte) :
  Z.of_nat (length ind) < slot * 8 + 8 \/ slot < 0 ->
  copy_item slot D els it ind wts = Fail OutOfBounds.
Proof.
  intros Hslot. destruct (copy_item slot D els it ind wts) as [[ind' wts'] | f] eqn:E.
  - apply copy_item_Ok in E. lia.
  - f_equal. eapply copy_item_fail; eauto.
Qed.

(** The removals up to the eviction that follows [b] others. *)
Lemma evicted_items_split (evs : list RemoveCbData) :
  forall b : nat, (b < length (evicted_items evs))%nat ->
    exists pre it post,
      evs = pre ++ mkRemoveCbData kEviction it :: post /\
      length (evicted_items pre) = b.
Proof.
  induction evs as [| [ctx x] evs IH]; intros b Hb; [cbn in Hb; lia |].
  destruct ctx.
  - rewrite evicted_items_normal in Hb. destruct (IH b Hb) as (pre & it & post & -> & Hpre).
    exists (mkRemoveCbData kNormal x :: pre), it, post. split; [reflexivity |].
    rewrite evicted_items_normal. exact Hpre.
  - rewrite evicted_items_eviction in Hb. destruct b as [| b].
    + exists [], x, evs. split; reflexivity.
    + cbn [length] in Hb. destruct (IH b) as (pre & it & post & -> & Hpre); [lia |].
      exists (mkRemoveCbData kEviction x :: pre), it, post. split; [reflexivity |].
      rewrite evicted_items_eviction. cbn [length]. rewrite Hpre. reflexivity.
Qed.

Lemma sentinels_app (a b : nat) :
  mjoin (replicate (a + b) (minus_one kLong))
  = mjoin (replicate a (minus_one kLong)) ++ mjoin (replicate b (minus_one kLong)).
Proof.
  induction a as [| a IH]; [reflexivity |].
  change (mjoin (replicate (S a + b) (minus_one kLong)))
    with (minus_one kLong ++ mjoin (replicate (a + b) (minus_one kLong))).
  change (mjoin (replicate (S a) (minus_one kLong)))
    with (minus_one kLong ++ mjoin (replicate a (minus_one kLong))).
  rewrite IH, app_assoc. reflexivity.
Qed.

Lemma int64_elems_sentinels_app (a m : nat) (rest : list byte) :
  int64_elems (a + m) (mjoin (replicate a (minus_one kLong)) ++ rest)
  = replicate a (-1) ++ int64_elems m rest.
Proof.
  induction a as [| a IH]; [reflexivity |].
  change (mjoin (replicate (S a) (minus_one kLong)))
    with (minus_one kLong ++ mjoin (replicate a (minus_one kLong))).
  change (S a + m)%nat with (S (a + m)).
  rewrite <- app_assoc, int64_elems_app by reflexivity.
  rewrite minus_one_long, IH. reflexivity.
Qed.

Lemma int64s_captured (t : ScalarType) (sz : list Z) (its : list Item) :
  int64s (mkTensor t sz (captured_keys its)) = item_key <$> its.
Proof.
  unfold int64s. cbn [storage]. rewrite captured_keys_length.
  rewrite Nat.mul_comm, Nat.div_mul by lia.
  rewrite <- (app_nil_r (captured_keys its)), <- (Nat.add_0_r (length its)) at 1.
  rewrite int64_elems_captured. apply app_nil_r.
Qed.

Section Overflow.
Context {platform : Platform}.

Lemma eviction_cb_no_slot (it : Item) (s : CacheLibCache) (ind wts : Tensor) (D : Z) :
  evicted_indices_ptr_ s = Some ind -> evicted_weights_ptr_ s = Some wts ->
  scalar_type ind = kLong -> dispatch_case (scalar_type wts) = true ->
  sizes wts !! 1%nat = Some D ->
  Z.of_nat (length (storage ind)) < eviction_row_id s * 8 + 8 ->
  eviction_cb (mkRemoveCbData kEviction it) s = Fail OutOfBounds.
Proof.
  intros Hi Hw Hl Hd HD Hslot. unfold eviction_cb.
  rewrite Hw. cbn [deref]. rewrite bind_Ok, Hd.
  cbn [context item]. rewrite decide_True by reflexivity.
  rewrite Hi. cbn [deref]. rewrite bind_Ok.
  unfold data_ptr, size. rewrite !decide_True by auto. rewrite !bind_Ok.
  rewrite HD, bind_Ok, copy_item_no_slot by (left; exact Hslot). reflexivity.
Qed.

(** X7.  The callback does not compare the cursor with the number of slots.
    In a cycle armed for [count] evictions, with 64-bit keys and rows of the
    size of the slots, the removals up to the eviction number [count] are
    handled, and they leave the cursor at [count] and every slot of the
    buffer of keys taken.  The eviction that follows indexes slot [count] of
    that buffer of [count] slots: its store is outside the buffer. *)
Theorem eviction_past_last_slot
    (s0 armed : CacheLibCache) (indices weights : Tensor) (count D : Z)
    (evs : list RemoveCbData) :
  scalar_type indices = kLong ->
  dispatch_case (scalar_type weights) = true ->
  sizes weights !! 1%nat = Some D -> 0 <= D -> 0 <= count < 2 ^ 63 ->
  init_tensor_for_l2_eviction indices weights count (reset_eviction_states s0) = Ok armed ->
  Forall (fun it => (8 <= length (getKey it))%nat /\
                    (Z.to_nat D * elementSize (scalar_type weights)
                     <= length (getMemory it))%nat)
         (evicted_items evs) ->
  count < Z.of_nat (length (evicted_items evs)) ->
  exists pre it post s1 ind,
    evs = pre ++ mkRemoveCbData kEviction it :: post /\
    Z.of_nat (length (evicted_items pre)) = count /\
    run_callbacks pre armed = Ok s1 /\
    eviction_row_id s1 = count /\
    evicted_indices_ptr_ s1 = Some ind /\
    sizes ind = [count] /\
    Z.of_nat (length (storage ind)) = 8 * count /\
    int64s ind = item_key <$> evicted_items pre /\
    eviction_cb (mkRemoveCbData kEviction it) s1 = Fail OutOfBounds.
Proof.
  intros Hlong Hdisp HD HD0 Hcount Harm Hall Hmore.
  rewrite init_tensor_spec with (D := D) in Harm by assumption.
  apply Ok_inj in Harm. subst armed. rewrite Hlong.
  destruct (evicted_items_split evs (Z.to_nat count)) as (pre & it & post & -> & Hpre);
    [lia |].
  rewrite evicted_items_app in Hall. apply Forall_app in Hall as [Hpre_ok _].
  destruct s0 as [cfg c ids ind0 wts0 r0 lg].
  unfold set_evicted, reset_eviction_states, set_eviction_row_id.
  cbn [cache_config_ cache_ pool_ids_ xlog evicted_indices_ptr_ evicted_weights_ptr_
       eviction_row_id].
  pose proof (run_callbacks_capture pre cfg c ids [count] [count; D] (scalar_type weights)
                lg 0 [] (mjoin (replicate (Z.to_nat count) (minus_one kLong))) []
                (uninit <$> seq 0 (Z.to_nat count * Z.to_nat D
                                   * elementSize (scalar_type weights)))
                D Hdisp eq_refl HD0) as Hrun.
  ospecialize* Hrun;
    [reflexivity | reflexivity | rewrite sentinels_length; lia
     | rewrite length_fmap, length_seq, Hpre; lia | assumption | lia |].
  cbn [app Nat.add] in Hrun. change (Z.of_nat 0) with 0 in Hrun.
  exists pre, it, post. eexists _, _.
  split; [reflexivity |]. split; [lia |]. split; [exact Hrun |].
  cbn [eviction_row_id evicted_indices_ptr_].
  split; [lia |]. split; [reflexivity |]. cbn [sizes storage].
  split; [reflexivity |].
  rewrite sentinels_drop, Hpre, Nat.sub_diag. cbn [replicate mjoin list_join].
  rewrite app_nil_r. split; [rewrite captured_keys_length; lia |].
  split; [apply int64s_captured |].
  eapply eviction_cb_no_slot with (D := D);
    [reflexivity | reflexivity | reflexivity | exact Hdisp | reflexivity |].
  cbn [storage eviction_row_id]. rewrite captured_keys_length. lia.
Qed.

(** X8.  [init_tensor_for_l2_eviction] attaches new buffers and leaves the
    cursor where the last cycle left it.  Without a reset in between, the
    first eviction of the new cycle goes to the slot under the old cursor,
    with the slots before it still at -1, and it leaves the buffer when the
    old cursor is not below the new number of slots. *)
Theorem eviction_after_arming_without_reset
    (s armed : CacheLibCache) (indices weights : Tensor) (count D : Z) (r : nat)
    (it : Item) :
  scalar_type indices = kLong ->
  dispatch_case (scalar_type weights) = true ->
  sizes weights !! 1%nat = Some D -> 0 <= D -> 0 <= count < 2 ^ 63 ->
  eviction_row_id s = Z.of_nat r ->
  (8 <= length (getKey it))%nat ->
  (Z.to_nat D * elementSize (scalar_type weights) <= length (getMemory it))%nat ->
  init_tensor_for_l2_eviction indices weights count s = Ok armed ->
  (Z.of_nat r < count ->
   exists s' ind,
     eviction_cb (mkRemoveCbData kEviction it) armed = Ok s' /\
     eviction_row_id s' = Z.of_nat r + 1 /\
     evicted_indices_ptr_ s' = Some ind /\
     int64s ind = replicate r (-1) ++ item_key it
                  :: replicate (Z.to_nat count - r - 1) (-1)) /\
  (count <= Z.of_nat r ->
   eviction_cb (mkRemoveCbData kEviction it) armed = Fail OutOfBounds).
Proof.
  intros Hlong Hdisp HD HD0 Hcount Hr Hkey Hmem Harm.
  rewrite init_tensor_spec with (D := D) in Harm by assumption.
  apply Ok_inj in Harm. subst armed. rewrite Hlong.
  destruct s as [cfg c ids ind0 wts0 r0 lg]. cbn [eviction_row_id] in Hr. subst r0.
  unfold set_evicted. cbn [cache_config_ cache_ pool_ids_ xlog eviction_row_id].
  set (n := (Z.to_nat D * elementSize (scalar_type weights))%nat) in *.
  split.
  - intros Hlt.
    set (U := uninit <$> seq 0 _).
    assert (HU : length U = (Z.to_nat count * n)%nat).
    { unfold U, n. rewrite length_fmap, length_seq. lia. }
    assert (Hs : mjoin (replicate (Z.to_nat count) (minus_one kLong))
                 = mjoin (replicate r (minus_one kLong))
                   ++ mjoin (replicate (Z.to_nat count - r) (minus_one kLong))).
    { rewrite <- sentinels_app. do 2 f_equal. lia. }
    rewrite Hs, <- (take_drop (r * n) U). clear Hs.
    pose proof (run_callbacks_capture [mkRemoveCbData kEviction it] cfg c ids [count]
                  [count; D] (scalar_type weights) lg r
                  (mjoin (replicate r (minus_one kLong)))
                  (mjoin (replicate (Z.to_nat count - r) (minus_one kLong)))
                  (take (r * n) U) (drop (r * n) U) D Hdisp eq_refl HD0) as Hcap.
    rewrite evicted_items_eviction, evicted_items_nil in Hcap. cbn [length] in Hcap.
    fold n in Hcap. cbn [run_callbacks] in Hcap.
    ospecialize* Hcap;
      [apply sentinels_length | rewrite length_take; nia
       | rewrite sentinels_length; lia | rewrite length_drop; nia
       | repeat constructor; assumption | lia |].
    destruct (eviction_cb _ _) as [s' |] eqn:E; [| discriminate Hcap].
    rewrite bind_Ok in Hcap. apply Ok_inj in Hcap. subst s'.
    eexists _, _. split; [reflexivity |].
    cbn [eviction_row_id evicted_indices_ptr_]. split; [lia |]. split; [reflexivity |].
    unfold int64s. cbn [storage].
    rewrite sentinels_drop, !length_app, captured_keys_length, !sentinels_length.
    cbn [length].
    replace ((8 * r + (8 * 1 + 8 * (Z.to_nat count - r - 1))) / 8)%nat
      with (r + (1 + (Z.to_nat count - r - 1)))%nat
      by (rewrite <- !Nat.mul_add_distr_l, Nat.mul_comm, Nat.div_mul; lia).
    rewrite int64_elems_sentinels_app.
    rewrite (int64_elems_captured [it]).
    rewrite <- (app_nil_r (mjoin _)), int64_elems_sentinels. reflexivity.
  - intros Hge.
    eapply eviction_cb_no_slot with (D := D);
      [reflexivity | reflexivity | reflexivity | exact Hdisp | reflexivity |].
    cbn [storage eviction_row_id]. rewrite sentinels_length. lia.
Qed.

End Overflow.

Lemma eviction_past_last_slot_witness :
  (fun r => r.1.2) <$> @put_all plain_platform long_batch small_armed = Ok long_trace /\
  exists pre it post s1 ind,
    long_trace = pre ++ mkRemoveCbData kEviction it :: post /\
    Z.of_nat (length (evicted_items pre)) = 1 /\
    @run_callbacks plain_platform pre one_slot_armed = Ok s1 /\
    eviction_row_id s1 = 1 /\
    evicted_indices_ptr_ s1 = Some ind /\
    sizes ind = [1] /\
    Z.of_nat (length (storage ind)) = 8 * 1 /\
    int64s ind = item_key <$> evicted_items pre /\
    @eviction_cb plain_platform (mkRemoveCbData kEviction it) s1 = Fail OutOfBounds.
Proof.
  split; [vm_compute; reflexivity |].
  apply (@eviction_past_last_slot plain_platform small_engine one_slot_armed
           lookup_indices lookup_weights 1 1 long_trace).
  - reflexivity.
  - reflexivity.
  - reflexivity.
  - lia.
  - lia.
  - reflexivity.
  - repeat constructor.
  - vm_compute. reflexivity.
Defined.

Lemma eviction_after_arming_without_reset_witness :
  exists s' ind,
    @eviction_cb plain_platform (mkRemoveCbData kEviction (mkItem (key_str 7) [7; 7; 7; 7]))
      (res_get small_engine
         (@init_tensor_for_l2_eviction plain_platform lookup_indices lookup_weights 2
            row_cycle.2)) = Ok s' /\
    eviction_row_id s' = 2 /\
    evicted_indices_ptr_ s' = Some ind /\
    int64s ind = [-1; 7].
Proof.
  destruct (@eviction_after_arming_without_reset plain_platform row_cycle.2
              (res_get small_engine
                 (@init_tensor_for_l2_eviction plain_platform lookup_indices
                    lookup_weights 2 row_cycle.2))
              lookup_indices lookup_weights 2 1 1
              (mkItem (key_str 7) [7; 7; 7; 7])) as [H _].
  - reflexivity.
  - reflexivity.
  - reflexivity.
  - lia.
  - lia.
  - reflexivity.
  - vm_compute. lia.
  - vm_compute. lia.
  - reflexivity.
  - apply H. lia.
Defined.

(** *** Element types of the capture buffers *)

Section BufferTypes.
Context {platform : Platform}.

(** X9.  [init_tensor_for_l2_eviction] takes the element types of the two
    buffers from its arguments and checks neither.  With keys of another
    type than [int64_t] it returns as with any other, and the eviction that
    follows throws in [data_ptr<int64_t>()], while a removal that is no
    eviction passes; with rows of a type the dispatch macro has no case for,
    every removal throws, whatever its reason. *)
Theorem arming_checks_no_element_type
    (s : CacheLibCache) (indices weights : Tensor) (count D : Z) :
  sizes weights !! 1%nat = Some D -> 0 <= D -> 0 <= count < 2 ^ 63 ->
  exists armed ind wts,
    init_tensor_for_l2_eviction indices weights count s = Ok armed /\
    evicted_indices_ptr_ armed = Some ind /\ scalar_type ind = scalar_type indices /\
    evicted_weights_ptr_ armed = Some wts /\ scalar_type wts = scalar_type weights /\
    (scalar_type indices ≠ kLong -> dispatch_case (scalar_type weights) = true ->
     forall it,
       (exists msg, eviction_cb (mkRemoveCbData kEviction it) armed = Fail (Throw msg)) /\
       eviction_cb (mkRemoveCbData kNormal it) armed = Ok armed) /\
    (dispatch_case (scalar_type weights) = false ->
     forall data, exists msg, eviction_cb data armed = Fail (Throw msg)).
Proof.
  intros HD HD0 Hcount. eexists _, _, _.
  split; [apply init_tensor_spec; eassumption |].
  cbn [evicted_indices_ptr_ evicted_weights_ptr_ set_evicted scalar_type].
  split; [reflexivity |]. split; [reflexivity |]. split; [reflexivity |].
  split; [reflexivity |]. split.
  - intros Hty Hdisp it. unfold eviction_cb.
    cbn [evicted_indices_ptr_ evicted_weights_ptr_ set_evicted deref scalar_type].
    rewrite !bind_Ok. cbn [scalar_type]. rewrite Hdisp. cbn [context]. split.
    + rewrite decide_True by reflexivity.
      unfold data_ptr. cbn [scalar_type].
      rewrite (decide_False (P := scalar_type indices = kLong)) by exact Hty.
      eexists. reflexivity.
    + rewrite decide_False by discriminate. reflexivity.
  - intros Hdisp data. unfold eviction_cb.
    cbn [evicted_indices_ptr_ evicted_weights_ptr_ set_evicted deref scalar_type].
    rewrite !bind_Ok. cbn [scalar_type]. rewrite Hdisp. eexists. reflexivity.
Qed.

End BufferTypes.

Lemma arming_checks_no_element_type_witness :
  exists armed ind wts,
    @init_tensor_for_l2_eviction plain_platform byte_indices lookup_weights 2 small_engine
      = Ok armed /\
    evicted_indices_ptr_ armed = Some ind /\ scalar_type ind = kByte /\
    evicted_weights_ptr_ armed = Some wts /\ scalar_type wts = kFloat /\
    (kByte ≠ kLong -> true = true ->
     forall it,
       (exists msg, @eviction_cb plain_platform (mkRemoveCbData kEviction it) armed
                    = Fail (Throw msg)) /\
       @eviction_cb plain_platform (mkRemoveCbData kNormal it) armed = Ok armed) /\
    (true = false ->
     forall data, exists msg, @eviction_cb plain_platform data armed = Fail (Throw msg)).
Proof.
  apply (@arming_checks_no_element_type plain_platform small_engine byte_indices
           lookup_weights 2 1).
  - reflexivity.
  - lia.
  - lia.
Defined.

(** *** One row for each key *)

Lemma filter_mjoin {A} (P : A -> Prop) `{!forall x, Decision (P x)} (ls : list (list A)) :
  filter P (mjoin ls) = mjoin (filter P <$> ls).
Proof.
  induction ls as [| l ls IH]; [reflexivity |].
  cbn [mjoin list_join fmap list_fmap]. rewrite filter_app. f_equal. exact IH.
Qed.

Lemma items_without_key (key : list byte) (ps : list Pool) :
  mjoin (poolItems <$> (without_key key <$> ps))
  = filter (fun it => has_key key it = false) (mjoin (poolItems <$> ps)).
Proof. rewrite filter_mjoin, <- !list_fmap_compose. reflexivity. Qed.

Lemma with_key_filter (key : list byte) (ps : list Pool) :
  with_key key ps = filter (fun it => has_key key it = true) (mjoin (poolItems <$> ps)).
Proof. unfold with_key. rewrite filter_mjoin, <- list_fmap_compose. reflexivity. Qed.

Lemma items_pushed (it : Item) (ps : list Pool) :
  forall pid : PoolId, (pid < length ps)%nat ->
    exists A B, mjoin (poolItems <$> alter (push_item it) pid ps) = A ++ it :: B /\
                mjoin (poolItems <$> ps) = A ++ B.
Proof.
  unfold PoolId.
  induction ps as [| p ps IH]; intros pid Hpid; [cbn in Hpid; lia |].
  destruct pid as [| pid].
  - exists [], (poolItems p ++ mjoin (poolItems <$> ps)). split; reflexivity.
  - destruct (IH pid) as (A & B & H1 & H2); [cbn in Hpid; lia |].
    exists (poolItems p ++ A), B.
    change (mjoin (poolItems <$> alter (push_item it) (S pid) (p :: ps)))
      with (poolItems p ++ mjoin (poolItems <$> alter (push_item it) pid ps)).
    change (mjoin (poolItems <$> p :: ps)) with (poolItems p ++ mjoin (poolItems <$> ps)).
    rewrite H1, H2, !app_assoc. split; reflexivity.
Qed.

Lemma items_inserted (q : Pool) (ps : list Pool) :
  forall (pid : PoolId) (p : Pool), ps !! pid = Some p ->
    exists A B, mjoin (poolItems <$> ps) = A ++ poolItems p ++ B /\
                mjoin (poolItems <$> <[pid := q]> ps) = A ++ poolItems q ++ B.
Proof.
  unfold PoolId.
  induction ps as [| p0 ps IH]; intros pid p Hp; [discriminate |].
  destruct pid as [| pid].
  - injection Hp as ->. exists [], (mjoin (poolItems <$> ps)). split; reflexivity.
  - destruct (IH pid p Hp) as (A & B & H1 & H2).
    exists (poolItems p0 ++ A), B.
    change (mjoin (poolItems <$> <[S pid := q]> (p0 :: ps)))
      with (poolItems p0 ++ mjoin (poolItems <$> <[pid := q]> ps)).
    change (mjoin (poolItems <$> p0 :: ps)) with (poolItems p0 ++ mjoin (poolItems <$> ps)).
    rewrite H1, H2, <- !app_assoc. split; reflexivity.
Qed.

Lemma evicted_items_all (its : list Item) :
  evicted_items (mkRemoveCbData kEviction <$> its) = its.
Proof.
  induction its as [| it its IH]; [reflexivity |].
  cbn [fmap list_fmap]. rewrite evicted_items_eviction. f_equal. exact IH.
Qed.

(** What [allocate] takes out of the cache is what it reports, all of it as
    evicted. *)
Lemma allocate_split (pid : PoolId) (key : list byte) (sz : nat) (c c' : Cache)
    (evs : list RemoveCbData) (h : option Handle) :
  allocate pid key sz c = Ok (evs, h, c') ->
  Permutation (all_items c) (evicted_items evs ++ all_items c') /\
  item <$> evs = evicted_items evs /\
  (h = None -> evs = [] /\ c' = c).
Proof.
  intros H.
  apply allocate_inv in H as (p & Hp & [(_ & -> & -> & ->) | (v & k & Hvk & -> & -> & ->)]).
  - split; [reflexivity |]. split; [reflexivity | auto].
  - rewrite evicted_items_all, <- list_fmap_compose.
    split; [| split; [apply list_fmap_id | discriminate]].
    destruct (items_inserted (set_items p (reverse k)) (pools c) pid p Hp)
      as (A & B & H1 & H2).
    unfold all_items. cbn [pools set_pools]. rewrite H1, H2. cbn [poolItems set_items].
    assert (Hitems : Permutation (poolItems p) (v ++ reverse k)).
    { rewrite <- (reverse_involutive (poolItems p)), Hvk, reverse_app.
      rewrite (reverse_Permutation v). apply Permutation_app_comm. }
    rewrite Hitems, <- !app_assoc.
    rewrite (app_assoc A v), (Permutation_app_comm A v), <- app_assoc. reflexivity.
Qed.

(** What [insertOrReplace] takes out of the cache are the items that had the
    key of the new item, and it reports them all. *)
Lemma insertOrReplace_split (pid : PoolId) (it : Item) (c : Cache) :
  (pid < length (pools c))%nat ->
  Permutation (all_items (insertOrReplace pid it c).2)
    (it :: filter (fun x => has_key (getKey it) x = false) (all_items c)) /\
  item <$> (insertOrReplace pid it c).1
  = filter (fun x => has_key (getKey it) x = true) (all_items c).
Proof.
  intros Hpid. unfold insertOrReplace. cbn [fst snd]. split.
  - unfold all_items at 1. cbn [pools set_pools].
    destruct (items_pushed it (without_key (getKey it) <$> pools c) pid)
      as (A & B & H1 & H2); [rewrite length_fmap; exact Hpid |].
    rewrite H1. rewrite items_without_key in H2. unfold all_items. rewrite H2.
    symmetry. apply Permutation_middle.
  - rewrite <- list_fmap_compose, with_key_filter. apply list_fmap_id.
Qed.

Section KeysOnce.
Context {platform : Platform}.

(** A [put] that returned [true]: the items of the cache before it are the
    items it reports, those with the key of the new row among them, and the
    items that stay; the cache after it holds the new row and those. *)
Lemma put_true_split (key : Z) (data : Tensor) (s s' : CacheLibCache)
    (evs : list RemoveCbData) :
  put_traced key data s = Ok (true, evs, s') ->
  exists rest : list Item,
    Permutation (all_items (cache_ s)) ((item <$> evs) ++ rest) /\
    Forall (fun x => getKey x ≠ key_str key) rest /\
    Permutation (all_items (cache_ s'))
      (mkItem (key_str key) (tensor_bytes data) :: rest).
Proof.
  intros H.
  apply put_traced_inv in H as (pid & evs1 & h & c & s1 & _ & Halloc & Hcb1 & H).
  destruct h as [h |]; [| discriminate].
  destruct H as (bytes & s2 & Hread & Hcb2 & [= -> ->]).
  pose proof (allocate_handle _ _ _ _ _ _ _ Halloc) as [-> Hpid].
  apply allocate_split in Halloc as (Hperm1 & Hev1 & _).
  apply run_callbacks_frame in Hcb1 as (Hc1 & _).
  apply run_callbacks_frame in Hcb2 as (Hc2 & _).
  cbn [cache_ set_cache hPool hKey] in *. rewrite <- Hc1 in Hperm1, Hpid.
  apply mem_read_Ok in Hread as (_ & _ & ->).
  destruct (insertOrReplace_split pid (mkItem (key_str key) (take (nbytes data) (storage data)))
              (cache_ s1) Hpid) as [Hperm2 Hev2].
  cbn [getKey] in *.
  exists (filter (fun x => has_key (key_str key) x = false) (all_items (cache_ s1))).
  split; [| split].
  - unfold insertOrReplace in Hev2. cbn [fst getKey] in Hev2.
    rewrite fmap_app, Hev1, Hev2, Hperm1, <- app_assoc.
    apply Permutation_app_head.
    etransitivity;
      [symmetry; apply (filter_app_complement (fun x => has_key (key_str key) x = true)) |].
    apply Permutation_app_head.
    rewrite (list_filter_iff (fun x => ¬ has_key (key_str key) x = true)
               (fun x => has_key (key_str key) x = false)); [reflexivity |].
    intros x. destruct (has_key _ x); split; congruence.
  - apply Forall_forall. intros x Hx. apply list_elem_of_filter in Hx as [Hx _].
    unfold has_key in Hx. apply bool_decide_eq_false in Hx. exact Hx.
  - rewrite Hc2. exact Hperm2.
Qed.

(** A [put] that returned [false] has taken nothing out of the cache. *)
Lemma put_false_same (key : Z) (data : Tensor) (s s' : CacheLibCache)
    (evs : list RemoveCbData) :
  put_traced key data s = Ok (false, evs, s') -> evs = [] /\ cache_ s' = cache_ s.
Proof.
  intros H.
  apply put_traced_inv in H as (pid & evs1 & h & c & s1 & _ & Halloc & Hcb1 & H).
  destruct h as [h |]; [destruct H as (bytes & s2 & _ & _ & [=]) |].
  injection H as <- ->.
  apply allocate_split in Halloc as (_ & _ & Hnone).
  destruct (Hnone eq_refl) as [-> ->]. injection Hcb1 as <-. auto.
Qed.

(** What holds of the cache of a new engine and is kept by [put] and by the
    allocator's [find] holds of every engine a program arrives at. *)
Lemma reachable_cache_ind (config : CacheConfig) (n : nat) (P : Cache -> Prop) :
  (forall s, CacheLibCache_new config = Ok s -> P (cache_ s)) ->
  (forall s key data ok evs s',
     reachable config n s -> P (cache_ s) -> nbytes data = n ->
     put_traced key data s = Ok (ok, evs, s') -> P (cache_ s')) ->
  (forall key c, P c -> P (find key c).2) ->
  forall s, reachable config n s -> P (cache_ s).
Proof.
  intros Hnew Hput Hfind s.
  induction 1 as [s Hs | s key data ok s' Hr IH Hn Hp | s key _ IH
                  | s indices weights count s' _ IH Hinit | s _ IH].
  - apply Hnew, Hs.
  - apply put_inv in Hp as (evs & Hp). eapply Hput; eauto.
  - assert (Hc : cache_ (get key s).2 = (find (key_str key) (cache_ s)).2).
    { unfold get. destruct (find _ _) as [[it |] c]; reflexivity. }
    rewrite Hc. apply Hfind, IH.
  - unfold init_tensor_for_l2_eviction in Hinit.
    destruct (at_ones_times_minus_one _ _) as [ind |]; [rewrite bind_Ok in Hinit | discriminate].
    destruct (size weights 1) as [D |]; [rewrite bind_Ok in Hinit | discriminate].
    destruct (at_empty _ _) as [wts |]; [rewrite bind_Ok in Hinit | discriminate].
    apply Ok_inj in Hinit. subst s'. exact IH.
  - exact IH.
Qed.

Lemma put_traced_keys_once (key : Z) (data : Tensor) (s s' : CacheLibCache)
    (ok : bool) (evs : list RemoveCbData) :
  put_traced key data s = Ok (ok, evs, s') ->
  NoDup (getKey <$> all_items (cache_ s)) -> NoDup (getKey <$> all_items (cache_ s')).
Proof.
  intros Hp IH. destruct ok.
  - apply put_true_split in Hp as (rest & Hperm & Hrest & Hperm').
    rewrite Hperm'. rewrite Hperm, fmap_app in IH.
    apply NoDup_app in IH as (_ & _ & IH).
    cbn [fmap list_fmap getKey]. constructor; [| exact IH].
    intros Hin. apply list_elem_of_fmap in Hin as (x & Hk & Hx).
    rewrite Forall_forall in Hrest. apply (Hrest x Hx). symmetry. exact Hk.
  - apply put_false_same in Hp as [_ ->]. exact IH.
Qed.

Lemma reachable_keys_once (config : CacheConfig) (n : nat) (s : CacheLibCache) :
  reachable config n s -> NoDup (getKey <$> all_items (cache_ s)).
Proof.
  apply (reachable_cache_ind config n (fun c => NoDup (getKey <$> all_items c))).
  - intros s0 Hs0. unfold CacheLibCache_new, initializeCacheLib in Hs0.
    destruct (ram_cache_size (cache_size_bytes config)) as [ram |] eqn:Hram;
      [| discriminate].
    destruct (CacheLibCache_new_wf config ram Hram) as (s1 & Hs1 & _ & _ & Hnil).
    unfold CacheLibCache_new, initializeCacheLib in Hs1. rewrite Hram in Hs1.
    rewrite Hs1 in Hs0. apply Ok_inj in Hs0. subst s1. rewrite Hnil. constructor.
  - intros s0 key data ok evs s' _ IH _ Hp. eapply put_traced_keys_once; eauto.
  - intros key c IH. rewrite find_all_items. exact IH.
Qed.

Lemma NoDup_fmap_eq {A B} (f : A -> B) (l : list A) (x y : A) :
  NoDup (f <$> l) -> x ∈ l -> y ∈ l -> f x = f y -> x = y.
Proof.
  induction l as [| a l IH]; intros Hnd Hx Hy Heq; [inversion Hx |].
  cbn [fmap list_fmap] in Hnd. apply NoDup_cons in Hnd as [Hn Hnd].
  apply elem_of_cons in Hx as [-> | Hx]; apply elem_of_cons in Hy as [-> | Hy].
  - reflexivity.
  - exfalso. apply Hn. apply list_elem_of_fmap. eauto.
  - exfalso. apply Hn. apply list_elem_of_fmap. eauto.
  - apply IH; assumption.
Qed.

Lemma get_hit_item (key : Z) (s : CacheLibCache) (it : Item) :
  NoDup (getKey <$> all_items (cache_ s)) ->
  it ∈ all_items (cache_ s) -> getKey it = key_str key ->
  (get key s).1 = Some (getMemory it).
Proof.
  intros Hnd Hin Hk. rewrite get_fst. unfold find.
  destruct (find_pools (key_str key) (pools (cache_ s))) as [[x ps] |] eqn:Hf.
  - apply find_pools_key in Hf as [Hxk Hx]. cbn [fst fmap option_fmap option_map].
    do 2 f_equal. eapply (NoDup_fmap_eq getKey); eauto. congruence.
  - apply find_pools_None in Hf. rewrite Forall_forall in Hf.
    exfalso. exact (Hf it Hin Hk).
Qed.

(** X10.  [put] stores with [insertOrReplace], so the cache never holds two
    rows under one key: in every engine a program arrives at, the keys of
    the items are pairwise different, and [get] returns the row of the item
    that has the key. *)
Theorem one_row_for_each_key (config : CacheConfig) (n : nat) (s : CacheLibCache) :
  reachable config n s ->
  NoDup (getKey <$> all_items (cache_ s)) /\
  (forall it key, it ∈ all_items (cache_ s) -> getKey it = key_str key ->
     (get key s).1 = Some (getMemory it)).
Proof.
  intros Hr. pose proof (reachable_keys_once config n s Hr) as Hnd.
  split; [exact Hnd |]. intros it key. apply get_hit_item, Hnd.
Qed.

(** A batch of [put] calls leads from one engine of a program to another. *)
Lemma put_all_reachable (config : CacheConfig) (n : nat) (batch : list (Z * Tensor)) :
  forall (s s' : CacheLibCache) (oks : list bool) (evs : list RemoveCbData),
    reachable config n s -> Forall (fun kd => nbytes kd.2 = n) batch ->
    put_all batch s = Ok (oks, evs, s') -> reachable config n s'.
Proof.
  induction batch as [| [key data] batch IH]; intros s s' oks evs Hr Hn H.
  - injection H as _ _ <-. exact Hr.
  - apply Forall_cons in Hn as [Hn1 Hn]. cbn [put_all] in H.
    destruct (put_traced key data s) as [[[ok evs1] s1] |] eqn:E1;
      [rewrite bind_Ok in H | discriminate].
    destruct (put_all batch s1) as [[[oks2 evs2] s2] |] eqn:E2;
      [rewrite bind_Ok in H | discriminate].
    injection H as _ _ <-. eapply IH; [| exact Hn | exact E2].
    eapply reach_put; [exact Hr | exact Hn1 |]. apply put_inv. eauto.
Qed.

End KeysOnce.

Lemma small_armed_reachable : @reachable plain_platform small_config 4 small_armed.
Proof.
  eapply (@reach_init plain_platform small_config 4 (reset_eviction_states small_engine)
            lookup_indices lookup_weights 2).
  - apply reach_reset, reach_new. reflexivity.
  - reflexivity.
Qed.

Lemma two_row_armed_reachable : @reachable plain_platform small_config 4 two_row_armed.
Proof.
  eapply (@put_all_reachable plain_platform small_config 4 (take 2 row_batch) small_armed).
  - exact small_armed_reachable.
  - repeat constructor.
  - reflexivity.
Qed.

Lemma row_cycle_reachable : @reachable plain_platform small_config 4 row_cycle.2.
Proof.
  eapply (@put_all_reachable plain_platform small_config 4 row_batch small_armed).
  - exact small_armed_reachable.
  - repeat constructor.
  - reflexivity.
Qed.

Lemma one_row_for_each_key_witness :
  NoDup (getKey <$> all_items (cache_ row_cycle.2)) /\
  (forall it key, it ∈ all_items (cache_ row_cycle.2) -> getKey it = key_str key ->
     (get key row_cycle.2).1 = Some (getMemory it)).
Proof.
  apply (@one_row_for_each_key plain_platform small_config 4 row_cycle.2).
  exact row_cycle_reachable.
Defined.

(** *** The export and [get] *)

Lemma to_int64_cong (z : Z) : to_int64 z `mod` 2 ^ 64 = z `mod` 2 ^ 64.
Proof.
  unfold to_int64, to_signed. rewrite Zminus_mod_idemp_l. f_equal. lia.
Qed.

Lemma key_str_mod (z : Z) : key_str z = Z_to_little_endian 8 8 (z `mod` 2 ^ 64).
Proof.
  change (2 ^ 64) with (2 ^ (8 * 8)).
  rewrite <- (little_endian_to_Z_to_little_endian 8 8 z) by lia.
  symmetry. apply Z_to_little_endian_to_Z.
  - rewrite key_str_length. reflexivity.
  - lia.
  - unfold key_str. apply Z_to_little_endian_bound; lia.
Qed.

(** The bytes of a key are those of the 64-bit integer read back from them. *)
Lemma key_str_item_key (key : Z) (mem : list byte) :
  key_str (item_key (mkItem (key_str key) mem)) = key_str key.
Proof.
  unfold item_key. cbn [getKey]. rewrite take_ge by (rewrite key_str_length; lia).
  unfold key_str at 2. rewrite little_endian_to_Z_to_little_endian by lia.
  change (8 * 8) with 64. rewrite to_int64_mod.
  rewrite (key_str_mod (to_int64 key)), (key_str_mod key), to_int64_cong. reflexivity.
Qed.

Lemma key_str_inj (a b : Z) :
  int64_range a -> int64_range b -> key_str a = key_str b -> a = b.
Proof.
  intros Ha Hb Heq. pose proof (read_int64_key_str_id a Ha) as H1.
  rewrite Heq, (read_int64_key_str_id b Hb) in H1. apply Ok_inj in H1. auto.
Qed.

Lemma item_key_range (it : Item) : int64_range (item_key it).
Proof. apply to_int64_range. Qed.

Section ExportGet.
Context {platform : Platform}.

Lemma reachable_keys_canonical (config : CacheConfig) (n : nat) (s : CacheLibCache) :
  reachable config n s ->
  Forall (fun it => getKey it = key_str (item_key it)) (all_items (cache_ s)).
Proof.
  apply (reachable_cache_ind config n
           (fun c => Forall (fun it => getKey it = key_str (item_key it)) (all_items c))).
  - intros s0 Hs0. unfold CacheLibCache_new, initializeCacheLib in Hs0.
    destruct (ram_cache_size (cache_size_bytes config)) as [ram |] eqn:Hram;
      [| discriminate].
    destruct (CacheLibCache_new_wf config ram Hram) as (s1 & Hs1 & _ & _ & Hnil).
    unfold CacheLibCache_new, initializeCacheLib in Hs1. rewrite Hram in Hs1.
    rewrite Hs1 in Hs0. apply Ok_inj in Hs0. subst s1. rewrite Hnil. constructor.
  - intros s0 key data ok evs s' _ IH _ Hp.
    eapply put_traced_items; [exact Hp | exact IH |].
    intros bytes _. cbn [getKey]. symmetry. apply key_str_item_key.
  - intros key c IH. eapply Permutation_Forall; [| exact IH].
    symmetry. apply find_all_items.
Qed.

(** X11.  [get_all_items] and [get] tell the same story.  On every engine a
    program arrives at, with rows of the configured size and of a type the
    macro has a case for, the export lists no key twice; a 64-bit key is in
    the list exactly when [get] finds a row for it; and the row exported in
    slot [i] is the row [get] returns for the key in slot [i]. *)
Theorem export_agrees_with_get (config : CacheConfig) (dt : ScalarType) (s : CacheLibCache) :
  reachable config (Z.to_nat (max_D_ config) * elementSize dt) s ->
  0 < max_D_ config ->
  bytes_to_dtype (to_int (item_size_bytes config ÷ max_D_ config)) = Ok dt ->
  dispatch_case dt = true ->
  Z.of_nat (length (all_items (cache_ s))) < 2 ^ 31 ->
  exists ind wts cnt,
    get_all_items s = Ok (ind, wts, cnt) /\
    NoDup (int64s ind) /\
    (forall key, int64_range key -> key ∈ int64s ind <-> (get key s).1 ≠ None) /\
    (forall (i : nat) key, int64s ind !! i = Some key ->
       (get key s).1
       = row_bytes (Z.to_nat (max_D_ config) * elementSize dt) i (storage wts)).
Proof.
  intros Hr HD Hdt Hdisp Hlen.
  pose proof (get_all_items_reachable config dt s Hr HD Hdt Hdisp Hlen) as Hget.
  pose proof (reachable_keys_once _ _ _ Hr) as Hnd.
  pose proof (reachable_keys_canonical _ _ _ Hr) as Hcan.
  apply reachable_invariant in Hr as (_ & _ & Hrows).
  rewrite Forall_forall in Hcan, Hrows.
  eexists _, _, _. split; [exact Hget |].
  rewrite int64s_captured. cbn [storage]. split; [| split].
  - apply NoDup_fmap_2_strong; [| eapply NoDup_fmap_1; exact Hnd].
    intros x y Hx Hy Heq. apply (NoDup_fmap_eq getKey _ x y Hnd Hx Hy).
    rewrite (Hcan x Hx), (Hcan y Hy), Heq. reflexivity.
  - intros key Hkey. split.
    + intros Hin. apply list_elem_of_fmap in Hin as (it & -> & Hit).
      rewrite (get_hit_item _ s it Hnd Hit (Hcan it Hit)). discriminate.
    + intros Hhit. rewrite get_fst in Hhit. unfold find in Hhit.
      destruct (find_pools (key_str key) (pools (cache_ s))) as [[x ps] |] eqn:Hf;
        [| contradiction].
      apply find_pools_key in Hf as [Hxk Hx]. apply list_elem_of_fmap. exists x.
      split; [| exact Hx].
      apply key_str_inj; [exact Hkey | apply item_key_range |].
      rewrite <- (Hcan x Hx). symmetry. exact Hxk.
  - intros i key Hi. rewrite list_lookup_fmap in Hi.
    destruct (all_items (cache_ s) !! i) as [it |] eqn:Hit; [| discriminate].
    injection Hi as <-.
    assert (Hin : it ∈ all_items (cache_ s)) by (eapply list_elem_of_lookup_2; eauto).
    rewrite (get_hit_item _ s it Hnd Hin (Hcan it Hin)).
    rewrite <- (app_nil_r (captured_rows _ _)).
    rewrite (captured_rows_lookup _ _ i it []); [| | exact Hit].
    + destruct (Hrows it Hin) as [_ Hm]. rewrite take_ge by lia. reflexivity.
    + apply Forall_forall. intros y Hy. destruct (Hrows y Hy) as [_ Hm]. lia.
Qed.

End ExportGet.

Lemma export_agrees_with_get_witness :
  exists ind wts cnt,
    @get_all_items plain_platform row_cycle.2 = Ok (ind, wts, cnt) /\
    NoDup (int64s ind) /\
    (forall key, int64_range key -> key ∈ int64s ind <-> (get key row_cycle.2).1 ≠ None) /\
    (forall (i : nat) key, int64s ind !! i = Some key ->
       (get key row_cycle.2).1 = row_bytes 4 i (storage wts)).
Proof.
  apply (@export_agrees_with_get plain_platform small_config kFloat row_cycle.2).
  - exact row_cycle_reachable.
  - reflexivity.
  - reflexivity.
  - reflexivity.
  - vm_compute. reflexivity.
Defined.

(** *** What a [put] takes out of the cache *)

Section PutFrame.
Context {platform : Platform}.

(** X12.  A [put] loses no row silently and disturbs no other key.  The
    items in the cache before the call, with the new row when the call
    returned [true], are the items in the cache after it together with the
    items passed to the removal callback.  A key whose row was passed to the
    callback is no longer found by [get], unless it is the key just stored;
    every other key has the row it had. *)
Theorem put_removes_what_it_reports
    (config : CacheConfig) (n : nat) (s s' : CacheLibCache) (key : Z) (data : Tensor)
    (ok : bool) (evs : list RemoveCbData) :
  reachable config n s ->
  put_traced key data s = Ok (ok, evs, s') ->
  Permutation
    ((if ok then [mkItem (key_str key) (tensor_bytes data)] else []) ++ all_items (cache_ s))
    (all_items (cache_ s') ++ (item <$> evs)) /\
  (forall it k', it ∈ item <$> evs -> getKey it = key_str k' ->
     key_str k' ≠ key_str key -> (get k' s').1 = None) /\
  (forall k', key_str k' ≠ key_str key ->
     Forall (fun it => getKey it ≠ key_str k') (item <$> evs) ->
     (get k' s').1 = (get k' s).1).
Proof.
  intros Hr Hp. pose proof (reachable_keys_once _ _ _ Hr) as Hnd.
  pose proof (put_traced_keys_once _ _ _ _ _ _ Hp Hnd) as Hnd'.
  assert (Hmiss : forall k t, Forall (fun it => getKey it ≠ key_str k) (all_items (cache_ t)) ->
                  (get k t).1 = None).
  { intros k t Hall. rewrite get_fst. unfold find.
    destruct (find_pools (key_str k) (pools (cache_ t))) as [[x ps] |] eqn:Hf;
      [| reflexivity].
    apply find_pools_key in Hf as [Hxk Hx]. rewrite Forall_forall in Hall.
    exfalso. exact (Hall x Hx Hxk). }
  destruct ok.
  - apply put_true_split in Hp as (rest & Hperm & Hrest & Hperm').
    split; [| split].
    + cbn [app]. rewrite Hperm', Hperm. cbn [app].
      apply perm_skip. apply Permutation_app_comm.
    + intros it k' Hit Hk Hne. apply Hmiss. rewrite Hperm'.
      constructor; [cbn [getKey]; congruence |].
      rewrite Hperm, fmap_app in Hnd. apply NoDup_app in Hnd as (_ & Hdis & _).
      apply Forall_forall. intros x Hx Hxk.
      apply (Hdis (getKey it)); [apply list_elem_of_fmap; eauto |].
      apply list_elem_of_fmap. exists x. split; [congruence | exact Hx].
    + intros k' Hne Hall.
      destruct (decide (Forall (fun it => getKey it ≠ key_str k') (all_items (cache_ s))))
        as [Hnone | Hsome].
      * rewrite (Hmiss k' s Hnone). apply Hmiss. rewrite Hperm'.
        constructor; [cbn [getKey]; congruence |].
        rewrite Hperm in Hnone. apply Forall_app in Hnone as [_ Hnone]. exact Hnone.
      * apply not_Forall_Exists in Hsome; [| intros x; apply _].
        apply Exists_exists in Hsome as (x & Hx & Hxk). apply dec_stable in Hxk.
        rewrite (get_hit_item k' s x Hnd Hx Hxk).
        apply (get_hit_item k' s' x Hnd'); [| exact Hxk].
        rewrite Hperm'. apply list_elem_of_further.
        rewrite Hperm in Hx. apply elem_of_app in Hx as [Hx | Hx]; [| exact Hx].
        rewrite Forall_forall in Hall. exfalso. exact (Hall x Hx Hxk).
  - apply put_false_same in Hp as [-> Hc]. cbn [app fmap list_fmap].
    rewrite app_nil_r, Hc. split; [reflexivity |]. split.
    + intros it k' Hit. inversion Hit.
    + intros k' _ _. rewrite !get_fst, Hc. reflexivity.
Qed.

End PutFrame.

Lemma put_removes_what_it_reports_witness :
  Permutation
    ([mkItem (key_str 3) (tensor_bytes (float_row 9 9 9 9))]
     ++ all_items (cache_ two_row_armed))
    (all_items (cache_ row_cycle.2) ++ [mkItem (key_str 1) [1; 2; 3; 4]]) /\
  (get 1 row_cycle.2).1 = None /\
  (get 2 row_cycle.2).1 = (get 2 two_row_armed).1.
Proof.
  destruct (@put_removes_what_it_reports plain_platform small_config 4 two_row_armed
              row_cycle.2 3 (float_row 9 9 9 9) true
              [mkRemoveCbData kEviction (mkItem (key_str 1) [1; 2; 3; 4])])
    as (H1 & H2 & H3).
  - exact two_row_armed_reachable.
  - reflexivity.
  - split; [exact H1 |]. split.
    + apply (H2 (mkItem (key_str 1) [1; 2; 3; 4]) 1).
      * apply list_elem_of_here.
      * reflexivity.
      * discriminate.
    + apply H3; [discriminate |]. repeat constructor. discriminate.
Defined.

(** *** The usage report *)

Lemma to_int64_add_l (a b : Z) : to_int64 (to_int64 a + b) = to_int64 (a + b).
Proof.
  rewrite <- (to_int64_mod (to_int64 a + b)), <- (to_int64_mod (a + b)). f_equal.
  rewrite Zplus_mod, to_int64_cong, <- Zplus_mod. reflexivity.
Qed.

(** The loop of [get_cache_usage] over the pools it has still to visit: the
    sum of their free bytes is added, as an [int64_t]. *)
Lemma free_bytes_pools (c : Cache) (rest : list Pool) :
  forall (done : list Pool) (acc : Z),
    pools c = done ++ rest -> int64_range acc ->
    free_bytes (seq (length done) (length rest)) c acc
    = Ok (to_int64 (acc + Z.of_N (free_total rest))).
Proof.
  induction rest as [| p rest IH]; intros done acc Hc Hacc.
  - cbn. rewrite Z.add_0_r, to_int64_id by exact Hacc. reflexivity.
  - cbn [length seq free_bytes]. unfold getPoolStats.
    rewrite Hc, list_lookup_middle by reflexivity. rewrite bind_Ok.
    change (free_total (p :: rest)) with (freeMemoryBytes p + free_total rest)%N.
    replace (S (length done)) with (length (done ++ [p]))
      by (rewrite length_app; cbn; lia).
    rewrite IH; [| rewrite Hc, <- app_assoc; reflexivity | apply to_int64_range].
    rewrite to_int64_add_l. do 2 f_equal. lia.
Qed.

Section Usage.
Context {platform : Platform}.

(** X13.  [get_cache_usage] returns two numbers, on every engine a program
    arrives at.  The first is the sum, as an [int64_t], of what
    [freeMemoryBytes] reports for the pools of the allocator, each pool
    counted once; it is the sum itself when that is below 2^63.  The second
    is the configured [cache_size_bytes], not the memory the allocator
    reports as usable.  No pool identifier the loop passes to
    [getPoolStats] is invalid. *)
Theorem cache_usage_free_and_capacity
    (config : CacheConfig) (n : nat) (s : CacheLibCache) :
  reachable config n s ->
  get_cache_usage s
  = Ok [to_int64 (Z.of_N (free_total (pools (cache_ s))));
        to_int64 (Z.of_N (cache_size_bytes config))] /\
  (Z.of_N (free_total (pools (cache_ s))) < 2 ^ 63 ->
   get_cache_usage s
   = Ok [Z.of_N (free_total (pools (cache_ s)));
         to_int64 (Z.of_N (cache_size_bytes config))]) /\
  Forall (fun pid => exists p, getPoolStats pid (cache_ s) = Ok p) (pool_ids_ s).
Proof.
  intros Hr. apply reachable_invariant in Hr as (Hwf & Hcfg & _).
  assert (Hfb : free_bytes (seq 0 (length (pools (cache_ s)))) (cache_ s) 0
                = Ok (to_int64 (0 + Z.of_N (free_total (pools (cache_ s)))))).
  { apply (free_bytes_pools (cache_ s) (pools (cache_ s)) [] 0); [reflexivity |].
    unfold int64_range. lia. }
  rewrite Z.add_0_l in Hfb.
  assert (Hget : get_cache_usage s
                 = Ok [to_int64 (Z.of_N (free_total (pools (cache_ s))));
                       to_int64 (Z.of_N (cache_size_bytes config))]).
  { unfold get_cache_usage. rewrite Hwf, Hcfg, Hfb, bind_Ok. reflexivity. }
  split; [exact Hget |]. split.
  - intros Hlt. rewrite Hget, to_int64_id by (unfold int64_range; lia). reflexivity.
  - eapply Forall_impl; [apply wf_pool_ids; exact Hwf |].
    intros pid Hpid. unfold getPoolStats.
    destruct (pools (cache_ s) !! pid) as [p |] eqn:Hp; [eauto |].
    apply lookup_ge_None in Hp. cbv beta in Hpid. lia.
Qed.

End Usage.

Lemma cache_usage_free_and_capacity_witness :
  get_cache_usage slab_engine
  = Ok [to_int64 (Z.of_N (free_total (pools (cache_ slab_engine)))); 10485760] /\
  cache_size_bytes (cache_config_ slab_engine) = 10485760%N /\
  ramCacheSize (cache_ slab_engine) = 8388608%N.
Proof.
  destruct (@cache_usage_free_and_capacity slab_platform two_shard_config 4 slab_engine)
    as (H & _).
  - apply reach_new. reflexivity.
  - split; [exact H |]. split; reflexivity.
Defined.

(** *** Configurations [get_all_items] cannot export *)

Section Rejects.
Context {platform : Platform}.

(** X14.  The constructor accepts any [max_D_] and any row width;
    [get_all_items] is where they are first used.  With [max_D_] zero the
    call divides by zero; with a negative [max_D_], or a row type the
    dispatch macro has no case for, it throws.  This happens before any item
    is visited, so also for an empty cache. *)
Theorem get_all_items_rejects (config : CacheConfig) (n : nat) (s : CacheLibCache) :
  reachable config n s ->
  (max_D_ config = 0 -> get_all_items s = Fail DivisionByZero) /\
  (forall dt,
     max_D_ config ≠ 0 ->
     bytes_to_dtype (to_int (item_size_bytes config ÷ max_D_ config)) = Ok dt ->
     max_D_ config < 0 \/ dispatch_case dt = false ->
     exists msg, get_all_items s = Fail (Throw msg)).
Proof.
  intros Hr. apply reachable_invariant in Hr as (Hwf & Hcfg & _).
  destruct (count_items_some (cache_ s) (pool_ids_ s) 0 (wf_pool_ids s Hwf)) as [total Htotal].
  unfold get_all_items. rewrite Htotal, bind_Ok, Hcfg. unfold export_items, cdiv. split.
  - intros HD. rewrite decide_True by exact HD. reflexivity.
  - intros dt HD Hdt Hcase. rewrite decide_False by exact HD. rewrite bind_Ok, Hdt, bind_Ok.
    unfold at_empty.
    destruct (decide (Forall (fun d => 0 <= d) [total])) as [Htot |];
      [rewrite bind_Ok | eexists; reflexivity].
    destruct (decide (Forall (fun d => 0 <= d) [total; max_D_ config])) as [Hdims |];
      [rewrite bind_Ok | eexists; reflexivity].
    cbn [scalar_type]. destruct Hcase as [Hneg | Hdisp].
    + apply Forall_cons in Hdims as [_ Hdims]. apply Forall_cons in Hdims as [Hdims _]. lia.
    + rewrite Hdisp. eexists. reflexivity.
Qed.

End Rejects.

Lemma get_all_items_rejects_witness :
  @CacheLibCache_new plain_platform zero_dim_config = Ok zero_dim_engine /\
  @get_all_items plain_platform zero_dim_engine = Fail DivisionByZero.
Proof.
  split; [reflexivity |].
  destruct (@get_all_items_rejects plain_platform zero_dim_config 4 zero_dim_engine)
    as [H _].
  - apply reach_new. reflexivity.
  - apply H. reflexivity.
Defined.

(** *** An engine without capture buffers *)

Section NeverArmed.
Context {platform : Platform}.

Lemma run_callbacks_unarmed (evs : list RemoveCbData) (s s' : CacheLibCache) :
  evicted_weights_ptr_ s = None -> run_callbacks evs s = Ok s' -> evs = [] /\ s' = s.
Proof.
  intros Hnone H. destruct evs as [| d evs].
  - injection H as <-. auto.
  - cbn [run_callbacks] in H. rewrite (eviction_cb_unarmed d s Hnone) in H. discriminate.
Qed.

(** X15.  While no capture buffer is attached, a [put] returns only if the
    allocator reported no removal at all.  So it has evicted nothing, and
    when it returned [true] the key was not in the cache before: on such an
    engine no row is ever overwritten, and the cache is as it was but for
    the new row. *)
Theorem unarmed_put_adds_or_stops
    (s s' : CacheLibCache) (key : Z) (data : Tensor) (ok : bool) (evs : list RemoveCbData) :
  evicted_weights_ptr_ s = None ->
  put_traced key data s = Ok (ok, evs, s') ->
  evs = [] /\
  evicted_weights_ptr_ s' = None /\
  (ok = true ->
   Forall (fun it => getKey it ≠ key_str key) (all_items (cache_ s)) /\
   Permutation (all_items (cache_ s'))
     (mkItem (key_str key) (tensor_bytes data) :: all_items (cache_ s))) /\
  (ok = false -> cache_ s' = cache_ s).
Proof.
  intros Hnone Hp. pose proof Hp as Hp'.
  apply put_traced_inv in Hp as (pid & evs1 & h & c & s1 & _ & Halloc & Hcb1 & H).
  apply run_callbacks_unarmed in Hcb1 as [-> ->]; [| exact Hnone].
  destruct h as [h |].
  - destruct H as (bytes & s2 & _ & Hcb2 & [= -> -> ->]).
    apply run_callbacks_unarmed in Hcb2 as [Hev2 ->]; [| exact Hnone].
    unfold insertOrReplace in Hev2. cbn [fst getKey cache_ set_cache] in Hev2.
    cbn [app] in *. rewrite Hev2 in Hp' |- *.
    split; [reflexivity |]. split; [exact Hnone |].
    split; [| discriminate]. intros _.
    apply put_true_split in Hp' as (rest & Hperm & Hrest & Hperm').
    cbn [app fmap list_fmap] in Hperm.
    rewrite Hperm. split; [exact Hrest | exact Hperm'].
  - injection H as -> -> ->. split; [reflexivity |]. split; [exact Hnone |].
    split; [discriminate |]. intros _.
    apply put_false_same in Hp' as [_ Hc]. exact Hc.
Qed.

End NeverArmed.

Lemma unarmed_put_adds_or_stops_witness :
  Forall (fun it => getKey it ≠ key_str 1) (all_items (cache_ small_engine)) /\
  Permutation (all_items (cache_ one_row_engine))
    (mkItem (key_str 1) (tensor_bytes (float_row 1 2 3 4))
     :: all_items (cache_ small_engine)).
Proof.
  destruct (@unarmed_put_adds_or_stops plain_platform small_engine one_row_engine 1
              (float_row 1 2 3 4) true []) as (_ & _ & H & _).
  - reflexivity.
  - reflexivity.
  - apply H. reflexivity.
Defined.
